(** * Neural-network building blocks of [models/components.py]

    A shallow embedding of [ContextWindow], [Concatenate], [TimeDistributed],
    [CNNEncoder] and [BiLSTMEmbedder], together with the tensor primitives of
    the framework they call.

    - A tensor is a shape and its elements in logical (row-major) order; an
      axis may have size 0, as in the framework.  Its strides are kept
      where the code depends on them: [TimeDistributed] calls [view] on
      tensors as they come, contiguous or not.
    - A Python exception is a [Raise] result; an [assert] raises
      [AssertionError], a check inside the framework the exception the
      framework raises.
    - Floating-point values are an arbitrary type [A] with the operations a
      component needs ([zero], [add], [mul], [maxA]); index tensors hold
      integers.
    - Learned parameters are arguments: the weights of the convolution, the
      cells of the recurrent layer, the embedder. *)

From Stdlib Require Import List Arith Lia ZArith Bool Permutation Sorted.
From Stdlib Require String DecimalString DecimalNat.
Import ListNotations.

Set Implicit Arguments.

(** ** Exceptions *)

Inductive exn : Set :=
| AssertionError
| RuntimeError
| IndexError
| ValueError.

Inductive result (T : Type) : Type :=
| Ok (v : T)
| Raise (e : exn).

Arguments Ok {T} v.
Arguments Raise {T} e.

Definition bind {T U : Type} (r : result T) (k : T -> result U) : result U :=
  match r with
  | Ok v => k v
  | Raise e => Raise e
  end.

Notation "x <- r ;; k" := (bind r (fun x => k))
  (at level 61, r at next level, right associativity).
Notation "'check' r ;; k" := (bind r (fun _ => k))
  (at level 61, r at next level, right associativity).

(** Python's [assert b]. *)
Definition py_assert (b : bool) : result unit :=
  if b then Ok tt else Raise AssertionError.

(** A check made inside the framework, failing with exception [e]. *)
Definition require (e : exn) (b : bool) : result unit :=
  if b then Ok tt else Raise e.

(** A [for] loop or list comprehension whose body may raise: the first
    exception stops it. *)
Fixpoint mapM {T U : Type} (f : T -> result U) (l : list T) : result (list U) :=
  match l with
  | [] => Ok []
  | x :: l' => y <- f x ;; ys <- mapM f l' ;; Ok (y :: ys)
  end.

Definition is_ok {T : Type} (r : result T) : bool :=
  match r with
  | Ok _ => true
  | Raise _ => false
  end.

(** ** Tensors *)

Record Tensor (T : Type) : Type := mkTensor {
  shape : list nat;
  data : list T
}.

Arguments mkTensor {T} shape data.

Definition numel (s : list nat) : nat := fold_right Nat.mul 1 s.

(** The invariant of a tensor that the framework built. *)
Definition wf {T : Type} (t : Tensor T) : Prop :=
  length (data t) = numel (shape t).

Definition dim {T : Type} (t : Tensor T) : nat := length (shape t).

(** Python's index normalisation: [-1] is the last axis of [rank] axes. *)
Definition norm_dim (rank : nat) (d : Z) : option nat :=
  if ((0 <=? d) && (d <? Z.of_nat rank))%Z then Some (Z.to_nat d)
  else if ((- Z.of_nat rank <=? d) && (d <? 0))%Z
       then Some (Z.to_nat (Z.of_nat rank + d))
       else None.

(** [t.size(d)] *)
Definition size {T : Type} (t : Tensor T) (d : Z) : result nat :=
  match norm_dim (dim t) d with
  | Some k => Ok (nth k (shape t) 0)
  | None => Raise IndexError
  end.

(** The size of the last axis, [t.size(-1)], 0 for a scalar. *)
Definition last_size {T : Type} (t : Tensor T) : nat := last (shape t) 0.

(** The [i]-th block of [k] consecutive elements. *)
Definition chunk {T : Type} (k i : nat) (l : list T) : list T :=
  firstn k (skipn (i * k) l).

Definition list_eqb (s1 s2 : list nat) : bool :=
  if list_eq_dec Nat.eq_dec s1 s2 then true else false.

Section TensorOps.
Context {T : Type}.

(** [t.unsqueeze(k)] for a normalised axis. *)
Definition unsqueeze_at (k : nat) (t : Tensor T) : Tensor T :=
  mkTensor (firstn k (shape t) ++ [1] ++ skipn k (shape t)) (data t).

Definition unsqueeze (d : Z) (t : Tensor T) : result (Tensor T) :=
  match norm_dim (S (dim t)) d with
  | Some k => Ok (unsqueeze_at k t)
  | None => Raise IndexError
  end.

(** Concatenation along axis [k] of tensors that agree on the other axes:
    for every index of the leading axes, the blocks of the operands in
    order. *)
Definition cat_at (k : nat) (s0 : list nat) (ts : list (Tensor T)) : Tensor T :=
  mkTensor
    (firstn k s0 ++ [list_sum (map (fun t => nth k (shape t) 0) ts)]
       ++ skipn (S k) s0)
    (flat_map
       (fun o => flat_map
                   (fun t => chunk (numel (skipn k (shape t))) o (data t)) ts)
       (seq 0 (numel (firstn k s0)))).

(** Two shapes may be concatenated along [k]: same rank, same sizes
    elsewhere. *)
Definition cat_compatible (k : nat) (s0 s : list nat) : bool :=
  list_eqb (firstn k s0) (firstn k s) && list_eqb (skipn (S k) s0) (skipn (S k) s)
  && (length s0 =? length s).

(** The framework skips operands of shape [(0,)] (its legacy empty
    tensor). *)
Definition legacy_empty (t : Tensor T) : bool := list_eqb (shape t) [0].

(** [torch.cat(ts, dim=d)].  On an empty list every release raises; the
    class of that exception is [RuntimeError] in the earlier releases and
    [ValueError] in later ones. *)
Definition torch_cat (ts : list (Tensor T)) (d : Z) : result (Tensor T) :=
  match ts with
  | [] => Raise RuntimeError
  | t1 :: _ =>
      match filter (fun t => negb (legacy_empty t)) ts with
      | [] => Ok t1
      | (t0 :: _) as ts' =>
          match norm_dim (dim t0) d with
          | None => Raise IndexError
          | Some k =>
              check require RuntimeError
                (forallb (fun t => cat_compatible k (shape t0) (shape t)) ts') ;;
              Ok (cat_at k (shape t0) ts')
          end
      end
  end.

(** [torch.stack(ts, dim=d)]: a new axis at [d]; the operands must be a
    non-empty list of tensors of one shape. *)
Definition torch_stack (ts : list (Tensor T)) (d : Z) : result (Tensor T) :=
  match ts with
  | [] => Raise RuntimeError
  | t0 :: _ =>
      match norm_dim (S (dim t0)) d with
      | None => Raise IndexError
      | Some k =>
          check require RuntimeError
            (forallb (fun t => list_eqb (shape t0) (shape t)) ts) ;;
          Ok (cat_at k (shape (unsqueeze_at k t0)) (map (unsqueeze_at k) ts))
      end
  end.

(** Python's slice bounds [lo:hi] on an axis of [n] entries, for
    non-negative [lo] and [hi]. *)
Definition slice_lo (n lo : nat) : nat := Nat.min lo n.
Definition slice_len (n lo hi : nat) : nat := Nat.min hi n - Nat.min lo n.

(** [t[:, lo:hi, :]]: basic slicing of axis 1 of a tensor of rank 3 or
    more. *)
Definition getitem_slice1 (t : Tensor T) (lo hi : nat) : result (Tensor T) :=
  match shape t with
  | b :: n :: k :: rest =>
      let inner := numel (k :: rest) in
      Ok (mkTensor (b :: slice_len n lo hi :: k :: rest)
            (flat_map
               (fun o => firstn (slice_len n lo hi * inner)
                           (skipn (slice_lo n lo * inner)
                              (chunk (n * inner) o (data t))))
               (seq 0 b)))
  | _ => Raise IndexError
  end.

(** The shape a [view] request denotes for a tensor of [n] elements; one
    entry may be [-1] and is then inferred, unless the other entries
    multiply to zero. *)
Definition infer_size (sizes : list Z) (n : nat) : result (list nat) :=
  if existsb (fun z => (z <? -1)%Z) sizes then Raise RuntimeError
  else
    let known := numel (map Z.to_nat (filter (fun z => (0 <=? z)%Z) sizes)) in
    match count_occ Z.eq_dec sizes (-1)%Z with
    | 0 => check require RuntimeError (known =? n) ;;
           Ok (map Z.to_nat sizes)
    | 1 => check require RuntimeError ((0 <? known) && (n mod known =? 0)) ;;
           Ok (map (fun z => if (z =? -1)%Z then n / known else Z.to_nat z) sizes)
    | _ => Raise RuntimeError
    end.

(** [t.contiguous().view(sizes)]: the view of a tensor that was made
    contiguous first, which cannot fail for its strides. *)
Definition view (t : Tensor T) (sizes : list Z) : result (Tensor T) :=
  s <- infer_size sizes (numel (shape t)) ;;
  Ok (mkTensor s (data t)).

(** [t[idx]] for an index tensor [idx]: selection of rows of axis 0. *)
Definition index_rows (t : Tensor T) (idx : list nat) : result (Tensor T) :=
  match shape t with
  | b :: rest =>
      check require IndexError (forallb (fun i => i <? b) idx) ;;
      Ok (mkTensor (length idx :: rest)
            (flat_map (fun i => chunk (numel rest) i (data t)) idx))
  | [] => Raise IndexError
  end.

End TensorOps.

(** ** Memory layout *)

(** A tensor as the framework holds it: its elements in logical (row-major)
    order and the stride of every axis.  Slices, transposes and expansions
    change the strides; of the operations used here only [view] on a tensor
    that was not made contiguous first looks at them. *)
Record Strided (T : Type) : Type := mkStrided {
  logical : Tensor T;
  strides : list nat
}.

Arguments mkStrided {T} logical strides.

(** The strides of a freshly allocated tensor of shape [s]. *)
Fixpoint default_strides (s : list nat) : list nat :=
  match s with
  | [] => []
  | _ :: s' => numel (map (Nat.max 1) s') :: default_strides s'
  end.

(** [t.contiguous()], also what every allocating operation returns. *)
Definition contiguous {T : Type} (t : Tensor T) : Strided T :=
  mkStrided t (default_strides (shape t)).

(** The inner loop of the framework's [computeStride]: the axes of the view,
    last one first, are taken as long as they do not fill the current chunk
    of the tensor or have size 1; each gets its stride. *)
Fixpoint view_dims (vs : list nat) (tensor_numel view_numel base : nat)
    (acc : list nat) : list nat * nat * list nat :=
  match vs with
  | [] => ([], view_numel, acc)
  | v :: vs' =>
      if (view_numel <? tensor_numel) || (v =? 1)
      then view_dims vs' tensor_numel (view_numel * v) base
             (view_numel * base :: acc)
      else (vs, view_numel, acc)
  end.

(** The outer loop of [computeStride] over the axes of the tensor, last one
    first, each with its stride.  A chunk of axes ends at the first axis and
    wherever the axis before has a size other than 1 and a stride that does
    not continue the chunk; the axes of the view taken for a chunk must hold
    exactly its elements. *)
Fixpoint tensor_dims (old : list (nat * nat)) (vs : list nat)
    (tensor_numel view_numel base : nat) (acc : list nat) : option (list nat) :=
  match old with
  | [] => match vs with [] => Some acc | _ :: _ => None end
  | (sz, _) :: old' =>
      let tensor_numel := tensor_numel * sz in
      let chunk_ends :=
        match old' with
        | [] => true
        | (sz', st') :: _ => negb (sz' =? 1) && negb (st' =? tensor_numel * base)
        end in
      if chunk_ends then
        let '(vs', view_numel', acc') :=
          view_dims vs tensor_numel view_numel base acc in
        if view_numel' =? tensor_numel
        then tensor_dims old' vs' 1 1
               (match old' with (_, st') :: _ => st' | [] => base end) acc'
        else None
      else tensor_dims old' vs tensor_numel view_numel base acc
  end.

(** The framework's [computeStride]: the strides with which a tensor of
    shape [oldshape] and strides [oldstride] can be seen as one of shape
    [newshape] without a copy, if there are any.  The shapes hold the same
    number of elements. *)
Definition computeStride (oldshape oldstride newshape : list nat)
    : option (list nat) :=
  match rev (combine oldshape oldstride) with
  | [] => Some (repeat 1 (length newshape))
  | ((_, last_stride) :: _) as old =>
      if numel oldshape =? 0
      then if list_eqb oldshape newshape then Some oldstride
           else Some (default_strides newshape)
      else tensor_dims old (rev newshape) 1 1 last_stride []
  end.

(** [t.view(sizes)] of a tensor as it is, contiguous or not. *)
Definition view_strided {T : Type} (t : Strided T) (sizes : list Z)
    : result (Strided T) :=
  s <- infer_size sizes (numel (shape (logical t))) ;;
  match computeStride (shape (logical t)) (strides t) s with
  | Some st => Ok (mkStrided (mkTensor s (data (logical t))) st)
  | None => Raise RuntimeError
  end.

(** ** ContextWindow *)

Module ContextWindow.
Section Defs.
Context {A : Type}.
Variable zero : A.
(** [self.window] *)
Variable window : nat.

(** [x.data.new(b, window, f).zero_()] *)
Definition new_zeros (s : list nat) : Tensor A :=
  mkTensor s (repeat zero (numel s)).

Definition _get_padding_for (x : Tensor A) : result (Tensor A) :=
  check py_assert (3 <=? dim x) ;;
  b <- size x 0 ;;
  f <- size x 2 ;;
  Ok (new_zeros [b; window; f]).

Definition _pad (x : Tensor A) (pad_first : bool) : result (Tensor A) :=
  check py_assert (dim x =? 3) ;;
  padding <- _get_padding_for x ;;
  let inputs := if pad_first then [padding; x] else [x; padding] in
  torch_cat inputs 1.

Definition forward (inputs : Tensor A) : result (Tensor A) :=
  check py_assert (dim inputs =? 3) ;;
  if window =? 0 then Ok inputs
  else
    batch_size <- size inputs 0 ;;
    seq_length <- size inputs 1 ;;
    inputs <- _pad inputs true ;;
    inputs <- _pad inputs false ;;
    temps <- mapM (fun i =>
                     let lo := i in
                     let hi := i + 2 * window + 1 in
                     s <- getitem_slice1 inputs lo hi ;;
                     view s [Z.of_nat batch_size; (-1)%Z])
                  (seq 0 seq_length) ;;
    torch_stack temps 1.

End Defs.
End ContextWindow.

(** The intermediate values of [ContextWindow.forward] on an input of shape
    [(b, l, f)] with elements [d], and the frames the result is compared
    with. *)
Module ContextWindowTrace.
Section Defs.
Context {A : Type}.
Variable zero : A.
Variables w b l f : nat.
Variable d : list A.

(** The elements after [_pad(inputs, pad_first=True)]. *)
Definition padded_once : list A :=
  flat_map
    (fun o => chunk (w * f) o (repeat zero (b * (w * f))) ++ chunk (l * f) o d)
    (seq 0 b).

(** The elements after the second [_pad]. *)
Definition padded_twice : list A :=
  flat_map
    (fun o => chunk ((l + w) * f) o padded_once
                ++ chunk (w * f) o (repeat zero (b * (w * f))))
    (seq 0 b).

(** The elements of [temp] at time step [i]. *)
Definition window_at (i : nat) : list A :=
  flat_map
    (fun o => firstn ((2 * w + 1) * f)
                (skipn (i * f) (chunk ((l + w + w) * f) o padded_twice)))
    (seq 0 b).

(** The elements of [outputs]. *)
Definition stacked : list A :=
  flat_map
    (fun o => flat_map (fun i => chunk ((2 * w + 1) * f) o (window_at i)) (seq 0 l))
    (seq 0 b).

(** The frame of sequence [o] at time step [j] of the input. *)
Definition frame (o j : nat) : list A := chunk f (o * l + j) d.

(** The same for a signed time step: a zero frame outside [0, l). *)
Definition frame_or_zero (o : nat) (j : Z) : list A :=
  if ((0 <=? j) && (j <? Z.of_nat l))%Z
  then frame o (Z.to_nat j)
  else repeat zero f.

(** The [w] frames before time step [i], the frame at [i] and the [w]
    frames after it, side by side. *)
Definition context (o i : nat) : list A :=
  flat_map
    (fun k => frame_or_zero o (Z.of_nat i + Z.of_nat k - Z.of_nat w)%Z)
    (seq 0 (2 * w + 1)).

End Defs.
End ContextWindowTrace.


(** ** Concatenate *)

Module Concatenate.
Section Defs.
Context {A B : Type}.
(** [self.__modules]: each sub-module is its forward computation. *)
Variable modules : list (Tensor A -> result (Tensor B)).

Definition forward (inputs : list (Tensor A)) : result (Tensor B) :=
  check py_assert (length inputs =? length modules) ;;
  res <- mapM (fun mi => fst mi (snd mi)) (combine modules inputs) ;;
  outputs <- torch_cat res (-1) ;;
  Ok outputs.

End Defs.
End Concatenate.

(** ** TimeDistributed *)

Module TimeDistributed.
Section Defs.
Context {A B : Type}.
(** [self.module] *)
Variable module : Strided A -> result (Strided B).

Definition forward (inputs : Strided A) : result (Strided B) :=
  check py_assert (2 <? dim (logical inputs)) ;;
  b <- size (logical inputs) 0 ;;
  t <- size (logical inputs) 1 ;;
  inputs <- view_strided inputs
              ((-1)%Z :: map Z.of_nat (skipn 2 (shape (logical inputs)))) ;;
  outputs <- module inputs ;;
  n <- size (logical outputs) 0 ;;
  check py_assert (n =? b * t) ;;
  outputs <- view_strided outputs
               (Z.of_nat b :: Z.of_nat t
                  :: map Z.of_nat (skipn 1 (shape (logical outputs)))) ;;
  Ok outputs.

End Defs.
End TimeDistributed.

(** The quantities [TimeDistributed.forward] is described with. *)
Module TimeDistributedTrace.

(** Line 85: the input with its first two axes seen as one. *)
Definition flattened {T : Type} (x : Strided T) : result (Strided T) :=
  view_strided x ((-1)%Z :: map Z.of_nat (skipn 2 (shape (logical x)))).

(** The first two axes can be seen as one without a copy: the tensor has no
    element, one of the two axes has size 1, or a step along the first axis
    is as long as the whole second axis. *)
Definition mergeable {T : Type} (x : Strided T) : bool :=
  match shape (logical x), strides x with
  | b :: t :: _, s0 :: s1 :: _ =>
      (numel (shape (logical x)) =? 0) || (b =? 1) || (t =? 1) || (s0 =? t * s1)
  | _, _ => false
  end.

(** A list of sizes without its leading ones. *)
Fixpoint drop_ones (l : list nat) : list nat :=
  match l with
  | 1 :: l' => drop_ones l'
  | _ => l
  end.

(** What [tensor_dims] knows about the next axis [(sz, st)] of the tensor
    when the current chunk holds the axes [p] and started with stride
    [base]. *)
Definition continues (p : list nat) (base : nat) (next : nat * nat) : Prop :=
  (p = [] /\ base = snd next) \/ fst next = 1 \/ snd next = numel p * base.

End TimeDistributedTrace.

(** ** Reductions, squeezing and convolution of the framework *)

(** Reduction of axis [k] by [f]: one result per index of the other axes. *)
Definition reduce_axis {T U : Type} (f : list T -> U) (dflt : T) (k : nat)
    (t : Tensor T) : Tensor U :=
  let outer := numel (firstn k (shape t)) in
  let n := nth k (shape t) 0 in
  let inner := numel (skipn (S k) (shape t)) in
  mkTensor (firstn k (shape t) ++ skipn (S k) (shape t))
    (flat_map
       (fun o => map
                   (fun j => f (map (fun m => nth ((o * n + m) * inner + j) (data t) dflt)
                                    (seq 0 n)))
                   (seq 0 inner))
       (seq 0 outer)).

(** [torch.sum(t, dim=d)] of an integer tensor. *)
Definition torch_sum (t : Tensor nat) (d : Z) : result (Tensor nat) :=
  match norm_dim (dim t) d with
  | Some k => Ok (reduce_axis (@list_sum) 0 k t)
  | None => Raise IndexError
  end.

(** [t.squeeze(d)]: the axis is dropped when its size is 1. *)
Definition squeeze {T : Type} (t : Tensor T) (d : Z) : result (Tensor T) :=
  match norm_dim (dim t) d with
  | Some k =>
      Ok (if nth k (shape t) 0 =? 1
          then mkTensor (firstn k (shape t) ++ skipn (S k) (shape t)) (data t)
          else t)
  | None => Raise IndexError
  end.

(** [nn.Conv2d(in_channels, out_channels, kernel_size, padding=padding)] with
    its learned [weight] (indexed by output channel, input channel, kernel row
    and kernel column) and [bias]. *)
Record Conv2d (A : Type) : Type := mkConv2d {
  in_channels : nat;
  out_channels : nat;
  kernel_size : nat * nat;
  padding : Z * Z;
  weight : nat -> nat -> nat -> nat -> A;
  bias : nat -> A
}.

Section Arith.
Context {A : Type}.
Variable zero : A.
Variables add mul maxA : A -> A -> A.

Definition zeros (s : list nat) : Tensor A :=
  mkTensor s (repeat zero (numel s)).

Definition max_list (l : list A) : A :=
  match l with
  | [] => zero
  | v :: vs => fold_left maxA vs v
  end.

(** The values of [t.max(dim=d)]; an empty axis cannot be reduced. *)
Definition torch_max (t : Tensor A) (d : Z) : result (Tensor A) :=
  match norm_dim (dim t) d with
  | Some k =>
      check require RuntimeError (1 <=? nth k (shape t) 0) ;;
      Ok (reduce_axis max_list zero k t)
  | None => Raise IndexError
  end.

(** Element [(b, c, i, j)] of a [(B, C, H, W)] image seen through [ph] rows
    of implicit zeros above and below and [pw] columns left and right. *)
Definition padded_at (C H W ph pw : nat) (d : list A) (b c i j : nat) : A :=
  if (ph <=? i) && (i <? ph + H) && (pw <=? j) && (j <? pw + W)
  then nth (((b * C + c) * H + (i - ph)) * W + (j - pw)) d zero
  else zero.

(** One output element of the cross-correlation. *)
Definition conv_at (m : Conv2d A) (C H W ph pw : nat) (d : list A)
    (b f i j : nat) : A :=
  fold_left add
    (flat_map
       (fun c => flat_map
                   (fun u => map
                               (fun v => mul (weight m f c u v)
                                             (padded_at C H W ph pw d b c (i + u) (j + v)))
                               (seq 0 (snd (kernel_size m))))
                   (seq 0 (fst (kernel_size m))))
       (seq 0 C))
    (bias m f).

(** The forward computation of the layer on a batched [(B, C, H, W)]
    input.  [padding = (ph, pw)] pads both ends of the height axis by [ph]
    and both ends of the width axis by [pw]. *)
Definition conv2d (m : Conv2d A) (x : Tensor A) : result (Tensor A) :=
  match shape x with
  | [B; C; H; W] =>
      let '(kh, kw) := kernel_size m in
      let '(zh, zw) := padding m in
      check require RuntimeError ((0 <=? zh) && (0 <=? zw))%Z ;;
      let ph := Z.to_nat zh in
      let pw := Z.to_nat zw in
      check require RuntimeError ((1 <=? kh) && (1 <=? kw)) ;;
      check require RuntimeError (1 <=? out_channels m) ;;
      check require RuntimeError (C =? in_channels m) ;;
      check require RuntimeError ((kh <=? H + 2 * ph) && (kw <=? W + 2 * pw)) ;;
      let H' := H + 2 * ph - kh + 1 in
      let W' := W + 2 * pw - kw + 1 in
      Ok (mkTensor [B; out_channels m; H'; W']
            (flat_map
               (fun b => flat_map
                           (fun f => flat_map
                                       (fun i => map (conv_at m C H W ph pw (data x) b f i)
                                                     (seq 0 W'))
                                       (seq 0 H'))
                           (seq 0 (out_channels m)))
               (seq 0 B)))
  | _ => Raise RuntimeError
  end.

End Arith.

(** ** CNNEncoder *)

Module CNNEncoder.

Record t (A : Type) : Type := mk {
  input_size : nat;
  conv : Conv2d A
}.

Section Defs.
Context {A : Type}.
Variable zero : A.
Variables add mul maxA : A -> A -> A.

(** The constructor; [weight] and [bias] are the parameters the layer
    holds. *)
Definition __init__ (input_size num_filters filter_width : nat)
    (weight : nat -> nat -> nat -> nat -> A) (bias : nat -> A) : t A :=
  let padding := (Z.of_nat filter_width - 1, 0)%Z in
  mk input_size
     (mkConv2d 1 num_filters (filter_width, input_size) padding weight bias).

(** The first half of [forward], up to [self.conv(inputs)]. *)
Definition convolve (self : t A) (inputs : Tensor A) : result (Tensor A) :=
  check py_assert (dim inputs =? 3) ;;
  last <- size inputs (-1) ;;
  check py_assert (last =? input_size self) ;;
  inputs <- unsqueeze 1 inputs ;;
  conv2d zero add mul (conv self) inputs.

Definition forward (self : t A) (inputs : Tensor A) : result (Tensor A) :=
  convolved <- convolve self inputs ;;
  last <- size convolved (-1) ;;
  check py_assert (last =? 1) ;;
  convolved <- squeeze convolved (-1) ;;
  outputs <- torch_max zero maxA convolved (-1) ;;
  Ok outputs.

(** The input with [before] zero frames put in front of the time axis and
    [after] zero frames behind it. *)
Definition pad_time (before after : nat) (x : Tensor A) : result (Tensor A) :=
  b <- size x 0 ;;
  f <- size x 2 ;;
  torch_cat [zeros zero [b; before; f]; x; zeros zero [b; after; f]] 1.

(** The same layer without implicit padding. *)
Definition unpadded (m : Conv2d A) : Conv2d A :=
  mkConv2d (in_channels m) (out_channels m) (kernel_size m) (0, 0)%Z
           (weight m) (bias m).

(** The convolution of a layer without implicit padding over an input
    that was explicitly padded on the time axis. *)
Definition convolve_padded (before after : nat) (self : t A)
    (inputs : Tensor A) : result (Tensor A) :=
  padded <- pad_time before after inputs ;;
  convolve (mk (input_size self) (unpadded (conv self))) padded.

(** The elements of a [(b, t, input_size)] input [d] with
    [filter_width - 1] zero frames in front of and behind every
    sequence. *)
Definition time_padded (input_size filter_width b t : nat) (d : list A) : list A :=
  flat_map
    (fun o => repeat zero ((filter_width - 1) * input_size)
                ++ chunk (t * input_size) o d
                ++ repeat zero ((filter_width - 1) * input_size))
    (seq 0 b).

End Defs.
End CNNEncoder.

(** ** Sorting, packed sequences and the recurrent layer of the framework *)

(** [r] holds between each element and the next. *)
Fixpoint sortedb (r : nat -> nat -> bool) (l : list nat) : bool :=
  match l with
  | [] => true
  | x :: l' =>
      match l' with
      | [] => true
      | y :: _ => r x y && sortedb r l'
      end
  end.

Definition order (descending : bool) : nat -> nat -> bool :=
  if descending then fun x y => y <=? x else fun x y => x <=? y.

(** What [l.sort(0, descending)] may return for a one-dimensional [l]: the
    sorted values and, for each, the index it came from.  The order of equal
    elements is left open by the framework. *)
Definition sort_result (descending : bool) (l : list nat)
    (r : list nat * list nat) : Prop :=
  Permutation (snd r) (seq 0 (length l))
  /\ fst r = map (fun i => nth i l 0) (snd r)
  /\ sortedb (order descending) (fst r) = true.

(** A stable insertion sort, one of the sorts the framework may implement. *)
Fixpoint insert_by (r : nat -> nat -> bool) (x : nat * nat)
    (l : list (nat * nat)) : list (nat * nat) :=
  match l with
  | [] => [x]
  | y :: l' => if r (fst x) (fst y) then x :: l else y :: insert_by r x l'
  end.

Definition stable_sort (descending : bool) (l : list nat) : list nat * list nat :=
  let ps := fold_right (insert_by (order descending)) []
              (combine l (seq 0 (length l))) in
  (map fst ps, map snd ps).

(** A packed batch: for each sequence, in batch order, its frames up to its
    own length, and the number of features of a frame.  (The framework lays
    the frames out time-major; that layout is not observable between packing
    and padding.) *)
Record PackedSequence (A : Type) : Type := mkPacked {
  sequences : list (list (list A));
  features : nat
}.

Arguments mkPacked {A} sequences features.

Section Packing.
Context {A : Type}.
Variable zero : A.

(** [pack_padded_sequence(x, lengths, batch_first=True)]: [lengths] must be
    one positive length per row, in decreasing order, none beyond the time
    axis, and [x] must not be empty. *)
Definition pack_padded_sequence (x : Tensor A) (lengths : list nat)
    : result (PackedSequence A) :=
  match shape x with
  | b :: t :: rest =>
      let f := numel rest in
      check require RuntimeError (1 <=? numel (shape x)) ;;
      check require RuntimeError (length lengths =? b) ;;
      check require RuntimeError (sortedb (order true) lengths) ;;
      check require RuntimeError (forallb (fun n => (1 <=? n) && (n <=? t)) lengths) ;;
      Ok (mkPacked
            (map (fun bn => map (fun i => chunk f (fst bn * t + i) (data x))
                                (seq 0 (snd bn)))
                 (combine (seq 0 b) lengths))
            f)
  | _ => Raise RuntimeError
  end.

(** [pad_packed_sequence(p, batch_first=True)]: a dense
    (batch, longest length, features) tensor, zero after each sequence's
    end. *)
Definition pad_packed_sequence (p : PackedSequence A) : Tensor A :=
  let longest := list_max (map (@length _) (sequences p)) in
  mkTensor [length (sequences p); longest; features p]
    (flat_map
       (fun s => concat s ++ repeat zero ((longest - length s) * features p))
       (sequences p)).

End Packing.

(** [nn.LSTM(input_size, hidden_size, num_layers=2, batch_first=True,
    bidirectional=True)].  A cell, given its layer and direction, maps a state
    and an input frame to the next state and the hidden vector it emits;
    what the cell computes is the framework's business. *)
Record LSTM (A St : Type) : Type := mkLSTM {
  lstm_input_size : nat;
  lstm_hidden_size : nat;
  initial : St;
  cell : nat -> bool -> St -> list A -> St * list A
}.

Section Recurrent.
Context {A St : Type}.
Variable net : LSTM A St.

(** One direction of one layer over one sequence. *)
Fixpoint run (layer : nat) (reverse : bool) (s : St) (xs : list (list A))
    : list (list A) :=
  match xs with
  | [] => []
  | x :: xs' =>
      let (s', h) := cell net layer reverse s x in
      h :: run layer reverse s' xs'
  end.

(** Both directions of one layer: the hidden vectors of a time step side
    by side. *)
Definition bidirectional (layer : nat) (xs : list (list A)) : list (list A) :=
  map (fun hh => fst hh ++ snd hh)
      (combine (run layer false (initial net) xs)
               (rev (run layer true (initial net) (rev xs)))).

(** The layer on a packed batch: every sequence on its own, over its own
    length. *)
Definition lstm_forward (p : PackedSequence A) : result (PackedSequence A) :=
  check require RuntimeError (features p =? lstm_input_size net) ;;
  Ok (mkPacked
        (map (fun xs => bidirectional 1 (bidirectional 0 xs)) (sequences p))
        (2 * lstm_hidden_size net)).

End Recurrent.

(** ** BiLSTMEmbedder *)

Module BiLSTMEmbedder.

Record t (A St : Type) : Type := mk {
  embedder : list (Tensor Z) -> result (Tensor A);
  lstm : LSTM A St;
  padding_idx : Z
}.

Section Defs.
Context {A St : Type}.
Variable zero : A.
(** The framework's [sort]. *)
Variable tsort : bool -> list nat -> list nat * list nat.

Definition __init__ (embedder : list (Tensor Z) -> result (Tensor A))
    (embedder_size hidden_size : nat) (padding_idx : Z)
    (initial : St) (cell : nat -> bool -> St -> list A -> St * list A)
    : t A St :=
  mk embedder (mkLSTM embedder_size hidden_size initial cell) padding_idx.

(** [(x != v).long()] *)
Definition ne_long (v : Z) (x : Tensor Z) : Tensor nat :=
  mkTensor (shape x) (map (fun e => if (e =? v)%Z then 0 else 1) (data x)).

(** [x != 0] of a tensor of counts. *)
Definition nonzero (x : Tensor nat) : Tensor bool :=
  mkTensor (shape x) (map (fun e => negb (e =? 0)) (data x)).

(** [mask.long()] *)
Definition long (x : Tensor bool) : Tensor nat :=
  mkTensor (shape x) (map (fun e : bool => if e then 1 else 0) (data x)).

(** Lines 153-157: the length of every sequence, as the count of its time
    steps at which some channel is not [padding_idx]. *)
Definition seq_lengths_of (self : t A St) (inputs : list (Tensor Z))
    : result (Tensor nat) :=
  chans <- mapM (fun i => if dim i =? 2 then unsqueeze (-1) i else Ok i) inputs ;;
  cat <- torch_cat chans (-1) ;;
  counts <- torch_sum (ne_long (padding_idx self) cat) (-1) ;;
  let mask := nonzero counts in
  torch_sum (long mask) 1.

Definition forward (self : t A St) (inputs : list (Tensor Z)) : result (Tensor A) :=
  check py_assert (forallb (fun i => (dim i =? 2) || (dim i =? 3)) inputs) ;;
  embedded <- embedder self inputs ;;
  seq_lengths <- seq_lengths_of self inputs ;;
  let '(seq_lengths, sent_perm) := tsort true (data seq_lengths) in
  embedded <- index_rows embedded sent_perm ;;
  packed_input <- pack_padded_sequence embedded seq_lengths ;;
  lstm_out <- lstm_forward (lstm self) packed_input ;;
  let lstm_out := pad_packed_sequence zero lstm_out in
  let '(_, original_perm) := tsort false sent_perm in
  outputs <- index_rows lstm_out original_perm ;;
  Ok outputs.

End Defs.
End BiLSTMEmbedder.

(** The quantities [BiLSTMEmbedder.forward] is described with, for inputs of
    [b] sequences and [T] time steps. *)
Module BiLSTMEmbedderTrace.

(** The number of values a channel holds per time step: 1 for a
    (batch, time) tensor, the last axis of a (batch, time, k) tensor. *)
Definition width (i : Tensor Z) : nat :=
  match shape i with
  | [_; _; k] => k
  | _ => 1
  end.

(** The values of all channels at time step [j] of sequence [o]. *)
Definition channels_at (inputs : list (Tensor Z)) (T o j : nat) : list Z :=
  flat_map (fun i => chunk (width i) (o * T + j) (data i)) inputs.

(** A time step is real when some channel differs from the padding
    index. *)
Definition is_real (pad : Z) (inputs : list (Tensor Z)) (T o j : nat) : bool :=
  existsb (fun e => negb (e =? pad)%Z) (channels_at inputs T o j).

(** The derived length of sequence [o]: the count of its real time
    steps. *)
Definition true_length (pad : Z) (inputs : list (Tensor Z)) (T o : nat) : nat :=
  length (filter (is_real pad inputs T o) (seq 0 T)).

Definition true_lengths (pad : Z) (inputs : list (Tensor Z)) (b T : nat) : list nat :=
  map (true_length pad inputs T) (seq 0 b).

(** The channels of a batch: at least one tensor, each well formed and of
    shape [(b, T)] or [(b, T, k)]. *)
Definition channels_ok (inputs : list (Tensor Z)) (b T : nat) : Prop :=
  inputs <> []
  /\ forall i, In i inputs ->
       wf i /\ (shape i = [b; T] \/ exists k, shape i = [b; T; k]).

(** Every cell of the layer emits [hidden_size] values. *)
Definition cell_ok {A St : Type} (net : LSTM A St) : Prop :=
  forall layer reverse s x,
    length (snd (cell net layer reverse s x)) = lstm_hidden_size net.

(** [tsort] is one of the sorts the framework may implement. *)
Definition sort_ok (tsort : bool -> list nat -> list nat * list nat) : Prop :=
  forall descending l, sort_result descending l (tsort descending l).

(** The batch with row [o] taken from row [nth o p] of the original. *)
Definition permute_rows {T : Type} (p : list nat) (x : Tensor T) : Tensor T :=
  mkTensor (length p :: tl (shape x))
    (flat_map (fun r => chunk (numel (tl (shape x))) r (data x)) p).

Section Rows.
Context {A St : Type}.
Variable zero : A.
Variable net : LSTM A St.
(** The embedded batch: [E] features at [T] time steps per sequence. *)
Variable e : list A.
Variables E T : nat.

(** The first [n] embedded frames of sequence [o]. *)
Definition frames_of (o n : nat) : list (list A) :=
  map (fun i => chunk E (o * T + i) e) (seq 0 n).

(** What the recurrent layer emits for them. *)
Definition encoded (o n : nat) : list (list A) :=
  bidirectional net 1 (bidirectional net 0 (frames_of o n)).

(** The output row of a sequence of length [n] in a batch whose longest
    sequence has length [M]. *)
Definition row_out (M o n : nat) : list A :=
  concat (encoded o n) ++ repeat zero ((M - n) * (2 * lstm_hidden_size net)).

End Rows.

End BiLSTMEmbedderTrace.

(** ** Instances over the integers *)

Module Examples.

(** A one-filter encoder of width 2 over one feature, all weights 1. *)
Definition encoder : CNNEncoder.t Z :=
  CNNEncoder.__init__ 1 1 2 (fun _ _ _ _ => 1%Z) (fun _ => 0%Z).

Definition one_frame : Tensor Z := mkTensor [1; 1; 1] [1%Z].

(** An embedder that turns every index of the first channel into a
    one-element vector. *)
Definition embed (inputs : list (Tensor Z)) : result (Tensor Z) :=
  match inputs with
  | i :: _ => unsqueeze (-1) i
  | [] => Raise RuntimeError
  end.

(** A cell that counts: its state is the sum of what it has seen. *)
Definition counting_cell (layer : nat) (reverse : bool) (s : Z) (x : list Z)
    : Z * list Z :=
  let s' := (s + fold_right Z.add 0 x + 1)%Z in (s', [s']).

Definition embedder : BiLSTMEmbedder.t Z Z :=
  BiLSTMEmbedder.__init__ embed 1 1 0%Z 0%Z counting_cell.

(** Two sequences of three time steps, of lengths 2 and 1. *)
Definition batch : list (Tensor Z) := [mkTensor [2; 3] [5; 6; 0; 7; 0; 0]%Z].

(** The second sequence of [batch] beside a first sequence of length 1. *)
Definition short_batch : list (Tensor Z) := [mkTensor [2; 3] [5; 0; 0; 7; 0; 0]%Z].

(** One sequence of two time steps, the second one padding. *)
Definition padded_batch : list (Tensor Z) := [mkTensor [1; 2] [5; 0]%Z].

(** An embedder like [embed], except that index 0 is sent to 9: an
    embedding table whose padding row is not zero. *)
Definition embed_pad9 (inputs : list (Tensor Z)) : result (Tensor Z) :=
  match inputs with
  | i :: _ =>
      Ok (mkTensor (shape i ++ [1])
            (map (fun v => if (v =? 0)%Z then 9%Z else v) (data i)))
  | [] => Raise RuntimeError
  end.

(** Two sequences of the same length. *)
Definition tied_batch : list (Tensor Z) := [mkTensor [2; 2] [5; 6; 7; 8]%Z].

(** [torch.arange(8).view(2, 2, 2).transpose(0, 1)]: the first two axes of
    a contiguous tensor exchanged, by exchanging their strides. *)
Definition transposed : Strided Z :=
  mkStrided (mkTensor [2; 2; 2] [0; 1; 4; 5; 2; 3; 6; 7]%Z) [2; 4; 1].

(** A module that sums every row of a matrix, as a linear layer with unit
    weights and one output would. *)
Definition row_sums (v : Strided Z) : result (Strided Z) :=
  match shape (logical v) with
  | [n; k] =>
      Ok (contiguous
            (mkTensor [n; 1]
               (map (fun o => fold_right Z.add 0%Z (chunk k o (data (logical v))))
                  (seq 0 n))))
  | _ => Raise RuntimeError
  end.

(** Another sort: the stable sort of the opposite order, reversed. *)
Definition reversing_sort (descending : bool) (l : list nat) : list nat * list nat :=
  let r := stable_sort (negb descending) l in
  (rev (fst r), rev (snd r)).

End Examples.

(** ** The printed form of a ContextWindow *)

Module ContextWindowRepr.
Import String DecimalString DecimalNat.
Local Open Scope string_scope.

(** [str(n)] of a non-negative integer: its decimal digits. *)
Definition str (n : nat) : string := NilEmpty.string_of_uint (Nat.to_uint n).

(** [f'{self.__class__.__name__}(window={self.window})'], for an instance
    of the class named [class_name] built with [window]. *)
Definition __repr__ (class_name : string) (window : nat) : string :=
  class_name ++ "(window=" ++ str window ++ ")".

End ContextWindowRepr.

(** * Properties *)

(** Boolean tests that hold by linear arithmetic. *)
Ltac solve_bool :=
  repeat match goal with
         | |- andb _ _ = true => apply andb_true_intro; split
         | |- Nat.leb _ _ = true => apply Nat.leb_le
         | |- Nat.ltb _ _ = true => apply Nat.ltb_lt
         | |- Nat.eqb _ _ = true => apply Nat.eqb_eq
         | |- Z.leb _ _ = true => apply Z.leb_le
         | |- Z.ltb _ _ = true => apply Z.ltb_lt
         | |- Nat.leb _ _ = false => apply Nat.leb_gt
         | |- Nat.ltb _ _ = false => apply Nat.ltb_ge
         | |- Z.leb _ _ = false => apply Z.leb_gt
         | |- Z.ltb _ _ = false => apply Z.ltb_ge
         end;
  try reflexivity; lia.

Ltac solve_bool_in H :=
  first [apply Nat.leb_gt in H | apply Nat.ltb_ge in H];
  apply Nat.leb_le; lia.

(** ** Blocks of a row-major list *)

Lemma flat_map_ext_in {T U : Type} (f g : T -> list U) (l : list T) :
  (forall x, In x l -> f x = g x) -> flat_map f l = flat_map g l.
Proof.
  induction l as [|x l IH]; intros H; simpl; [reflexivity|].
  rewrite (H x), IH; simpl; auto.
  intros y Hy. apply H. simpl. auto.
Qed.

Lemma chunk_flat_map {T U : Type} (f : T -> list U) (k : nat) (d : T) (l : list T) :
  (forall x, In x l -> length (f x) = k) ->
  forall o, o < length l -> chunk k o (flat_map f l) = f (nth o l d).
Proof.
  unfold chunk. induction l as [|x l IH]; intros H o Ho; simpl in *; [lia|].
  assert (Hx : length (f x) = k) by auto.
  destruct o as [|o].
  - simpl. rewrite firstn_app, Hx, Nat.sub_diag, firstn_O, app_nil_r.
    rewrite <- Hx. apply firstn_all.
  - replace (S o * k) with (length (f x) + o * k) by (rewrite Hx; lia).
    rewrite skipn_app, skipn_all2 by lia.
    replace (length (f x) + o * k - length (f x)) with (o * k) by lia.
    simpl. apply IH; [auto | lia].
Qed.

Lemma chunk_flat_map_seq {U : Type} (f : nat -> list U) (k n o : nat) :
  (forall i, i < n -> length (f i) = k) ->
  o < n -> chunk k o (flat_map f (seq 0 n)) = f o.
Proof.
  intros H Ho.
  rewrite chunk_flat_map with (d := 0).
  - rewrite seq_nth by assumption. reflexivity.
  - intros x Hx. apply in_seq in Hx. apply H. lia.
  - rewrite length_seq. assumption.
Qed.

Lemma length_chunk {T : Type} (k o : nat) (l : list T) :
  (o + 1) * k <= length l -> length (chunk k o l) = k.
Proof.
  intros H. unfold chunk. rewrite length_firstn, length_skipn. lia.
Qed.

Lemma flat_map_chunk {T : Type} (k n : nat) (l : list T) :
  length l = n * k ->
  flat_map (fun o => chunk k o l) (seq 0 n) = l.
Proof.
  revert l. induction n as [|n IH]; intros l H.
  - simpl in *. destruct l; [reflexivity | discriminate].
  - rewrite seq_S, flat_map_app. simpl. rewrite app_nil_r.
    transitivity (firstn (n * k) l ++ skipn (n * k) l);
      [|apply firstn_skipn].
    f_equal.
    + rewrite <- (IH (firstn (n * k) l))
        by (rewrite length_firstn; lia).
      apply flat_map_ext_in. intros o Ho. apply in_seq in Ho.
      unfold chunk. rewrite skipn_firstn_comm, firstn_firstn.
      f_equal. nia.
    + unfold chunk. apply firstn_all2. rewrite length_skipn. lia.
Qed.

Lemma chunk_repeat {T : Type} (z : T) (k o n : nat) :
  (o + 1) * k <= n -> chunk k o (repeat z n) = repeat z k.
Proof.
  intros H. unfold chunk.
  replace n with (o * k + (k + (n - (o + 1) * k))) by lia.
  rewrite repeat_app, skipn_app, skipn_all2 by (rewrite repeat_length; lia).
  rewrite repeat_length, Nat.sub_diag. simpl.
  rewrite repeat_app, firstn_app, repeat_length, Nat.sub_diag, firstn_O, app_nil_r.
  rewrite firstn_all2 by (rewrite repeat_length; lia). reflexivity.
Qed.

(** ** Sizes and views *)

Lemma norm_dim_nat (rank k : nat) :
  k < rank -> norm_dim rank (Z.of_nat k) = Some k.
Proof.
  intros H. unfold norm_dim.
  replace ((0 <=? Z.of_nat k) && (Z.of_nat k <? Z.of_nat rank))%Z with true.
  - rewrite Nat2Z.id. reflexivity.
  - symmetry. apply andb_true_intro. split; [apply Z.leb_le | apply Z.ltb_lt]; lia.
Qed.

Lemma norm_dim_last (rank : nat) :
  0 < rank -> norm_dim rank (-1) = Some (rank - 1).
Proof.
  intros H. unfold norm_dim. simpl.
  replace ((- Z.of_nat rank <=? -1))%Z with true
    by (symmetry; apply Z.leb_le; lia).
  simpl. f_equal. lia.
Qed.

Lemma size_nat {T : Type} (t : Tensor T) (k : nat) :
  k < dim t -> size t (Z.of_nat k) = Ok (nth k (shape t) 0).
Proof.
  intros H. unfold size. rewrite norm_dim_nat by assumption. reflexivity.
Qed.

Lemma numel_app (s1 s2 : list nat) : numel (s1 ++ s2) = numel s1 * numel s2.
Proof.
  induction s1 as [|a s1 IH]; simpl; [lia|]. rewrite IH. lia.
Qed.

Lemma numel_zero (s : list nat) : numel s = 0 <-> In 0 s.
Proof.
  induction s as [|a s IH]; simpl.
  - split; [discriminate | tauto].
  - rewrite Nat.eq_mul_0, IH. tauto.
Qed.

Lemma sizes_of_nat_facts (s : list nat) (c : nat) :
  existsb (fun z => (z <? -1)%Z) (map Z.of_nat s) = false
  /\ filter (fun z => (0 <=? z)%Z) (map Z.of_nat s) = map Z.of_nat s
  /\ map Z.to_nat (map Z.of_nat s) = s
  /\ count_occ Z.eq_dec (map Z.of_nat s) (-1)%Z = 0
  /\ map (fun z => if (z =? -1)%Z then c else Z.to_nat z) (map Z.of_nat s) = s.
Proof.
  induction s as [|a s (H1 & H2 & H3 & H4 & H5)]; simpl; [repeat split|].
  replace (Z.of_nat a <? -1)%Z with false by (symmetry; apply Z.ltb_ge; lia).
  replace (0 <=? Z.of_nat a)%Z with true by (symmetry; apply Z.leb_le; lia).
  replace (Z.of_nat a =? -1)%Z with false by (symmetry; apply Z.eqb_neq; lia).
  destruct (Z.eq_dec (Z.of_nat a) (-1)) as [E|_]; [lia|].
  simpl. rewrite H2, H3, H5, Nat2Z.id. repeat split; assumption.
Qed.

Lemma infer_size_exact (s : list nat) (n : nat) :
  infer_size (map Z.of_nat s) n
  = if numel s =? n then Ok s else Raise RuntimeError.
Proof.
  unfold infer_size.
  destruct (sizes_of_nat_facts s 0) as (H1 & H2 & H3 & H4 & _).
  rewrite H1, H2, H3, H4. destruct (numel s =? n); reflexivity.
Qed.

Lemma infer_size_head (s : list nat) (n : nat) :
  infer_size ((-1)%Z :: map Z.of_nat s) n
  = if (0 <? numel s) && (n mod numel s =? 0)
    then Ok (n / numel s :: s) else Raise RuntimeError.
Proof.
  unfold infer_size.
  destruct (sizes_of_nat_facts s (n / numel s)) as (H1 & H2 & H3 & H4 & H5).
  simpl. rewrite H1, H2, H3, H4.
  destruct ((0 <? numel s) && (n mod numel s =? 0)); simpl; [|reflexivity].
  rewrite H5. reflexivity.
Qed.

Lemma infer_size_rows (b n : nat) :
  infer_size [Z.of_nat b; (-1)%Z] n
  = if (0 <? b) && (n mod b =? 0) then Ok [b; n / b] else Raise RuntimeError.
Proof.
  unfold infer_size. simpl.
  replace (Z.of_nat b <? -1)%Z with false by (symmetry; apply Z.ltb_ge; lia).
  replace (0 <=? Z.of_nat b)%Z with true by (symmetry; apply Z.leb_le; lia).
  replace (Z.of_nat b =? -1)%Z with false by (symmetry; apply Z.eqb_neq; lia).
  destruct (Z.eq_dec (Z.of_nat b) (-1)) as [E|_]; [lia|].
  simpl. rewrite Nat2Z.id, Nat.mul_1_r.
  destruct ((0 <? b) && (n mod b =? 0)); reflexivity.
Qed.

(** ** ContextWindow with an empty window *)

(** C9: on every rank-3 input, [ContextWindow.forward] with [window = 0]
    returns the input tensor itself. *)
Theorem ContextWindow_window0_identity (A : Type) (zero : A) (x : Tensor A) :
  dim x = 3 -> ContextWindow.forward zero 0 x = Ok x.
Proof.
  intros H. unfold ContextWindow.forward. rewrite H. reflexivity.
Qed.

Lemma ContextWindow_window0_identity_witness :
  ContextWindow.forward 0%Z 0 (mkTensor [1; 2; 1] [7; 8]%Z)
  = Ok (mkTensor [1; 2; 1] [7; 8]%Z).
Proof.
  apply (ContextWindow_window0_identity 0%Z (mkTensor [1; 2; 1] [7; 8]%Z)).
  reflexivity.
Defined.

(** ** TimeDistributed around the identity *)

Lemma size_0 {T : Type} (b : nat) (s : list nat) (d : list T) :
  size (mkTensor (b :: s) d) 0 = Ok b.
Proof.
  change 0%Z with (Z.of_nat 0). rewrite size_nat; [reflexivity|].
  unfold dim. simpl. lia.
Qed.

Lemma size_1 {T : Type} (b t : nat) (s : list nat) (d : list T) :
  size (mkTensor (b :: t :: s) d) 1 = Ok t.
Proof.
  change 1%Z with (Z.of_nat 1). rewrite size_nat; [reflexivity|].
  unfold dim. simpl. lia.
Qed.

Lemma size_2 {T : Type} (b t f : nat) (s : list nat) (d : list T) :
  size (mkTensor (b :: t :: f :: s) d) 2 = Ok f.
Proof.
  change 2%Z with (Z.of_nat 2). rewrite size_nat; [reflexivity|].
  unfold dim. simpl. lia.
Qed.

Lemma list_eqb_eq (s1 s2 : list nat) : list_eqb s1 s2 = true <-> s1 = s2.
Proof.
  unfold list_eqb. destruct (list_eq_dec Nat.eq_dec s1 s2); split; congruence.
Qed.

Lemma list_eqb_refl (s : list nat) : list_eqb s s = true.
Proof. apply list_eqb_eq. reflexivity. Qed.

Lemma list_eqb_length (s1 s2 : list nat) :
  length s1 <> length s2 -> list_eqb s1 s2 = false.
Proof.
  intros H. destruct (list_eqb s1 s2) eqn:E; [|reflexivity].
  apply list_eqb_eq in E. subst. congruence.
Qed.

(** *** The framework's [computeStride] on the views of line 85 and 90 *)

Lemma numel_pos (s : list nat) : Forall (fun x => 1 <= x) s -> 1 <= numel s.
Proof.
  induction 1 as [|x s Hx _ IH]; simpl; [lia|]. nia.
Qed.

Lemma numel_nonzero_sizes (s : list nat) :
  numel s <> 0 -> Forall (fun x => 1 <= x) s.
Proof.
  intros H. apply Forall_forall. intros x Hx.
  destruct x; [|lia]. exfalso. apply H. apply numel_zero. exact Hx.
Qed.

Lemma drop_ones_idem (l : list nat) :
  TimeDistributedTrace.drop_ones (TimeDistributedTrace.drop_ones l)
  = TimeDistributedTrace.drop_ones l.
Proof.
  induction l as [|x l IH]; [reflexivity|].
  destruct x as [|[|x]]; simpl; auto.
Qed.

Lemma view_dims_app (q w : list nat) (tn vn base : nat) (acc : list nat) :
  1 <= vn -> Forall (fun x => 1 <= x) q -> vn * numel q <= tn ->
  exists acc', view_dims (q ++ w) tn vn base acc
               = view_dims w tn (vn * numel q) base acc'.
Proof.
  revert vn acc. induction q as [|x q IH]; intros vn acc Hvn Hq Hle.
  - exists acc. cbn [app numel fold_right]. rewrite Nat.mul_1_r. reflexivity.
  - inversion Hq as [|? ? Hx Hq']; subst. cbv beta in Hx.
    pose proof (numel_pos Hq') as Hn.
    cbn [numel fold_right] in Hle. fold (numel q) in Hle.
    cbn [app view_dims].
    replace ((vn <? tn) || (x =? 1)) with true.
    + destruct (IH (vn * x) (vn * base :: acc)) as (acc' & E); [nia | exact Hq' | nia |].
      exists acc'. rewrite E. cbn [numel fold_right]. fold (numel q).
      rewrite Nat.mul_assoc. reflexivity.
    + symmetry. apply orb_true_iff.
      destruct (Nat.eq_dec x 1) as [->|Hx1]; [right; reflexivity|].
      left. apply Nat.ltb_lt.
      assert (2 <= x * numel q) by nia. nia.
Qed.

Lemma view_dims_ones (w : list nat) (tn base : nat) (acc : list nat) :
  exists acc', view_dims w tn tn base acc
               = (TimeDistributedTrace.drop_ones w, tn, acc').
Proof.
  revert acc. induction w as [|x w IH]; intros acc.
  - exists acc. reflexivity.
  - cbn [view_dims]. rewrite Nat.ltb_irrefl. cbn [orb].
    destruct x as [|[|x]].
    + exists acc. reflexivity.
    + cbn [Nat.eqb]. rewrite Nat.mul_1_r. apply IH.
    + exists acc. reflexivity.
Qed.

(** The axes of the view that are the axes [q] of a chunk are taken with
    it, and the ones of size 1 that follow. *)
Lemma view_dims_chunk (q w : list nat) (base : nat) (acc : list nat) :
  Forall (fun x => 1 <= x) q ->
  exists acc', view_dims (TimeDistributedTrace.drop_ones (q ++ w)) (numel q) 1 base acc
               = (TimeDistributedTrace.drop_ones w, numel q, acc').
Proof.
  induction q as [|x q IH]; intros Hq.
  - cbn [app numel fold_right].
    destruct (view_dims_ones (TimeDistributedTrace.drop_ones w) 1 base acc) as (acc' & E).
    exists acc'. rewrite E, drop_ones_idem. reflexivity.
  - inversion Hq as [|? ? Hx Hq']; subst. cbv beta in Hx.
    destruct (Nat.eq_dec x 1) as [->|Hx1].
    + cbn [app TimeDistributedTrace.drop_ones numel fold_right]. fold (numel q).
      rewrite Nat.mul_1_l. apply IH. exact Hq'.
    + replace (TimeDistributedTrace.drop_ones ((x :: q) ++ w)) with ((x :: q) ++ w)
        by (destruct x as [|[|x]]; [lia | congruence | reflexivity]).
      destruct (@view_dims_app (x :: q) w (numel (x :: q)) 1 base acc) as (acc1 & E1);
        [lia | exact Hq | lia |].
      rewrite E1, Nat.mul_1_l.
      apply view_dims_ones.
Qed.

(** When the chunk of the tensor is larger than the axes [q], the next axis
    of the view is taken too. *)
Lemma view_dims_short (q w : list nat) (x tn base : nat) (acc : list nat) :
  Forall (fun y => 1 <= y) q -> numel q < tn -> 2 <= x ->
  exists acc', view_dims (TimeDistributedTrace.drop_ones (q ++ x :: w)) tn 1 base acc
               = view_dims w tn (numel q * x) base acc'.
Proof.
  induction q as [|y q IH]; intros Hq Hlt Hx.
  - cbn [app numel fold_right] in *.
    replace (TimeDistributedTrace.drop_ones (x :: w)) with (x :: w)
      by (destruct x as [|[|x]]; [lia | lia | reflexivity]).
    cbn [view_dims].
    replace (1 <? tn) with true by (symmetry; apply Nat.ltb_lt; lia).
    cbn [orb]. eexists. reflexivity.
  - inversion Hq as [|? ? Hy Hq']; subst. cbv beta in Hy.
    destruct (Nat.eq_dec y 1) as [->|Hy1].
    + cbn [app TimeDistributedTrace.drop_ones numel fold_right] in *. fold (numel q) in *.
      rewrite Nat.mul_1_l in *. apply IH; assumption.
    + replace (TimeDistributedTrace.drop_ones ((y :: q) ++ x :: w)) with ((y :: q) ++ x :: w)
        by (destruct y as [|[|y]]; [lia | congruence | reflexivity]).
      destruct (@view_dims_app (y :: q) (x :: w) tn 1 base acc) as (acc1 & E1);
        [lia | exact Hq | lia |].
      rewrite E1, Nat.mul_1_l. cbn [view_dims].
      replace (numel (y :: q) <? tn) with true by (symmetry; apply Nat.ltb_lt; lia).
      cbn [orb]. eexists. reflexivity.
Qed.

Lemma tensor_dims_cons (sz st : nat) (old' : list (nat * nat)) (vs : list nat)
    (tn vn base : nat) (acc : list nat) :
  tensor_dims ((sz, st) :: old') vs tn vn base acc
  = if match old' with
       | [] => true
       | (sz', st') :: _ => negb (sz' =? 1) && negb (st' =? tn * sz * base)
       end
    then
      let '(vs', vn', acc') := view_dims vs (tn * sz) vn base acc in
      if vn' =? tn * sz
      then tensor_dims old' vs' 1 1
             (match old' with (_, st') :: _ => st' | [] => base end) acc'
      else None
    else tensor_dims old' vs (tn * sz) vn base acc.
Proof. reflexivity. Qed.

(** Axes that the tensor and the view share at their end never make
    [computeStride] fail: after them the loop is at the start of the axes
    that differ, in the middle of some chunk [p']. *)
Lemma tensor_dims_prefix (r otl : list (nat * nat)) (vtl p : list nat)
    (base : nat) (acc : list nat) :
  otl <> [] ->
  Forall (fun x => 1 <= x) (map fst r) ->
  Forall (fun x => 1 <= x) p ->
  TimeDistributedTrace.continues p base (hd (0, 0) (r ++ otl)) ->
  exists p' base' acc',
    tensor_dims (r ++ otl)
      (TimeDistributedTrace.drop_ones (p ++ map fst r ++ vtl)) (numel p) 1 base acc
    = tensor_dims otl (TimeDistributedTrace.drop_ones (p' ++ vtl)) (numel p') 1 base' acc'
    /\ Forall (fun x => 1 <= x) p'
    /\ TimeDistributedTrace.continues p' base' (hd (0, 0) otl).
Proof.
  intros Hne. revert p base acc.
  induction r as [|[sz st] r IH]; intros p base acc Hr Hp Hc.
  - exists p, base, acc. split; [reflexivity | split; assumption].
  - cbn [map fst] in Hr. inversion Hr as [|? ? Hsz Hr']; subst. cbv beta in Hsz.
    cbn [app map fst]. rewrite tensor_dims_cons.
    assert (Hp' : Forall (fun x => 1 <= x) (p ++ [sz]))
      by (apply Forall_app; split; [exact Hp | constructor; [exact Hsz | constructor]]).
    assert (Hn : numel (p ++ [sz]) = numel p * sz)
      by (rewrite numel_app; simpl; lia).
    assert (Hl : forall l, p ++ sz :: l = (p ++ [sz]) ++ l)
      by (intros l; rewrite <- app_assoc; reflexivity).
    destruct (r ++ otl) as [|[sz' st'] rest] eqn:E.
    { destruct r; [contradiction | discriminate]. }
    destruct (negb (sz' =? 1) && negb (st' =? numel p * sz * base)) eqn:B.
    + rewrite Hl, <- Hn.
      destruct (@view_dims_chunk (p ++ [sz]) (map fst r ++ vtl) base acc Hp') as (acc1 & E1).
      rewrite E1, Nat.eqb_refl.
      destruct (IH [] st' acc1 Hr' (Forall_nil _)) as (p' & base' & acc' & E2 & H2).
      { left. split; reflexivity. }
      exists p', base', acc'. split; [exact E2 | exact H2].
    + rewrite Hl, <- Hn.
      destruct (IH (p ++ [sz]) base acc Hr' Hp') as (p' & base' & acc' & E2 & H2).
      { right. cbn [fst snd]. rewrite Hn.
        apply andb_false_iff in B. destruct B as [B|B]; apply negb_false_iff in B.
        - left. apply Nat.eqb_eq. exact B.
        - right. apply Nat.eqb_eq. exact B. }
      exists p', base', acc'. split; [exact E2 | exact H2].
Qed.

Lemma view_dims_drop (vs : list nat) (tn base : nat) (acc : list nat) :
  exists acc', view_dims vs tn 1 base acc
               = view_dims (TimeDistributedTrace.drop_ones vs) tn 1 base acc'.
Proof.
  revert acc. induction vs as [|x vs IH]; intros acc.
  - exists acc. reflexivity.
  - destruct x as [|[|x]].
    + exists acc. reflexivity.
    + cbn [TimeDistributedTrace.drop_ones view_dims Nat.eqb].
      rewrite orb_true_r. cbn [Nat.mul Nat.add]. apply IH.
    + exists acc. reflexivity.
Qed.

(** Axes of size 1 at the end of the view make no difference. *)
Lemma tensor_dims_drop (old : list (nat * nat)) (vs : list nat) (tn base : nat)
    (acc : list nat) :
  old <> [] ->
  exists acc', tensor_dims old vs tn 1 base acc
               = tensor_dims old (TimeDistributedTrace.drop_ones vs) tn 1 base acc'.
Proof.
  revert tn acc. induction old as [|[sz st] old IH]; intros tn acc Hne; [contradiction|].
  destruct (view_dims_drop vs (tn * sz) base acc) as (acc1 & E1).
  destruct old as [|[sz' st'] rest].
  - exists acc1. rewrite !tensor_dims_cons, E1. reflexivity.
  - destruct (negb (sz' =? 1) && negb (st' =? tn * sz * base)) eqn:B.
    + exists acc1. rewrite !tensor_dims_cons, B, E1. reflexivity.
    + destruct (IH (tn * sz) acc) as (acc2 & E2); [discriminate|].
      exists acc2. rewrite !tensor_dims_cons, B. exact E2.
Qed.

Lemma view_dims_length (vs : list nat) (tn vn base : nat) (acc : list nat) :
  length (snd (view_dims vs tn vn base acc))
  + length (fst (fst (view_dims vs tn vn base acc)))
  = length acc + length vs.
Proof.
  revert vn acc. induction vs as [|x vs IH]; intros vn acc; [reflexivity|].
  cbn [view_dims]. destruct ((vn <? tn) || (x =? 1)).
  - rewrite IH. cbn [length]. lia.
  - reflexivity.
Qed.

Lemma tensor_dims_length (old : list (nat * nat)) (vs : list nat)
    (tn vn base : nat) (acc st : list nat) :
  tensor_dims old vs tn vn base acc = Some st ->
  length st = length acc + length vs.
Proof.
  revert vs tn vn base acc.
  induction old as [|[sz s] old IH]; intros vs tn vn base acc H.
  - destruct vs; [|discriminate]. injection H as <-. cbn [length]. lia.
  - rewrite tensor_dims_cons in H.
    destruct (match old with
              | [] => true
              | (sz', st') :: _ => negb (sz' =? 1) && negb (st' =? tn * sz * base)
              end).
    + pose proof (view_dims_length vs (tn * sz) vn base acc) as L.
      destruct (view_dims vs (tn * sz) vn base acc) as [[vs' vn'] acc'].
      cbn [fst snd] in L.
      destruct (vn' =? tn * sz); [|discriminate].
      apply IH in H. lia.
    + apply IH in H. exact H.
Qed.

(** The last two axes of the loop for line 85: the first two axes of the
    tensor against the one axis of the view that holds both. *)
Lemma tensor_dims_merge (p : list nat) (base : nat) (acc : list nat)
    (b t s0 s1 : nat) :
  1 <= b -> 1 <= t ->
  Forall (fun x => 1 <= x) p ->
  TimeDistributedTrace.continues p base (t, s1) ->
  (b = 1 \/ t = 1 \/ s0 = t * s1 ->
   exists st,
     tensor_dims [(t, s1); (b, s0)]
       (TimeDistributedTrace.drop_ones (p ++ [b * t])) (numel p) 1 base acc = Some st)
  /\ (b <> 1 -> t <> 1 -> s0 <> t * s1 ->
      tensor_dims [(t, s1); (b, s0)]
        (TimeDistributedTrace.drop_ones (p ++ [b * t])) (numel p) 1 base acc = None).
Proof.
  intros Hb Ht Hp Hc.
  pose proof (numel_pos Hp) as Hn.
  assert (Hbase : t <> 1 -> numel p * t * base = t * s1).
  { intros Ht1. destruct Hc as [(-> & ->)|[Hc|Hc]]; cbn [fst snd] in *.
    - simpl. lia.
    - contradiction.
    - rewrite Hc. lia. }
  assert (Hjoin : exists st,
            tensor_dims [(b, s0)]
              (TimeDistributedTrace.drop_ones (p ++ [b * t])) (numel p * t) 1 base acc
            = Some st).
  { rewrite tensor_dims_cons.
    assert (Hq : Forall (fun x => 1 <= x) (p ++ [b * t])).
    { apply Forall_app. split; [exact Hp|]. constructor; [nia|constructor]. }
    destruct (@view_dims_chunk (p ++ [b * t]) [] base acc Hq) as (acc1 & E1).
    rewrite app_nil_r in E1.
    replace (numel (p ++ [b * t])) with (numel p * t * b) in E1
      by (rewrite numel_app; simpl; lia).
    rewrite E1, Nat.eqb_refl. cbn [TimeDistributedTrace.drop_ones tensor_dims].
    eexists. reflexivity. }
  assert (Hone : t = 1 -> b <> 1 -> exists st,
            (let '(vs', vn', acc') :=
               view_dims (TimeDistributedTrace.drop_ones (p ++ [b * t]))
                 (numel p * t) 1 base acc in
             if vn' =? numel p * t
             then tensor_dims [(b, s0)] vs' 1 1 s0 acc' else None) = Some st).
  { intros -> Hb1. rewrite !Nat.mul_1_r.
    destruct (@view_dims_chunk p [b] base acc Hp) as (acc1 & E1).
    rewrite E1, Nat.eqb_refl.
    replace (TimeDistributedTrace.drop_ones [b]) with [b]
      by (destruct b as [|[|b]]; [lia | congruence | reflexivity]).
    rewrite tensor_dims_cons. cbn [view_dims].
    replace (1 <? 1 * b) with true by (symmetry; apply Nat.ltb_lt; lia).
    cbn [orb]. rewrite Nat.eqb_refl. eexists. reflexivity. }
  rewrite tensor_dims_cons. split.
  - intros Hm.
    destruct (negb (b =? 1) && negb (s0 =? numel p * t * base)) eqn:B; [|exact Hjoin].
    apply andb_prop in B. destruct B as [B1 B2].
    apply negb_true_iff in B1, B2. apply Nat.eqb_neq in B1, B2.
    destruct (Nat.eq_dec t 1) as [Ht1|Ht1]; [apply Hone; assumption|].
    exfalso. rewrite Hbase in B2 by exact Ht1.
    destruct Hm as [Hm|[Hm|Hm]]; contradiction.
  - intros Hb1 Ht1 Hs.
    replace (negb (b =? 1) && negb (s0 =? numel p * t * base)) with true.
    2:{ symmetry. apply andb_true_intro. split; apply negb_true_iff, Nat.eqb_neq;
          [exact Hb1 | rewrite Hbase by exact Ht1; exact Hs]. }
    destruct (@view_dims_short p [] (b * t) (numel p * t) base acc Hp) as (acc1 & E1);
      [nia | nia |].
    rewrite E1. cbn [view_dims].
    replace (numel p * (b * t) =? numel p * t) with false; [reflexivity|].
    symmetry. apply Nat.eqb_neq. nia.
Qed.

(** The last axis of the loop for line 90: the first axis of the module's
    output against the two axes of the view that share it. *)
Lemma tensor_dims_split (p : list nat) (base : nat) (acc : list nat)
    (b t s : nat) :
  1 <= b -> 1 <= t ->
  Forall (fun x => 1 <= x) p ->
  exists st,
    tensor_dims [(b * t, s)]
      (TimeDistributedTrace.drop_ones (p ++ [t; b])) (numel p) 1 base acc = Some st.
Proof.
  intros Hb Ht Hp. rewrite tensor_dims_cons.
  assert (Hq : Forall (fun x => 1 <= x) (p ++ [t; b])).
  { apply Forall_app. split; [exact Hp|]. repeat constructor; assumption. }
  destruct (@view_dims_chunk (p ++ [t; b]) [] base acc Hq) as (acc1 & E1).
  rewrite app_nil_r in E1.
  replace (numel (p ++ [t; b])) with (numel p * (b * t)) in E1
    by (rewrite numel_app; simpl; lia).
  rewrite E1, Nat.eqb_refl. cbn [TimeDistributedTrace.drop_ones tensor_dims].
  eexists. reflexivity.
Qed.

Lemma map_fst_combine {U V : Type} (l : list U) (l' : list V) :
  length l = length l' -> map fst (combine l l') = l.
Proof.
  revert l'. induction l as [|x l IH]; intros [|y l'] H; simpl in *;
    try discriminate; [reflexivity|].
  f_equal. apply IH. lia.
Qed.

Lemma computeStride_zero (oldshape oldstride newshape : list nat) :
  numel oldshape = 0 -> length oldstride = length oldshape ->
  exists st, computeStride oldshape oldstride newshape = Some st
             /\ length st = length newshape.
Proof.
  intros Hz Hl. unfold computeStride.
  destruct (rev (combine oldshape oldstride)) as [|[sz st] old] eqn:E.
  - exfalso. apply (f_equal (@length _)) in E.
    rewrite length_rev, length_combine, Hl, Nat.min_id in E.
    destruct oldshape; [discriminate Hz | discriminate E].
  - rewrite Hz. cbn [Nat.eqb].
    destruct (list_eqb oldshape newshape) eqn:Q.
    + apply list_eqb_eq in Q. subst. exists oldstride. split; [reflexivity | exact Hl].
    + exists (default_strides newshape). split; [reflexivity|].
      clear. induction newshape; simpl; congruence.
Qed.

(** The common part of the two views of [TimeDistributed.forward]: the
    loop started on a tensor whose last axes are those of the view. *)
Lemma computeStride_start (front : list (nat * nat)) (vfront rest srest : list nat) :
  front <> [] ->
  length srest = length rest ->
  numel (map fst front ++ rest) <> 0 ->
  exists p base acc,
    computeStride (map fst front ++ rest) (map snd front ++ srest) (vfront ++ rest)
    = tensor_dims (rev front)
        (TimeDistributedTrace.drop_ones (p ++ rev vfront)) (numel p) 1 base acc
    /\ Forall (fun x => 1 <= x) p
    /\ TimeDistributedTrace.continues p base (hd (0, 0) (rev front)).
Proof.
  intros Hf Hl Hn. unfold computeStride.
  assert (Hc : rev (combine (map fst front ++ rest) (map snd front ++ srest))
               = rev (combine rest srest) ++ rev front).
  { rewrite <- rev_app_distr. f_equal.
    clear Hf Hn. induction front as [|[a c] front IH]; [reflexivity|].
    cbn [map fst snd app combine]. rewrite IH. reflexivity. }
  rewrite Hc. clear Hc.
  assert (Hne : rev front <> []).
  { intros E. apply (f_equal (@length _)) in E. rewrite length_rev in E.
    destruct front; [contradiction | discriminate]. }
  destruct (rev (combine rest srest) ++ rev front) as [|[sz0 st0] old0] eqn:E.
  { apply app_eq_nil in E. destruct E as [_ E]. contradiction. }
  apply Nat.eqb_neq in Hn. rewrite Hn. rewrite <- E.
  destruct (@tensor_dims_drop (rev (combine rest srest) ++ rev front)
              (rev (vfront ++ rest)) 1 st0 []) as (acc0 & E0).
  { rewrite E. discriminate. }
  rewrite E0.
  assert (Hr : map fst (rev (combine rest srest)) = rev rest)
    by (rewrite map_rev, map_fst_combine by (symmetry; exact Hl); reflexivity).
  rewrite rev_app_distr, <- Hr.
  apply Nat.eqb_neq in Hn.
  destruct (@tensor_dims_prefix (rev (combine rest srest)) (rev front) (rev vfront)
              [] st0 acc0 Hne) as (p' & base' & acc' & E1 & Hp' & Hc').
  - rewrite Hr. apply Forall_rev. apply numel_nonzero_sizes.
    intros Z. apply Hn. rewrite numel_app, Z. lia.
  - constructor.
  - left. rewrite E. split; reflexivity.
  - exists p', base', acc'. split; [exact E1 | split; assumption].
Qed.

Lemma computeStride_merge (b t s0 s1 : nat) (rest srest : list nat) :
  length srest = length rest ->
  numel (b :: t :: rest) <> 0 ->
  (b = 1 \/ t = 1 \/ s0 = t * s1 ->
   exists st, computeStride (b :: t :: rest) (s0 :: s1 :: srest) (b * t :: rest) = Some st)
  /\ (b <> 1 -> t <> 1 -> s0 <> t * s1 ->
      computeStride (b :: t :: rest) (s0 :: s1 :: srest) (b * t :: rest) = None).
Proof.
  intros Hl Hn.
  destruct (@computeStride_start [(b, s0); (t, s1)] [b * t] rest srest)
    as (p & base & acc & E & Hp & Hc); [discriminate | exact Hl | exact Hn |].
  cbn [map fst snd app rev] in E, Hc. rewrite E.
  assert (Hbt : 1 <= b /\ 1 <= t).
  { cbn [numel fold_right] in Hn. split; destruct b, t; simpl in Hn; lia. }
  apply tensor_dims_merge; tauto.
Qed.

Lemma computeStride_split (b t s : nat) (rest srest : list nat) :
  length srest = length rest ->
  numel (b * t :: rest) <> 0 ->
  exists st, computeStride (b * t :: rest) (s :: srest) (b :: t :: rest) = Some st.
Proof.
  intros Hl Hn.
  destruct (@computeStride_start [(b * t, s)] [b; t] rest srest)
    as (p & base & acc & E & Hp & Hc); [discriminate | exact Hl | exact Hn |].
  cbn [map fst snd app rev] in E. rewrite E.
  assert (Hbt : 1 <= b /\ 1 <= t).
  { cbn [numel fold_right] in Hn. split; destruct b, t; simpl in Hn; lia. }
  apply tensor_dims_split; tauto.
Qed.

Lemma computeStride_length (oldshape oldstride newshape st : list nat) :
  length oldstride = length oldshape ->
  computeStride oldshape oldstride newshape = Some st ->
  length st = length newshape.
Proof.
  intros Hl H. unfold computeStride in H.
  destruct (rev (combine oldshape oldstride)) as [|[sz0 st0] old0] eqn:E.
  - injection H as <-. apply repeat_length.
  - destruct (numel oldshape =? 0) eqn:Z.
    + apply Nat.eqb_eq in Z.
      destruct (@computeStride_zero oldshape oldstride newshape Z Hl) as (st' & E' & L).
      unfold computeStride in E'. rewrite E in E'.
      apply Nat.eqb_eq in Z. rewrite Z in E'. congruence.
    + apply tensor_dims_length in H. rewrite length_rev in H. exact H.
Qed.

(** *** The two views of [TimeDistributed.forward] *)

Section TimeDistributedViews.
Context {A : Type}.
Variables (b t k : nat) (rest : list nat) (d : list A).
Variables (s0 s1 : nat) (srest : list nat).
Hypothesis Hlayout : length srest = S (length rest).

Local Abbreviation x :=
  (mkStrided (mkTensor (b :: t :: k :: rest) d) (s0 :: s1 :: srest)).

Lemma mergeable_cases :
  numel (k :: rest) <> 0 ->
  TimeDistributedTrace.mergeable x
  = (b * t =? 0) || (b =? 1) || (t =? 1) || (s0 =? t * s1).
Proof.
  intros Hn. unfold TimeDistributedTrace.mergeable. cbn [logical shape strides].
  replace (numel (b :: t :: k :: rest) =? 0) with (b * t =? 0); [reflexivity|].
  change (numel (b :: t :: k :: rest)) with (b * (t * numel (k :: rest))).
  destruct (b * t =? 0) eqn:E.
  - apply Nat.eqb_eq in E. symmetry. apply Nat.eqb_eq. nia.
  - apply Nat.eqb_neq in E. symmetry. apply Nat.eqb_neq. nia.
Qed.

(** Line 85 on an input with an empty axis among the trailing ones. *)
Lemma flattened_empty :
  numel (k :: rest) = 0 ->
  TimeDistributedTrace.flattened x = Raise RuntimeError.
Proof.
  intros Hn. unfold TimeDistributedTrace.flattened, view_strided.
  cbn [logical shape skipn]. rewrite infer_size_head, Hn. reflexivity.
Qed.

Lemma flattened_infer :
  numel (k :: rest) <> 0 ->
  infer_size ((-1)%Z :: map Z.of_nat (k :: rest)) (numel (b :: t :: k :: rest))
  = Ok (b * t :: k :: rest).
Proof.
  intros Hn. rewrite infer_size_head.
  change (numel (b :: t :: k :: rest)) with (b * (t * numel (k :: rest))).
  replace (b * (t * numel (k :: rest))) with (b * t * numel (k :: rest)) by lia.
  rewrite Nat.Div0.mod_mul, Nat.div_mul by exact Hn.
  replace (0 <? numel (k :: rest)) with true
    by (symmetry; apply Nat.ltb_lt; lia).
  reflexivity.
Qed.

(** Line 85 succeeds exactly on the inputs whose first two axes can be
    merged, and keeps the elements in their order. *)
Lemma flattened_ok :
  numel (k :: rest) <> 0 ->
  TimeDistributedTrace.mergeable x = true ->
  exists st,
    TimeDistributedTrace.flattened x
    = Ok (mkStrided (mkTensor (b * t :: k :: rest) d) st)
    /\ length st = S (S (length rest)).
Proof.
  intros Hn Hm. rewrite mergeable_cases in Hm by exact Hn.
  unfold TimeDistributedTrace.flattened, view_strided.
  cbn [logical shape skipn strides data]. rewrite flattened_infer by exact Hn.
  cbn [bind].
  assert (Hl : length (s0 :: s1 :: srest) = length (b :: t :: k :: rest))
    by (cbn [length]; rewrite Hlayout; reflexivity).
  assert (E : exists st, computeStride (b :: t :: k :: rest) (s0 :: s1 :: srest)
                           (b * t :: k :: rest) = Some st).
  { destruct (Nat.eq_dec (b * t) 0) as [Z|Z].
    - destruct (@computeStride_zero (b :: t :: k :: rest) (s0 :: s1 :: srest)
                  (b * t :: k :: rest)) as (st & E & _).
      + change (numel (b :: t :: k :: rest)) with (b * (t * numel (k :: rest))). nia.
      + exact Hl.
      + exists st. exact E.
    - apply computeStride_merge.
      + exact Hlayout.
      + change (numel (b :: t :: k :: rest)) with (b * (t * numel (k :: rest))). nia.
      + apply Nat.eqb_neq in Z. rewrite Z in Hm. cbn [orb] in Hm.
        apply orb_prop in Hm. destruct Hm as [Hm|Hm]; [apply orb_prop in Hm; destruct Hm as [Hm|Hm]|];
          apply Nat.eqb_eq in Hm; tauto. }
  destruct E as (st & E). rewrite E. exists st. split; [reflexivity|].
  rewrite (@computeStride_length _ _ _ _ Hl E). reflexivity.
Qed.

Lemma flattened_fail :
  numel (k :: rest) <> 0 ->
  TimeDistributedTrace.mergeable x = false ->
  TimeDistributedTrace.flattened x = Raise RuntimeError.
Proof.
  intros Hn Hm. rewrite mergeable_cases in Hm by exact Hn.
  apply orb_false_iff in Hm. destruct Hm as [Hm H3].
  apply orb_false_iff in Hm. destruct Hm as [Hm H2].
  apply orb_false_iff in Hm. destruct Hm as [H0 H1].
  apply Nat.eqb_neq in H0, H1, H2, H3.
  unfold TimeDistributedTrace.flattened, view_strided.
  cbn [logical shape skipn strides data]. rewrite flattened_infer by exact Hn.
  cbn [bind].
  destruct (@computeStride_merge b t s0 s1 (k :: rest) srest) as [_ E].
  - exact Hlayout.
  - change (numel (b :: t :: k :: rest)) with (b * (t * numel (k :: rest))). nia.
  - rewrite E by assumption. reflexivity.
Qed.

End TimeDistributedViews.

(** Line 90 never fails on a tensor whose first axis has [b * t] entries. *)
Lemma unflatten_ok {B : Type} (b t : nat) (r' : list nat) (d' : list B)
    (st' : list nat) :
  length st' = S (length r') ->
  exists st,
    view_strided (mkStrided (mkTensor (b * t :: r') d') st')
      (Z.of_nat b :: Z.of_nat t :: map Z.of_nat r')
    = Ok (mkStrided (mkTensor (b :: t :: r') d') st).
Proof.
  intros Hl. unfold view_strided. cbn [logical shape strides data].
  change (Z.of_nat b :: Z.of_nat t :: map Z.of_nat r')
    with (map Z.of_nat (b :: t :: r')).
  rewrite infer_size_exact.
  replace (numel (b :: t :: r') =? numel (b * t :: r')) with true
    by (symmetry; apply Nat.eqb_eq; simpl; lia).
  cbn [bind].
  assert (E : exists st, computeStride (b * t :: r') st' (b :: t :: r') = Some st).
  { destruct (Nat.eq_dec (numel (b * t :: r')) 0) as [Z|Z].
    - destruct (@computeStride_zero (b * t :: r') st' (b :: t :: r') Z) as (st & E & _);
        [exact Hl | exists st; exact E].
    - destruct st' as [|s sr]; [discriminate|].
      apply computeStride_split; [cbn [length] in Hl; lia | exact Z]. }
  destruct E as (st & E). rewrite E. exists st. reflexivity.
Qed.

(** [forward] past its first assertion. *)
Lemma TimeDistributed_forward_eq (A B : Type)
    (module : Strided A -> result (Strided B)) (b t k : nat) (rest : list nat)
    (d : list A) (st : list nat) :
  TimeDistributed.forward module (mkStrided (mkTensor (b :: t :: k :: rest) d) st)
  = (v <- TimeDistributedTrace.flattened
            (mkStrided (mkTensor (b :: t :: k :: rest) d) st) ;;
     outputs <- module v ;;
     n <- size (logical outputs) 0 ;;
     check py_assert (n =? b * t) ;;
     view_strided outputs
       (Z.of_nat b :: Z.of_nat t
          :: map Z.of_nat (skipn 1 (shape (logical outputs))))).
Proof.
  unfold TimeDistributed.forward, TimeDistributedTrace.flattened.
  cbn [logical]. rewrite size_0, size_1. cbn [py_assert bind dim shape length Nat.ltb Nat.leb].
  destruct (view_strided _ _) as [v|e]; [|reflexivity]. cbn [bind].
  destruct (module v) as [out|e]; [|reflexivity]. cbn [bind].
  destruct (size (logical out) 0) as [n|e]; [|reflexivity]. cbn [bind].
  destruct (n =? b * t); [|reflexivity]. cbn [py_assert bind].
  destruct (view_strided out _); reflexivity.
Qed.

Lemma TimeDistributed_rank (A B : Type)
    (module : Strided A -> result (Strided B)) (x : Strided A) :
  dim (logical x) <= 2 ->
  TimeDistributed.forward module x = Raise AssertionError.
Proof.
  intros Hx. unfold TimeDistributed.forward.
  replace (2 <? dim (logical x)) with false
    by (symmetry; apply Nat.ltb_ge; exact Hx).
  reflexivity.
Qed.

(** [forward] on what the module returns for the flattened input [v]. *)
Lemma TimeDistributed_outcomes (A B : Type)
    (module : Strided A -> result (Strided B)) (b t k : nat) (rest : list nat)
    (d : list A) (st : list nat) (v : Strided A) :
  TimeDistributedTrace.flattened (mkStrided (mkTensor (b :: t :: k :: rest) d) st)
  = Ok v ->
  let r := TimeDistributed.forward module
             (mkStrided (mkTensor (b :: t :: k :: rest) d) st) in
  (forall e, module v = Raise e -> r = Raise e)
  /\ (forall out, module v = Ok out -> dim (logical out) = 0 -> r = Raise IndexError)
  /\ (forall out n r', module v = Ok out -> shape (logical out) = n :: r' ->
        n <> b * t -> r = Raise AssertionError)
  /\ (forall out r', module v = Ok out -> shape (logical out) = b * t :: r' ->
        length (strides out) = S (length r') ->
        exists y, r = Ok y /\ logical y = mkTensor (b :: t :: r') (data (logical out))).
Proof.
  intros Hv r. unfold r. rewrite TimeDistributed_forward_eq, Hv. cbn [bind].
  split; [|split; [|split]].
  - intros e He. rewrite He. reflexivity.
  - intros out Ho Hd. rewrite Ho. cbn [bind]. unfold size.
    rewrite Hd. reflexivity.
  - intros out n r' Ho Hs Hn. rewrite Ho. cbn [bind].
    destruct out as [[so do] sto]. cbn [logical shape] in *. subst so.
    rewrite size_0. cbn [bind]. apply Nat.eqb_neq in Hn. rewrite Hn. reflexivity.
  - intros out r' Ho Hs Hl. rewrite Ho. cbn [bind].
    destruct out as [[so do] sto]. cbn [logical shape strides data] in *. subst so.
    rewrite size_0. cbn [bind]. rewrite Nat.eqb_refl. cbn [py_assert bind skipn].
    destruct (@unflatten_ok B b t r' do sto Hl) as (st' & E).
    rewrite E. eexists. split; reflexivity.
Qed.

(** C8, amended: for a tensor of rank greater than 2, [TimeDistributed]
    around the identity module returns a tensor with the shape and the
    elements of the input exactly when no axis from the third on has size 0
    and the first two axes can be seen as one without a copy; in every
    other case a [view] raises.  Every contiguous tensor is of the second
    kind. *)
Theorem TimeDistributed_identity (A : Type) (x : Strided A) :
  2 < dim (logical x) ->
  length (strides x) = dim (logical x) ->
  ((exists y, TimeDistributed.forward (fun v => Ok v) x = Ok y
              /\ logical y = logical x)
   <-> ~ In 0 (skipn 2 (shape (logical x)))
       /\ TimeDistributedTrace.mergeable x = true)
  /\ (In 0 (skipn 2 (shape (logical x)))
      \/ TimeDistributedTrace.mergeable x = false ->
      TimeDistributed.forward (fun v => Ok v) x = Raise RuntimeError)
  /\ (strides x = default_strides (shape (logical x)) ->
      TimeDistributedTrace.mergeable x = true).
Proof.
  destruct x as [[s d] st]. unfold dim. cbn [logical shape strides].
  intros Hd Hl.
  destruct s as [|b [|t [|k rest]]]; cbn [length] in Hd, Hl; try lia.
  destruct st as [|s0 [|s1 srest]]; cbn [length] in Hl; try discriminate.
  assert (Hlayout : length srest = S (length rest)) by lia.
  cbn [skipn]. rewrite <- numel_zero.
  assert (Hfail : numel (k :: rest) = 0
                  \/ TimeDistributedTrace.mergeable
                       (mkStrided (mkTensor (b :: t :: k :: rest) d) (s0 :: s1 :: srest))
                     = false ->
                  TimeDistributed.forward (fun v => Ok v)
                    (mkStrided (mkTensor (b :: t :: k :: rest) d) (s0 :: s1 :: srest))
                  = Raise RuntimeError).
  { intros H. rewrite TimeDistributed_forward_eq.
    destruct (Nat.eq_dec (numel (k :: rest)) 0) as [Z|Z].
    - rewrite flattened_empty by exact Z. reflexivity.
    - destruct H as [H|H]; [contradiction|].
      rewrite flattened_fail by assumption. reflexivity. }
  split; [split|split].
  - intros (y & Hy & _).
    destruct (Nat.eq_dec (numel (k :: rest)) 0) as [Z|Z].
    { rewrite Hfail in Hy by (left; exact Z). discriminate. }
    split; [exact Z|].
    destruct (TimeDistributedTrace.mergeable _) eqn:M; [reflexivity|].
    rewrite Hfail in Hy by (right; reflexivity). discriminate.
  - intros (Z & M).
    destruct (@flattened_ok A b t k rest d s0 s1 srest Hlayout Z M) as (st & Hv & Hst).
    destruct (@TimeDistributed_outcomes A A (fun v => Ok v) b t k rest d
                (s0 :: s1 :: srest) _ Hv) as (_ & _ & _ & H).
    destruct (H _ (k :: rest) eq_refl eq_refl Hst) as (y & Hy & Hly).
    exists y. split; [exact Hy | exact Hly].
  - exact Hfail.
  - intros E. cbn [default_strides] in E. injection E as -> -> _.
    unfold TimeDistributedTrace.mergeable. cbn [logical shape strides].
    destruct t as [|t'].
    + replace (numel (b :: 0 :: k :: rest)) with 0 by (simpl; lia). reflexivity.
    + replace (numel (map (Nat.max 1) (S t' :: k :: rest)))
        with (S t' * numel (map (Nat.max 1) (k :: rest)))
        by reflexivity.
      rewrite Nat.eqb_refl, !orb_true_r. reflexivity.
Qed.

Lemma TimeDistributed_identity_witness :
  exists y, TimeDistributed.forward (fun v => Ok v)
              (contiguous (mkTensor [2; 3; 2] [1; 2; 3; 4; 5; 6; 7; 8; 9; 10; 11; 12]%Z))
            = Ok y
            /\ logical y = mkTensor [2; 3; 2] [1; 2; 3; 4; 5; 6; 7; 8; 9; 10; 11; 12]%Z.
Proof.
  apply (@TimeDistributed_identity Z
           (contiguous (mkTensor [2; 3; 2] [1; 2; 3; 4; 5; 6; 7; 8; 9; 10; 11; 12]%Z))).
  - unfold dim. simpl. lia.
  - reflexivity.
  - split; [|reflexivity].
    simpl. intros [H|[]]. discriminate.
Defined.

(** C8 as stated fails on two kinds of tensors of rank 3: the transpose of
    a contiguous [(2, 2, 2)] tensor cannot be viewed as [(4, 2)], and a
    tensor with an empty feature axis leaves the [-1] of that view
    undetermined; in both cases the call raises. *)
Lemma TimeDistributed_identity_counterexample :
  dim (logical Examples.transposed) = 3
  /\ TimeDistributed.forward (fun v => Ok v) Examples.transposed
     = Raise RuntimeError
  /\ dim (mkTensor [1; 1; 0] (@nil Z)) = 3
  /\ TimeDistributed.forward (fun v => Ok v) (contiguous (mkTensor [1; 1; 0] (@nil Z)))
     = Raise RuntimeError.
Proof.
  repeat split; reflexivity.
Qed.

(** ** Concatenation of compatible tensors *)

Lemma legacy_empty_rank {T : Type} (t : Tensor T) :
  dim t <> 1 -> legacy_empty t = false.
Proof.
  intros H. unfold legacy_empty. apply list_eqb_length. exact H.
Qed.

Lemma filter_all {T : Type} (p : T -> bool) (l : list T) :
  (forall x, In x l -> p x = true) -> filter p l = l.
Proof.
  induction l as [|x l IH]; intros H; simpl; [reflexivity|].
  rewrite (H x), IH; simpl; auto.
  intros y Hy. apply H. simpl. auto.
Qed.

Lemma torch_cat_ok {T : Type} (t0 : Tensor T) (ts : list (Tensor T)) (d : Z) (k : nat) :
  (forall t, In t (t0 :: ts) -> legacy_empty t = false) ->
  norm_dim (dim t0) d = Some k ->
  forallb (fun t => cat_compatible k (shape t0) (shape t)) (t0 :: ts) = true ->
  torch_cat (t0 :: ts) d = Ok (cat_at k (shape t0) (t0 :: ts)).
Proof.
  intros Hl Hk Hc. unfold torch_cat.
  rewrite filter_all.
  - rewrite Hk, Hc. reflexivity.
  - intros t Ht. rewrite (Hl t Ht). reflexivity.
Qed.

Lemma mapM_ok {T U : Type} (f : T -> result U) (g : T -> U) (l : list T) :
  (forall x, In x l -> f x = Ok (g x)) -> mapM f l = Ok (map g l).
Proof.
  induction l as [|x l IH]; intros H; simpl; [reflexivity|].
  rewrite (H x), IH; simpl; auto.
  intros y Hy. apply H. simpl. auto.
Qed.

Lemma mapM_raise {T U : Type} (f : T -> result U) (e : exn) (x : T) (l : list T) :
  f x = Raise e -> mapM f (x :: l) = Raise e.
Proof.
  intros H. simpl. rewrite H. reflexivity.
Qed.

Lemma flat_map_map {T U V : Type} (g : T -> U) (h : U -> list V) (xs : list T) :
  flat_map h (map g xs) = flat_map (fun y => h (g y)) xs.
Proof.
  induction xs as [|y xs IH]; simpl; [reflexivity|]. rewrite IH. reflexivity.
Qed.

Lemma flat_map_map_inner {T U V : Type} (g : T -> U) (h : nat -> U -> list V)
    (xs : list T) (n : nat) :
  flat_map (fun o => flat_map (h o) (map g xs)) (seq 0 n)
  = flat_map (fun o => flat_map (fun y => h o (g y)) xs) (seq 0 n).
Proof.
  apply flat_map_ext. intros o. apply flat_map_map.
Qed.

Lemma list_sum_const {T : Type} (c : nat) (xs : list T) :
  (forall y, In y xs -> True) -> list_sum (map (fun _ => c) xs) = length xs * c.
Proof.
  intros _. induction xs as [|y xs IH]; simpl; [reflexivity|]. rewrite IH. reflexivity.
Qed.

Lemma seq_head (n : nat) : 1 <= n -> seq 0 n = 0 :: seq 1 (n - 1).
Proof.
  intros H. destruct n; [lia|]. simpl. rewrite Nat.sub_0_r. reflexivity.
Qed.

(** Stacking matrices of one shape along a new middle axis. *)
Lemma torch_stack_rows {T : Type} (b m : nat) (ts : list (Tensor T)) :
  ts <> [] ->
  (forall t, In t ts -> shape t = [b; m]) ->
  torch_stack ts 1
  = Ok (mkTensor [b; length ts; m]
          (flat_map (fun o => flat_map (fun t => chunk m o (data t)) ts) (seq 0 b))).
Proof.
  intros Hne Hs. destruct ts as [|t0 ts']; [congruence|].
  unfold torch_stack.
  assert (H0 : shape t0 = [b; m]) by (apply Hs; simpl; auto).
  change 1%Z with (Z.of_nat 1).
  rewrite norm_dim_nat by (unfold dim; rewrite H0; simpl; lia).
  replace (forallb _ _) with true.
  - assert (Hu : forall t, In t (t0 :: ts') -> shape (unsqueeze_at 1 t) = [b; 1; m]).
    { intros t Ht. unfold unsqueeze_at. rewrite (Hs t Ht). reflexivity. }
    cbn [require bind]. unfold cat_at.
    rewrite (Hu t0) by (simpl; auto).
    cbn [shape firstn skipn app numel fold_right].
    f_equal. f_equal.
    + do 2 f_equal. rewrite map_map.
      rewrite map_ext_in with (g := fun _ => 1).
      * rewrite list_sum_const by auto. lia.
      * intros t Ht. rewrite (Hu t Ht). reflexivity.
    + rewrite Nat.mul_1_r. apply flat_map_ext. intros o.
      rewrite flat_map_map. apply flat_map_ext_in. intros t Ht.
      rewrite (Hu t Ht).
      cbn [unsqueeze_at shape data firstn skipn app numel fold_right].
      f_equal. lia.
  - symmetry. apply forallb_forall. intros t Ht.
    rewrite H0, (Hs t Ht). apply list_eqb_refl.
Qed.

Lemma chunk_chunk {T : Type} (m n o i : nat) (xs : list T) :
  i < n -> chunk m i (chunk (n * m) o xs) = chunk m (o * n + i) xs.
Proof.
  intros H. unfold chunk.
  rewrite skipn_firstn_comm, firstn_firstn, skipn_skipn.
  f_equal; [nia | f_equal; nia].
Qed.

Lemma chunk_split {T : Type} (m n o : nat) (xs : list T) :
  (o + 1) * (n * m) <= length xs ->
  chunk (n * m) o xs = flat_map (fun j => chunk m (o * n + j) xs) (seq 0 n).
Proof.
  intros H.
  rewrite <- (flat_map_chunk m n (chunk (n * m) o xs)) at 1
    by (apply length_chunk; exact H).
  apply flat_map_ext_in. intros j Hj. apply in_seq in Hj.
  apply chunk_chunk. lia.
Qed.

Lemma flat_map_repeat {T U : Type} (z : U) (k : nat) (xs : list T) :
  flat_map (fun _ => repeat z k) xs = repeat z (length xs * k).
Proof.
  induction xs as [|y xs IH]; simpl; [reflexivity|].
  rewrite IH, repeat_app. reflexivity.
Qed.

Lemma seq_shift_add (i n : nat) : seq i n = map (fun k => i + k) (seq 0 n).
Proof.
  revert i. induction n as [|n IH]; intros i; simpl; [reflexivity|].
  rewrite Nat.add_0_r. f_equal. rewrite (IH (S i)), (IH 1), map_map.
  apply map_ext. intros k. lia.
Qed.

(** Whole blocks taken from the middle of a list of blocks. *)
Lemma firstn_skipn_blocks {U : Type} (g : nat -> list U) (k i n N : nat) :
  (forall j, j < N -> length (g j) = k) ->
  i + n <= N ->
  firstn (n * k) (skipn (i * k) (flat_map g (seq 0 N))) = flat_map g (seq i n).
Proof.
  intros Hg H.
  replace N with (i + (n + (N - i - n))) by lia.
  rewrite !seq_app, !flat_map_app. simpl.
  assert (Hlen : forall a c, a + c <= N -> length (flat_map g (seq a c)) = c * k).
  { intros a c Hac. rewrite flat_map_constant_length with (c := k).
    - rewrite length_seq. reflexivity.
    - intros j Hj. apply in_seq in Hj. apply Hg. lia. }
  rewrite skipn_app, skipn_all2 by (rewrite Hlen; lia).
  rewrite Hlen by lia. rewrite Nat.sub_diag. simpl.
  rewrite firstn_app, Hlen, Nat.sub_diag by lia. simpl.
  rewrite app_nil_r. apply firstn_all2. rewrite Hlen; lia.
Qed.

Lemma block_bound (b l f o j : nat) :
  o < b -> j < l -> (o * l + j + 1) * f <= b * l * f.
Proof.
  intros Ho Hj. apply Nat.mul_le_mono_r.
  assert (o * l + l <= b * l) by nia. lia.
Qed.

Lemma row_bound (b k o : nat) : o < b -> (o + 1) * k <= b * k.
Proof.
  intros Ho. apply Nat.mul_le_mono_r. lia.
Qed.

(** ** ContextWindow *)

Section ContextWindowFacts.
Context {A : Type}.
Variable zero : A.
Variables w b l f : nat.
Variable d : list A.

Local Abbreviation x := (mkTensor [b; l; f] d).

(** The input with [w] zero frames on one side of each sequence. *)
Lemma pad_eq (n : nat) (e : list A) (pad_first : bool) :
  ContextWindow._pad zero w (mkTensor [b; n; f] e) pad_first
  = Ok (mkTensor [b; n + w; f]
          (flat_map
             (fun o => if pad_first
                       then chunk (w * f) o (repeat zero (b * (w * f)))
                              ++ chunk (n * f) o e
                       else chunk (n * f) o e
                              ++ chunk (w * f) o (repeat zero (b * (w * f))))
             (seq 0 b))).
Proof.
  unfold ContextWindow._pad, ContextWindow._get_padding_for.
  cbn [dim shape length Nat.eqb Nat.leb py_assert bind].
  rewrite size_0, size_2. cbn [bind].
  assert (Hk : forall s (e' : list A), norm_dim (dim (mkTensor [b; s; f] e')) 1 = Some 1).
  { intros. change 1%Z with (Z.of_nat 1). apply norm_dim_nat. unfold dim. simpl. lia. }
  assert (Hl : forall t : Tensor A, dim t = 3 -> legacy_empty t = false).
  { intros t Ht. apply legacy_empty_rank. lia. }
  destruct pad_first.
  - rewrite torch_cat_ok with (k := 1).
    + unfold cat_at, ContextWindow.new_zeros. cbn [shape data firstn skipn map nth list_sum app numel fold_right].
      f_equal. f_equal.
      * do 2 f_equal. lia.
      * rewrite !Nat.mul_1_r. apply flat_map_ext. intros o.
        cbn [flat_map shape data skipn numel fold_right].
        rewrite app_nil_r, ?Nat.mul_1_r. reflexivity.
    + intros t [<-|[<-|[]]]; apply Hl; reflexivity.
    + apply Hk.
    + unfold ContextWindow.new_zeros, cat_compatible.
      cbn [forallb shape firstn skipn length].
      rewrite !list_eqb_refl. reflexivity.
  - rewrite torch_cat_ok with (k := 1).
    + unfold cat_at, ContextWindow.new_zeros. cbn [shape data firstn skipn map nth list_sum app numel fold_right].
      f_equal. f_equal.
      * do 2 f_equal. lia.
      * rewrite !Nat.mul_1_r. apply flat_map_ext. intros o.
        cbn [flat_map shape data skipn numel fold_right].
        rewrite app_nil_r, ?Nat.mul_1_r. reflexivity.
    + intros t [<-|[<-|[]]]; apply Hl; reflexivity.
    + apply Hk.
    + unfold ContextWindow.new_zeros, cat_compatible.
      cbn [forallb shape firstn skipn length].
      rewrite !list_eqb_refl. reflexivity.
Qed.

Local Abbreviation padded_twice := (ContextWindowTrace.padded_twice zero w b l f d).
Local Abbreviation window_at := (ContextWindowTrace.window_at zero w b l f d).
Local Abbreviation stacked := (ContextWindowTrace.stacked zero w b l f d).

Lemma temp_eq (i : nat) :
  i < l ->
  (s <- getitem_slice1 (mkTensor [b; l + w + w; f] padded_twice) i (i + 2 * w + 1) ;;
   view s [Z.of_nat b; (-1)%Z])
  = if 0 <? b then Ok (mkTensor [b; (2 * w + 1) * f] (window_at i))
    else Raise RuntimeError.
Proof.
  intros Hi. unfold getitem_slice1.
  cbn [shape data bind numel fold_right].
  unfold slice_len, slice_lo.
  replace (Nat.min (i + 2 * w + 1) (l + w + w) - Nat.min i (l + w + w))
    with (2 * w + 1) by lia.
  replace (Nat.min i (l + w + w)) with i by lia.
  rewrite !Nat.mul_1_r.
  unfold view. cbn [shape data numel fold_right].
  rewrite infer_size_rows.
  destruct (0 <? b) eqn:Hb; [|reflexivity].
  apply Nat.ltb_lt in Hb.
  replace (b * ((2 * w + 1) * (f * 1))) with ((2 * w + 1) * f * b) by lia.
  rewrite Nat.Div0.mod_mul, Nat.div_mul by lia.
  reflexivity.
Qed.

(** What [forward] computes when the window is not empty. *)
Lemma forward_eq :
  1 <= w ->
  ContextWindow.forward zero w x
  = if (0 <? b) && (0 <? l)
    then Ok (mkTensor [b; l; (2 * w + 1) * f] stacked)
    else Raise RuntimeError.
Proof.
  intros Hw. unfold ContextWindow.forward.
  cbn [dim shape length Nat.eqb py_assert bind].
  destruct (Nat.eqb_spec w 0) as [E|_]; [lia|].
  rewrite size_0, size_1. cbn [bind].
  rewrite pad_eq. cbn [bind]. rewrite pad_eq. cbn [bind].
  fold (ContextWindowTrace.padded_once zero w b l f d).
  fold padded_twice.
  destruct (0 <? l) eqn:Hl.
  - apply Nat.ltb_lt in Hl. destruct (0 <? b) eqn:Hb.
    + rewrite mapM_ok
        with (g := fun i => mkTensor [b; (2 * w + 1) * f] (window_at i)).
      * cbn [bind andb]. rewrite torch_stack_rows with (b := b) (m := (2 * w + 1) * f).
        -- rewrite length_map, length_seq, flat_map_map_inner. reflexivity.
        -- intros E. apply (f_equal (@length _)) in E.
           rewrite length_map, length_seq in E. simpl in E. lia.
        -- intros t Ht. apply in_map_iff in Ht. destruct Ht as (i & <- & _).
           reflexivity.
      * intros i Hi. apply in_seq in Hi. rewrite temp_eq by lia.
        rewrite Hb. reflexivity.
    + rewrite (@seq_head l) by lia.
      erewrite mapM_raise; [reflexivity|].
      rewrite temp_eq by lia. rewrite Hb. reflexivity.
  - apply Nat.ltb_ge in Hl. replace (seq 0 l) with (@nil nat)
      by (replace l with 0 by lia; reflexivity).
    rewrite andb_false_r. reflexivity.
Qed.

Local Abbreviation frame_or_zero := (ContextWindowTrace.frame_or_zero zero l f d).
Local Abbreviation context := (ContextWindowTrace.context zero w l f d).

Hypothesis Hwf : length d = b * l * f.

Lemma length_frame_or_zero (o : nat) (j : Z) :
  o < b -> length (frame_or_zero o j) = f.
Proof.
  intros Ho. unfold ContextWindowTrace.frame_or_zero.
  destruct ((0 <=? j)%Z && (j <? Z.of_nat l)%Z) eqn:E.
  - apply andb_prop in E. destruct E as [E1 E2].
    apply Z.leb_le in E1. apply Z.ltb_lt in E2.
    unfold ContextWindowTrace.frame. apply length_chunk. rewrite Hwf.
    apply block_bound; [assumption | lia].
  - apply repeat_length.
Qed.

Lemma chunk_padded_once (o : nat) :
  o < b ->
  chunk ((l + w) * f) o (ContextWindowTrace.padded_once zero w b l f d)
  = repeat zero (w * f) ++ chunk (l * f) o d.
Proof.
  intros Ho. unfold ContextWindowTrace.padded_once.
  assert (Hz : forall i, i < b ->
              chunk (w * f) i (repeat zero (b * (w * f))) = repeat zero (w * f)).
  { intros i Hi. apply chunk_repeat. apply row_bound. assumption. }
  rewrite chunk_flat_map_seq.
  - rewrite Hz by assumption. reflexivity.
  - intros i Hi. rewrite Hz by assumption.
    rewrite length_app, repeat_length, length_chunk
      by (rewrite Hwf, <- Nat.mul_assoc; apply row_bound; assumption).
    lia.
  - assumption.
Qed.

Lemma chunk_padded_twice (o : nat) :
  o < b ->
  chunk ((l + w + w) * f) o padded_twice
  = repeat zero (w * f) ++ chunk (l * f) o d ++ repeat zero (w * f).
Proof.
  intros Ho. unfold ContextWindowTrace.padded_twice.
  assert (Hz : forall i, i < b ->
              chunk (w * f) i (repeat zero (b * (w * f))) = repeat zero (w * f)).
  { intros i Hi. apply chunk_repeat. apply row_bound. assumption. }
  rewrite chunk_flat_map_seq.
  - rewrite Hz, chunk_padded_once by assumption. rewrite <- app_assoc. reflexivity.
  - intros i Hi. rewrite Hz, chunk_padded_once by assumption.
    rewrite !length_app, !repeat_length, length_chunk
      by (rewrite Hwf, <- Nat.mul_assoc; apply row_bound; assumption).
    lia.
  - assumption.
Qed.

(** A padded sequence is its frames at the time steps [-w .. l + w - 1]. *)
Lemma padded_row_frames (o : nat) :
  o < b ->
  repeat zero (w * f) ++ chunk (l * f) o d ++ repeat zero (w * f)
  = flat_map (fun j => frame_or_zero o (Z.of_nat j - Z.of_nat w)%Z)
             (seq 0 (w + (l + w))).
Proof.
  intros Ho. rewrite !seq_app, !flat_map_app. simpl. f_equal; [|f_equal].
  - transitivity (flat_map (fun _ : nat => repeat zero f) (seq 0 w));
      [rewrite flat_map_repeat, length_seq; reflexivity|].
    apply flat_map_ext_in. intros j Hj. apply in_seq in Hj.
    unfold ContextWindowTrace.frame_or_zero.
    replace (0 <=? Z.of_nat j - Z.of_nat w)%Z with false
      by (symmetry; apply Z.leb_gt; lia).
    reflexivity.
  - rewrite chunk_split
      by (rewrite Hwf, <- Nat.mul_assoc; apply row_bound; assumption).
    rewrite (seq_shift_add w l), flat_map_map.
    apply flat_map_ext_in. intros j Hj. apply in_seq in Hj.
    unfold ContextWindowTrace.frame_or_zero, ContextWindowTrace.frame.
    replace ((0 <=? Z.of_nat (w + j) - Z.of_nat w)%Z
             && (Z.of_nat (w + j) - Z.of_nat w <? Z.of_nat l)%Z) with true.
    + f_equal. lia.
    + symmetry. apply andb_true_intro.
      split; [apply Z.leb_le | apply Z.ltb_lt]; lia.
  - transitivity (flat_map (fun _ : nat => repeat zero f) (seq (w + l) w));
      [rewrite flat_map_repeat, length_seq; reflexivity|].
    apply flat_map_ext_in. intros j Hj. apply in_seq in Hj.
    unfold ContextWindowTrace.frame_or_zero.
    replace (Z.of_nat j - Z.of_nat w <? Z.of_nat l)%Z with false
      by (symmetry; apply Z.ltb_ge; lia).
    rewrite andb_false_r. reflexivity.
Qed.

(** The slice of sequence [o] at time step [i] is the context of [i]. *)
Lemma window_row (o i : nat) :
  o < b -> i < l ->
  firstn ((2 * w + 1) * f) (skipn (i * f) (chunk ((l + w + w) * f) o padded_twice))
  = context o i.
Proof.
  intros Ho Hi.
  rewrite chunk_padded_twice, padded_row_frames by assumption.
  rewrite firstn_skipn_blocks.
  - unfold ContextWindowTrace.context.
    rewrite (seq_shift_add i (2 * w + 1)), flat_map_map.
    apply flat_map_ext. intros k. f_equal. lia.
  - intros j _. apply length_frame_or_zero. assumption.
  - lia.
Qed.

Lemma length_context (o i : nat) :
  o < b -> length (context o i) = (2 * w + 1) * f.
Proof.
  intros Ho. unfold ContextWindowTrace.context.
  rewrite flat_map_constant_length with (c := f).
  - rewrite length_seq. reflexivity.
  - intros k _. apply length_frame_or_zero. assumption.
Qed.

Lemma window_at_eq (i : nat) :
  i < l -> window_at i = flat_map (fun o => context o i) (seq 0 b).
Proof.
  intros Hi. unfold ContextWindowTrace.window_at.
  apply flat_map_ext_in. intros o Ho. apply in_seq in Ho.
  apply window_row; lia.
Qed.

Lemma chunk_window_at (o i : nat) :
  o < b -> i < l ->
  chunk ((2 * w + 1) * f) o (window_at i) = context o i.
Proof.
  intros Ho Hi. rewrite window_at_eq by assumption.
  apply chunk_flat_map_seq with (f := fun o0 => context o0 i); [|assumption].
  intros o' Ho'. apply length_context. assumption.
Qed.

(** The result holds, sequence by sequence and time step by time step,
    the context of that time step. *)
Lemma stacked_eq :
  stacked = flat_map (fun o => flat_map (fun i => context o i) (seq 0 l)) (seq 0 b).
Proof.
  unfold ContextWindowTrace.stacked.
  apply flat_map_ext_in. intros o Ho. apply in_seq in Ho.
  apply flat_map_ext_in. intros i Hi. apply in_seq in Hi.
  apply chunk_window_at; lia.
Qed.

Lemma length_stacked : length stacked = b * l * ((2 * w + 1) * f).
Proof.
  rewrite stacked_eq.
  rewrite flat_map_constant_length with (c := l * ((2 * w + 1) * f)).
  - rewrite length_seq. lia.
  - intros o Ho. apply in_seq in Ho.
    rewrite flat_map_constant_length with (c := (2 * w + 1) * f).
    + rewrite length_seq. reflexivity.
    + intros i _. apply length_context. lia.
Qed.

(** The frame of the result at sequence [o] and time step [i]. *)
Lemma stacked_frame (o i : nat) :
  o < b -> i < l ->
  chunk ((2 * w + 1) * f) (o * l + i) stacked = context o i.
Proof.
  intros Ho Hi. rewrite <- chunk_chunk by assumption.
  rewrite stacked_eq.
  rewrite chunk_flat_map_seq
    with (f := fun o0 => flat_map (fun i0 => context o0 i0) (seq 0 l)).
  - apply chunk_flat_map_seq with (f := fun i0 => context o i0); [|assumption].
    intros i' _. apply length_context. assumption.
  - intros o' Ho'. rewrite flat_map_constant_length with (c := (2 * w + 1) * f).
    + rewrite length_seq. reflexivity.
    + intros i' _. apply length_context. assumption.
  - assumption.
Qed.

End ContextWindowFacts.

(** C2, amended: for an input of shape [(b, l, f)] with at least one
    sequence and at least one time step, and a window [w > 0],
    [ContextWindow.forward] returns a tensor of shape
    [(b, l, (2w+1) * f)] whose vector at sequence [o] and time step [i] is
    the frames [i - w .. i + w] of sequence [o] side by side, a frame outside
    [0, l) being all zeros. *)
Theorem ContextWindow_forward_windows (A : Type) (zero : A) (w b l f : nat)
    (d : list A) :
  length d = b * l * f -> 1 <= w -> 1 <= b -> 1 <= l ->
  exists out,
    ContextWindow.forward zero w (mkTensor [b; l; f] d) = Ok out
    /\ shape out = [b; l; (2 * w + 1) * f]
    /\ wf out
    /\ forall o i, o < b -> i < l ->
         chunk ((2 * w + 1) * f) (o * l + i) (data out)
         = ContextWindowTrace.context zero w l f d o i.
Proof.
  intros Hwf Hw Hb Hl.
  exists (mkTensor [b; l; (2 * w + 1) * f] (ContextWindowTrace.stacked zero w b l f d)).
  split; [|split; [|split]].
  - rewrite forward_eq by assumption.
    replace (0 <? b) with true by (symmetry; apply Nat.ltb_lt; lia).
    replace (0 <? l) with true by (symmetry; apply Nat.ltb_lt; lia).
    reflexivity.
  - reflexivity.
  - unfold wf. cbn [data shape numel fold_right].
    rewrite length_stacked by assumption. lia.
  - intros o i Ho Hi. cbn [data]. apply stacked_frame; assumption.
Qed.

Lemma ContextWindow_forward_windows_witness :
  exists out,
    ContextWindow.forward 0%Z 1 (mkTensor [1; 2; 1] [7; 8]%Z) = Ok out
    /\ shape out = [1; 2; (2 * 1 + 1) * 1]
    /\ wf out
    /\ forall o i, o < 1 -> i < 2 ->
         chunk ((2 * 1 + 1) * 1) (o * 2 + i) (data out)
         = ContextWindowTrace.context 0%Z 1 2 1 [7; 8]%Z o i.
Proof.
  apply (@ContextWindow_forward_windows Z 0%Z 1 1 2 1 [7; 8]%Z); simpl; lia.
Defined.

(** C2 as stated fails: on a rank-3 input without sequences the call
    raises, it returns no tensor. *)
Lemma ContextWindow_forward_windows_counterexample :
  dim (mkTensor [0; 1; 1] (@nil Z)) = 3
  /\ ContextWindow.forward 0%Z 1 (mkTensor [0; 1; 1] (@nil Z)) = Raise RuntimeError.
Proof.
  split; reflexivity.
Qed.

(** C6, amended: on a rank-3 input [ContextWindow.forward] returns a tensor
    exactly when the window is 0 or the input has at least one sequence and
    at least one time step; otherwise the framework raises in [view] or
    [torch.stack], past the rank assertion. *)
Theorem ContextWindow_forward_succeeds (A : Type) (zero : A) (w b l f : nat)
    (d : list A) :
  (is_ok (ContextWindow.forward zero w (mkTensor [b; l; f] d)) = true
   <-> w = 0 \/ (1 <= b /\ 1 <= l))
  /\ (is_ok (ContextWindow.forward zero w (mkTensor [b; l; f] d)) = false
      -> ContextWindow.forward zero w (mkTensor [b; l; f] d) = Raise RuntimeError).
Proof.
  destruct (Nat.eq_dec w 0) as [->|Hw].
  - change (ContextWindow.forward zero 0 (mkTensor [b; l; f] d))
      with (Ok (mkTensor [b; l; f] d)).
    simpl. split; [split; auto | discriminate].
  - rewrite forward_eq by lia.
    destruct (Nat.ltb_spec 0 b) as [Hb|Hb]; destruct (Nat.ltb_spec 0 l) as [Hl|Hl];
      cbn [andb is_ok].
    + split; [split; [intros _; right; lia | reflexivity] | discriminate].
    + split; [split; [discriminate | intros [?|[? ?]]; lia] | reflexivity].
    + split; [split; [discriminate | intros [?|[? ?]]; lia] | reflexivity].
    + split; [split; [discriminate | intros [?|[? ?]]; lia] | reflexivity].
Qed.

(** C6 as stated fails: a rank-3 input of sequence length 0 and a window of 1
    pass the assertion, and [torch.stack] of no tensors raises. *)
Lemma ContextWindow_forward_succeeds_counterexample :
  dim (mkTensor [1; 0; 1] (@nil Z)) = 3
  /\ ContextWindow.forward 0%Z 1 (mkTensor [1; 0; 1] (@nil Z)) = Raise RuntimeError.
Proof.
  split; reflexivity.
Qed.

(** ** Concatenate *)

Lemma mapM_map_ok {T U : Type} (f : T -> result U) (l : list T) (res : list U) :
  map f l = map Ok res -> mapM f l = Ok res.
Proof.
  revert res. induction l as [|x l IH]; intros [|r res] H; simpl in *;
    try discriminate; [reflexivity|].
  injection H as Hx Hl. rewrite Hx, (IH res Hl). reflexivity.
Qed.

Lemma nth_last {T : Type} (l : list T) (k : nat) (d : T) :
  length l = S k -> nth k l d = last l d.
Proof.
  revert k. induction l as [|x l IH]; intros k H; simpl in H; [discriminate|].
  destruct l as [|y l].
  - simpl in H. injection H as <-. reflexivity.
  - destruct k as [|k]; [simpl in H; discriminate|].
    change (nth k (y :: l) d = last (y :: l) d). apply IH. simpl in *. lia.
Qed.

Lemma norm_dim_last_inv (rank k : nat) :
  norm_dim rank (-1) = Some k -> S k = rank.
Proof.
  unfold norm_dim. simpl.
  destruct (- Z.of_nat rank <=? -1)%Z eqn:E; simpl; [|discriminate].
  apply Z.leb_le in E. intros [= <-]. lia.
Qed.

Lemma cat_compatible_inv (k : nat) (s0 s : list nat) :
  cat_compatible k s0 s = true ->
  firstn k s0 = firstn k s /\ skipn (S k) s0 = skipn (S k) s /\ length s0 = length s.
Proof.
  unfold cat_compatible. intros H.
  apply andb_prop in H. destruct H as [H H3].
  apply andb_prop in H. destruct H as [H1 H2].
  apply list_eqb_eq in H1. apply list_eqb_eq in H2. apply Nat.eqb_eq in H3.
  auto.
Qed.

Lemma list_sum_filter {T : Type} (g : T -> nat) (p : T -> bool) (l : list T) :
  (forall x, In x l -> p x = false -> g x = 0) ->
  list_sum (map g (filter p l)) = list_sum (map g l).
Proof.
  induction l as [|x l IH]; intros H; simpl; [reflexivity|].
  destruct (p x) eqn:E; simpl; rewrite IH by (intros; apply H; simpl; auto).
  - reflexivity.
  - rewrite (H x) by (simpl; auto). reflexivity.
Qed.

Lemma flat_map_filter {T U : Type} (g : T -> list U) (p : T -> bool) (l : list T) :
  (forall x, In x l -> p x = false -> g x = []) ->
  flat_map g (filter p l) = flat_map g l.
Proof.
  induction l as [|x l IH]; intros H; simpl; [reflexivity|].
  destruct (p x) eqn:E; simpl; rewrite IH by (intros; apply H; simpl; auto).
  - reflexivity.
  - rewrite (H x) by (simpl; auto). reflexivity.
Qed.

Lemma legacy_empty_shape {T : Type} (t : Tensor T) :
  negb (legacy_empty t) = false -> shape t = [0].
Proof.
  intros H. apply negb_false_iff in H. apply list_eqb_eq in H. exact H.
Qed.

Lemma filter_nil_all {T : Type} (p : T -> bool) (l : list T) :
  filter p l = [] -> forall x, In x l -> p x = false.
Proof.
  induction l as [|y l IH]; intros H x Hx; simpl in *; [contradiction|].
  destruct (p y) eqn:E; [discriminate|].
  destruct Hx as [<-|Hx]; auto.
Qed.

(** The last axis of a concatenation along the last axis. *)
Lemma torch_cat_last_size {T : Type} (res : list (Tensor T)) (out : Tensor T) :
  torch_cat res (-1) = Ok out ->
  last_size out = list_sum (map last_size res).
Proof.
  unfold torch_cat. destruct res as [|t1 rest]; [discriminate|].
  set (ts := t1 :: rest).
  assert (Hskip : forall t, In t ts -> negb (legacy_empty t) = false -> last_size t = 0).
  { intros t _ Ht. unfold last_size. rewrite (legacy_empty_shape t Ht). reflexivity. }
  rewrite <- (list_sum_filter last_size (fun t => negb (legacy_empty t)) ts Hskip).
  destruct (filter (fun t => negb (legacy_empty t)) ts) as [|t0 ts'] eqn:Hf.
  - intros [= <-]. apply Hskip; [simpl; auto|].
    apply (filter_nil_all _ _ Hf). simpl. auto.
  - destruct (norm_dim (dim t0) (-1)) as [k|] eqn:Hk; [|discriminate].
    apply norm_dim_last_inv in Hk.
    destruct (forallb _ _) eqn:Hc; [|discriminate].
    intros [= <-]. unfold last_size at 1, cat_at. cbn [shape].
    rewrite (skipn_all2 (shape t0)) by (unfold dim in Hk; lia).
    cbn [app]. rewrite last_last. f_equal. apply map_ext_in. intros t Ht.
    rewrite forallb_forall in Hc. specialize (Hc t Ht).
    apply cat_compatible_inv in Hc. destruct Hc as (_ & _ & Hlen).
    unfold last_size. apply nth_last. unfold dim in Hk. lia.
Qed.

Lemma firstn_front {T : Type} (l r : list T) : firstn (length l) (l ++ r) = l.
Proof.
  rewrite firstn_app, Nat.sub_diag, firstn_all. simpl. apply app_nil_r.
Qed.

Lemma skipn_front {T : Type} (l r : list T) : skipn (length l) (l ++ r) = r.
Proof.
  rewrite skipn_app, Nat.sub_diag, skipn_all. reflexivity.
Qed.

Lemma flat_map_nil {T U : Type} (g : T -> list U) (l : list T) :
  (forall x, In x l -> g x = []) -> flat_map g l = [].
Proof.
  induction l as [|x l IH]; intros H; simpl; [reflexivity|].
  rewrite (H x), IH; simpl; auto.
  intros y Hy. apply H. simpl. auto.
Qed.

(** Results that agree on all axes but the last are concatenated: for every
    index of the leading axes, the last-axis vectors of the results in
    order. *)
Lemma torch_cat_last_eq {T : Type} (res : list (Tensor T)) (front : list nat) :
  res <> [] ->
  (forall t, In t res -> wf t /\ exists n, shape t = front ++ [n]) ->
  torch_cat res (-1)
  = Ok (mkTensor (front ++ [list_sum (map last_size res)])
          (flat_map
             (fun o => flat_map (fun t => chunk (last_size t) o (data t)) res)
             (seq 0 (numel front)))).
Proof.
  intros Hne Hres. destruct res as [|t1 rest]; [congruence|].
  set (ts := t1 :: rest) in *.
  assert (Hs : forall t, In t ts -> shape t = front ++ [last_size t]).
  { intros t Ht. destruct (Hres t Ht) as (_ & n & Hn).
    unfold last_size. rewrite Hn, last_last. reflexivity. }
  assert (Hskip : forall t, In t ts -> negb (legacy_empty t) = false -> last_size t = 0).
  { intros t _ Ht. unfold last_size. rewrite (legacy_empty_shape t Ht). reflexivity. }
  unfold torch_cat. fold ts.
  rewrite <- (list_sum_filter last_size (fun t => negb (legacy_empty t)) ts Hskip).
  rewrite <- (flat_map_ext
                (fun o => flat_map (fun t => chunk (last_size t) o (data t))
                            (filter (fun t => negb (legacy_empty t)) ts))).
  2:{ intros o. apply flat_map_filter. intros t Ht Hp.
      rewrite (Hskip t Ht Hp). reflexivity. }
  destruct (filter (fun t => negb (legacy_empty t)) ts) as [|t0 ts'] eqn:Hf.
  - assert (H1 : In t1 ts) by (simpl; auto).
    pose proof (legacy_empty_shape t1 (filter_nil_all _ _ Hf t1 H1)) as E1.
    destruct (Hres t1 H1) as (Hwf1 & n & Hn). rewrite E1 in Hn.
    destruct front as [|a front]; [|destruct front; discriminate].
    unfold wf in Hwf1. rewrite E1 in Hwf1. simpl in Hwf1.
    destruct t1 as [s1 d1]. simpl in E1, Hwf1. subst s1.
    destruct d1; [|discriminate]. reflexivity.
  - assert (Hin : forall t, In t (t0 :: ts') -> In t ts).
    { intros t Ht. rewrite <- Hf in Ht. apply filter_In in Ht. tauto. }
    assert (H0 : shape t0 = front ++ [last_size t0]) by (apply Hs, Hin; simpl; auto).
    rewrite (norm_dim_last (rank := dim t0)) by (unfold dim; rewrite H0, length_app; simpl; lia).
    replace (dim t0 - 1) with (length front)
      by (unfold dim; rewrite H0, length_app; simpl; lia).
    replace (forallb _ _) with true.
    + unfold ts at 1. cbn [require bind]. unfold cat_at. rewrite H0.
      rewrite firstn_front.
      replace (skipn (S (length front)) (front ++ [last_size t0])) with (@nil nat)
        by (symmetry; apply skipn_all2; rewrite length_app; simpl; lia).
      f_equal. f_equal.
      * cbn [app]. do 3 f_equal. apply map_ext_in. intros t Ht.
        rewrite (Hs t (Hin t Ht)) at 1.
        rewrite app_nth2, Nat.sub_diag by lia. reflexivity.
      * apply flat_map_ext. intros o. apply flat_map_ext_in. intros t Ht.
        rewrite (Hs t (Hin t Ht)) at 1. rewrite skipn_front.
        cbn [numel fold_right]. rewrite Nat.mul_1_r. reflexivity.
    + symmetry. apply forallb_forall. intros t Ht.
      unfold cat_compatible. rewrite H0, (Hs t (Hin t Ht)).
      rewrite !firstn_front.
      rewrite !skipn_all2 by (rewrite length_app; simpl; lia).
      rewrite !list_eqb_refl, !length_app. simpl. apply Nat.eqb_refl.
Qed.

(** C7, amended: [Concatenate.forward] fails its precondition assertion
    when the number of inputs differs from the number of sub-modules.
    Otherwise, when sub-module [k] returns [res_k] on input [k] for every
    [k], it returns [torch.cat(res, dim=-1)]: whenever that is a tensor its
    last axis is the sum of the last axes of the results, and it is the
    tensor of the results side by side along the last axis whenever there is
    at least one result and the results agree on the other axes. *)
Theorem Concatenate_forward_spec (A B : Type)
    (modules : list (Tensor A -> result (Tensor B))) (inputs : list (Tensor A)) :
  (length inputs <> length modules ->
   Concatenate.forward modules inputs = Raise AssertionError)
  /\ (length inputs = length modules ->
      forall res,
        map (fun mi => fst mi (snd mi)) (combine modules inputs) = map Ok res ->
        Concatenate.forward modules inputs = torch_cat res (-1)
        /\ (forall out, Concatenate.forward modules inputs = Ok out ->
              last_size out = list_sum (map last_size res))
        /\ (forall front,
              res <> [] ->
              (forall t, In t res -> wf t /\ exists n, shape t = front ++ [n]) ->
              Concatenate.forward modules inputs
              = Ok (mkTensor (front ++ [list_sum (map last_size res)])
                      (flat_map
                         (fun o => flat_map
                                     (fun t => chunk (last_size t) o (data t)) res)
                         (seq 0 (numel front)))))).
Proof.
  split.
  - intros H. unfold Concatenate.forward.
    apply Nat.eqb_neq in H. rewrite H. reflexivity.
  - intros H res Hres. unfold Concatenate.forward.
    rewrite H, Nat.eqb_refl. cbn [py_assert bind].
    rewrite mapM_map_ok with (res := res) by exact Hres. cbn [bind].
    assert (E : forall r : result (Tensor B), (outputs <- r ;; Ok outputs) = r)
      by (intros [v|e]; reflexivity).
    rewrite E. split; [reflexivity|split].
    + apply torch_cat_last_size.
    + intros front Hne Hsh. apply torch_cat_last_eq; assumption.
Qed.

Lemma Concatenate_forward_spec_witness :
  Concatenate.forward [fun y : Tensor Z => Ok y; fun y => Ok y]
    [mkTensor [1; 2] [1; 2]%Z; mkTensor [1; 1] [3]%Z]
  = Ok (mkTensor [1; 3] [1; 2; 3]%Z).
Proof.
  pose proof (@Concatenate_forward_spec Z Z
                [fun y : Tensor Z => Ok y; fun y => Ok y]
                [mkTensor [1; 2] [1; 2]%Z; mkTensor [1; 1] [3]%Z]) as [_ H].
  destruct (H eq_refl [mkTensor [1; 2] [1; 2]%Z; mkTensor [1; 1] [3]%Z] eq_refl)
    as (_ & _ & H3).
  rewrite (H3 [1]).
  - reflexivity.
  - discriminate.
  - intros t [<-|[<-|[]]]; (split; [reflexivity|]).
    + exists 2. reflexivity.
    + exists 1. reflexivity.
Defined.

(** C7 as stated fails: with no sub-modules and no inputs the numbers agree,
    and the call still fails, in [torch.cat] of an empty list. *)
Lemma Concatenate_forward_spec_counterexample :
  length (@nil (Tensor Z)) = length (@nil (Tensor Z -> result (Tensor Z)))
  /\ Concatenate.forward (@nil (Tensor Z -> result (Tensor Z))) [] = Raise RuntimeError.
Proof.
  split; reflexivity.
Qed.

(** ** CNNEncoder *)

Lemma unsqueeze_1 {T : Type} (b : nat) (s : list nat) (d : list T) :
  unsqueeze 1 (mkTensor (b :: s) d) = Ok (mkTensor (b :: 1 :: s) d).
Proof.
  unfold unsqueeze. change 1%Z with (Z.of_nat 1).
  rewrite norm_dim_nat by (unfold dim; simpl; lia). reflexivity.
Qed.

Lemma nth_chunk {T : Type} (k o i : nat) (l : list T) (d : T) :
  i < k -> nth i (chunk k o l) d = nth (o * k + i) l d.
Proof.
  intros H. unfold chunk. rewrite nth_firstn, nth_skipn.
  replace (i <? k) with true by (symmetry; apply Nat.ltb_lt; exact H).
  reflexivity.
Qed.

Lemma nth_blocks {T : Type} (g : nat -> list T) (k n o j : nat) (d : T) :
  (forall i, i < n -> length (g i) = k) ->
  o < n -> j < k ->
  nth (o * k + j) (flat_map g (seq 0 n)) d = nth j (g o) d.
Proof.
  intros Hg Ho Hj. rewrite <- nth_chunk by exact Hj.
  rewrite chunk_flat_map_seq by assumption. reflexivity.
Qed.

Section CNNEncoderFacts.
Context {A : Type}.
Variable zero : A.
Variables add mul maxA : A -> A -> A.
Variables input_size num_filters filter_width : nat.
Variable kernel : nat -> nat -> nat -> nat -> A.
Variable offset : nat -> A.

Local Abbreviation self :=
  (CNNEncoder.__init__ input_size num_filters filter_width kernel offset).

(** What the framework asks of the layer's hyperparameters. *)
Hypothesis Hwidth : 1 <= filter_width.
Hypothesis Hsize : 1 <= input_size.
Hypothesis Hfilters : 1 <= num_filters.

Variables b t : nat.
Variable d : list A.
Hypothesis Htime : 1 <= t.

Local Abbreviation x := (mkTensor [b; t; input_size] d).

(** The convolved tensor: [filter_width - 1] more time steps than the
    input, one column. *)
Lemma convolve_eq :
  CNNEncoder.convolve zero add mul self x
  = Ok (mkTensor [b; num_filters; t + (filter_width - 1); 1]
          (flat_map
             (fun o => flat_map
                         (fun k => flat_map
                                     (fun i => [conv_at zero add mul (CNNEncoder.conv self)
                                                  1 t input_size (filter_width - 1) 0 d o k i 0])
                                     (seq 0 (t + (filter_width - 1))))
                         (seq 0 num_filters))
             (seq 0 b))).
Proof.
  unfold CNNEncoder.convolve, CNNEncoder.__init__.
  cbn [dim shape length Nat.eqb py_assert bind CNNEncoder.input_size CNNEncoder.conv].
  unfold size. rewrite norm_dim_last by (unfold dim; simpl; lia).
  cbn [dim shape length Nat.sub nth bind]. rewrite Nat.eqb_refl.
  cbn [py_assert bind]. rewrite unsqueeze_1.
  cbn [bind]. unfold conv2d.
  cbn [shape data kernel_size padding out_channels in_channels].
  replace ((0 <=? Z.of_nat filter_width - 1)%Z && (0 <=? 0)%Z) with true
    by (symmetry; apply andb_true_intro; split; apply Z.leb_le; lia).
  replace ((1 <=? filter_width) && (1 <=? input_size)) with true
    by (symmetry; apply andb_true_intro; split; apply Nat.leb_le; lia).
  replace (1 <=? num_filters) with true by (symmetry; apply Nat.leb_le; lia).
  replace (Z.to_nat (Z.of_nat filter_width - 1)) with (filter_width - 1) by lia.
  replace ((filter_width <=? t + 2 * (filter_width - 1))
           && (input_size <=? input_size + 2 * Z.to_nat 0)) with true
    by (symmetry; apply andb_true_intro; split; apply Nat.leb_le; lia).
  cbn [require bind Nat.eqb].
  replace (t + 2 * (filter_width - 1) - filter_width + 1)
    with (t + (filter_width - 1)) by lia.
  replace (input_size + 2 * Z.to_nat 0 - input_size + 1) with 1 by lia.
  reflexivity.
Qed.

Lemma forward_eq_cnn :
  exists out,
    CNNEncoder.forward zero add mul maxA self x = Ok out
    /\ shape out = [b; num_filters]
    /\ wf out.
Proof.
  unfold CNNEncoder.forward. rewrite convolve_eq. cbn [bind].
  unfold size. rewrite norm_dim_last by (unfold dim; simpl; lia).
  cbn [dim shape length Nat.sub nth bind Nat.eqb py_assert].
  unfold squeeze. rewrite norm_dim_last by (unfold dim; simpl; lia).
  cbn [dim shape data length Nat.sub nth bind Nat.eqb firstn skipn app].
  unfold torch_max. rewrite norm_dim_last by (unfold dim; simpl; lia).
  cbn [dim shape data length Nat.sub nth].
  replace (1 <=? t + (filter_width - 1)) with true
    by (symmetry; apply Nat.leb_le; lia).
  cbn [require bind]. eexists. split; [reflexivity|]. split.
  - reflexivity.
  - unfold wf, reduce_axis.
    cbn [shape data firstn skipn app numel fold_right].
    rewrite flat_map_constant_length with (c := 1).
    + rewrite length_seq. lia.
    + intros o _. reflexivity.
Qed.

Local Abbreviation time_padded :=
  (CNNEncoder.time_padded zero input_size filter_width b t d).

Lemma pad_time_eq :
  CNNEncoder.pad_time zero (filter_width - 1) (filter_width - 1) x
  = Ok (mkTensor [b; (filter_width - 1) + t + (filter_width - 1); input_size]
          time_padded).
Proof.
  unfold CNNEncoder.pad_time. rewrite size_0, size_2. cbn [bind].
  rewrite torch_cat_ok with (k := 1).
  - unfold cat_at, zeros.
    cbn [shape data firstn skipn map nth list_sum app numel fold_right].
    f_equal. f_equal.
    + do 2 f_equal. lia.
    + rewrite !Nat.mul_1_r. unfold CNNEncoder.time_padded.
      apply flat_map_ext_in. intros o Ho. apply in_seq in Ho.
      cbn [flat_map shape data skipn numel fold_right].
      rewrite app_nil_r, ?Nat.mul_1_r.
      rewrite chunk_repeat by (apply row_bound; lia). reflexivity.
  - intros u [<-|[<-|[<-|[]]]]; apply legacy_empty_rank; unfold dim; simpl; lia.
  - change 1%Z with (Z.of_nat 1). apply norm_dim_nat. unfold dim. simpl. lia.
  - unfold zeros, cat_compatible. cbn [forallb shape firstn skipn length].
    rewrite !list_eqb_refl. reflexivity.
Qed.

Hypothesis Hwf : length d = b * t * input_size.

Lemma length_time_padded_row (o : nat) :
  o < b ->
  length (repeat zero ((filter_width - 1) * input_size)
            ++ chunk (t * input_size) o d
            ++ repeat zero ((filter_width - 1) * input_size))
  = ((filter_width - 1) + t + (filter_width - 1)) * input_size.
Proof.
  intros Ho. rewrite !length_app, !repeat_length, length_chunk
    by (rewrite Hwf, <- Nat.mul_assoc; apply row_bound; assumption).
  lia.
Qed.

(** An element of the explicitly padded input is the element the layer
    sees through its implicit padding. *)
Lemma padded_at_time_padded (o r v : nat) :
  o < b -> r < (filter_width - 1) + t + (filter_width - 1) -> v < input_size ->
  padded_at zero 1 ((filter_width - 1) + t + (filter_width - 1)) input_size 0 0
    time_padded o 0 r v
  = padded_at zero 1 t input_size (filter_width - 1) 0 d o 0 r v.
Proof.
  intros Ho Hr Hv. unfold padded_at.
  set (p := filter_width - 1) in *.
  replace ((0 <=? r) && (r <? 0 + (p + t + p)) && (0 <=? v) && (v <? 0 + input_size))
    with true
    by (symmetry; solve_bool).
  replace ((o * 1 + 0) * (p + t + p) + (r - 0)) with (o * (p + t + p) + r) by lia.
  replace ((o * (p + t + p) + r) * input_size + (v - 0))
    with (o * ((p + t + p) * input_size) + (r * input_size + v)) by lia.
  unfold CNNEncoder.time_padded. fold p.
  assert (Hidx : r * input_size + v < (p + t + p) * input_size) by nia.
  rewrite nth_blocks with (k := (p + t + p) * input_size);
    [|intros i Hi; apply length_time_padded_row; assumption|assumption|assumption].
  replace (v <? 0 + input_size) with true by (symmetry; solve_bool).
  change (0 <=? v) with true. rewrite !andb_true_r.
  assert (Hrow : length (chunk (t * input_size) o d) = t * input_size)
    by (apply length_chunk; rewrite Hwf, <- Nat.mul_assoc; apply row_bound;
        assumption).
  destruct (Nat.leb_spec p r) as [Hpr|Hpr];
    destruct (Nat.ltb_spec r (p + t)) as [Hrt|Hrt]; cbn [andb].
  - rewrite app_nth2 by (rewrite repeat_length; nia).
    rewrite repeat_length.
    replace (r * input_size + v - p * input_size)
      with ((r - p) * input_size + v) by nia.
    rewrite app_nth1 by (rewrite Hrow; nia).
    rewrite nth_chunk by nia. f_equal.
    generalize (r - p). intros q. lia.
  - rewrite app_nth2 by (rewrite repeat_length; nia).
    rewrite repeat_length.
    rewrite app_nth2 by (rewrite Hrow; nia).
    apply nth_repeat.
  - rewrite app_nth1 by (rewrite repeat_length; nia).
    apply nth_repeat.
  - lia.
Qed.

(** The layer's convolution is the unpadded convolution of the input
    padded on both ends of the time axis. *)
Lemma convolve_padded_eq :
  CNNEncoder.convolve_padded zero add mul (filter_width - 1) (filter_width - 1) self x
  = CNNEncoder.convolve zero add mul self x.
Proof.
  rewrite convolve_eq.
  unfold CNNEncoder.convolve_padded. rewrite pad_time_eq. cbn [bind].
  unfold CNNEncoder.convolve, CNNEncoder.__init__, CNNEncoder.unpadded.
  cbn [dim shape length Nat.eqb py_assert bind CNNEncoder.input_size CNNEncoder.conv
       kernel_size padding out_channels in_channels weight bias].
  unfold size. rewrite norm_dim_last by (unfold dim; simpl; lia).
  cbn [dim shape length Nat.sub nth bind]. rewrite Nat.eqb_refl.
  cbn [py_assert bind]. rewrite unsqueeze_1.
  cbn [bind]. unfold conv2d.
  cbn [shape data kernel_size padding out_channels in_channels].
  replace ((1 <=? filter_width) && (1 <=? input_size)) with true
    by (symmetry; apply andb_true_intro; split; apply Nat.leb_le; lia).
  replace (1 <=? num_filters) with true by (symmetry; apply Nat.leb_le; lia).
  replace ((filter_width <=? filter_width - 1 + t + (filter_width - 1) + 2 * Z.to_nat 0)
           && (input_size <=? input_size + 2 * Z.to_nat 0)) with true
    by (symmetry; apply andb_true_intro; split; apply Nat.leb_le; simpl; lia).
  cbn [Z.leb Z.compare andb require bind Nat.eqb].
  replace (filter_width - 1 + t + (filter_width - 1) + 2 * Z.to_nat 0 - filter_width + 1)
    with (t + (filter_width - 1)) by (simpl; lia).
  replace (input_size + 2 * Z.to_nat 0 - input_size + 1) with 1 by lia.
  f_equal. f_equal.
  apply flat_map_ext_in. intros o Ho. apply in_seq in Ho.
  apply flat_map_ext_in. intros k Hk.
  apply flat_map_ext_in. intros i Hi. apply in_seq in Hi.
  cbn [map seq]. f_equal. unfold conv_at.
  cbn [kernel_size fst snd weight bias flat_map seq].
  f_equal. rewrite !app_nil_r.
  apply flat_map_ext_in. intros u Hu. apply in_seq in Hu.
  apply map_ext_in. intros v Hv. apply in_seq in Hv.
  f_equal. apply padded_at_time_padded; lia.
Qed.

End CNNEncoderFacts.

(** C4: a [CNNEncoder] whose layer the framework accepts (a filter width, an
    input size and a number of filters of at least 1) maps every input of
    shape [(b, t, input_size)] with [t >= 1] to a tensor of shape
    [(b, num_filters)], whatever [t] is. *)
Theorem CNNEncoder_forward_shape (A : Type) (zero : A) (add mul maxA : A -> A -> A)
    (input_size num_filters filter_width : nat)
    (weight : nat -> nat -> nat -> nat -> A) (bias : nat -> A)
    (b t : nat) (d : list A) :
  1 <= filter_width -> 1 <= input_size -> 1 <= num_filters ->
  1 <= t ->
  exists out,
    CNNEncoder.forward zero add mul maxA
      (CNNEncoder.__init__ input_size num_filters filter_width weight bias)
      (mkTensor [b; t; input_size] d) = Ok out
    /\ shape out = [b; num_filters]
    /\ wf out.
Proof.
  intros Hw Hs Hf Ht. apply forward_eq_cnn; assumption.
Qed.

(** C5, amended: the convolution of [CNNEncoder] pads [filter_width - 1]
    zero frames on both ends of the time axis and nothing on the feature
    axis: it is the unpadded convolution of the input so padded, and the
    convolved tensor has [filter_width - 1] more time steps than the input
    and a single column. *)
Theorem CNNEncoder_convolution_padding (A : Type) (zero : A) (add mul : A -> A -> A)
    (input_size num_filters filter_width : nat)
    (weight : nat -> nat -> nat -> nat -> A) (bias : nat -> A)
    (b t : nat) (d : list A) :
  1 <= filter_width -> 1 <= input_size -> 1 <= num_filters ->
  1 <= t -> length d = b * t * input_size ->
  let self := CNNEncoder.__init__ input_size num_filters filter_width weight bias in
  let x := mkTensor [b; t; input_size] d in
  CNNEncoder.convolve zero add mul self x
  = CNNEncoder.convolve_padded zero add mul (filter_width - 1) (filter_width - 1) self x
  /\ exists c,
       CNNEncoder.convolve zero add mul self x = Ok c
       /\ shape c = [b; num_filters; t + (filter_width - 1); 1].
Proof.
  intros Hw Hs Hf Ht Hwf self x. split.
  - symmetry. apply convolve_padded_eq; assumption.
  - eexists. split; [apply convolve_eq; assumption | reflexivity].
Qed.

Lemma CNNEncoder_forward_shape_witness :
  exists out,
    CNNEncoder.forward 0%Z Z.add Z.mul Z.max Examples.encoder Examples.one_frame = Ok out
    /\ shape out = [1; 1]
    /\ wf out.
Proof.
  apply (@CNNEncoder_forward_shape Z 0%Z Z.add Z.mul Z.max 1 1 2
           (fun _ _ _ _ => 1%Z) (fun _ => 0%Z) 1 1 [1%Z]); lia.
Defined.

Lemma CNNEncoder_convolution_padding_witness :
  CNNEncoder.convolve 0%Z Z.add Z.mul Examples.encoder Examples.one_frame
  = CNNEncoder.convolve_padded 0%Z Z.add Z.mul (2 - 1) (2 - 1)
      Examples.encoder Examples.one_frame
  /\ exists c,
       CNNEncoder.convolve 0%Z Z.add Z.mul Examples.encoder Examples.one_frame = Ok c
       /\ shape c = [1; 1; 1 + (2 - 1); 1].
Proof.
  apply (@CNNEncoder_convolution_padding Z 0%Z Z.add Z.mul 1 1 2
           (fun _ _ _ _ => 1%Z) (fun _ => 0%Z) 1 1 [1%Z]); simpl; lia.
Defined.

(** C5 as stated fails: with a filter of width 2 over one frame the layer
    returns two time steps, the second from the zero frame behind the input,
    where padding in front only returns one. *)
Lemma CNNEncoder_convolution_padding_counterexample :
  CNNEncoder.convolve 0%Z Z.add Z.mul Examples.encoder Examples.one_frame
  = Ok (mkTensor [1; 1; 2; 1] [1; 1]%Z)
  /\ CNNEncoder.convolve_padded 0%Z Z.add Z.mul (2 - 1) 0
       Examples.encoder Examples.one_frame
     = Ok (mkTensor [1; 1; 1; 1] [1%Z])
  /\ CNNEncoder.convolve 0%Z Z.add Z.mul Examples.encoder Examples.one_frame
     <> CNNEncoder.convolve_padded 0%Z Z.add Z.mul (2 - 1) 0
          Examples.encoder Examples.one_frame.
Proof.
  split; [reflexivity | split; [reflexivity | discriminate]].
Qed.

(** ** Sorting *)

Lemma sortedb_cons (r : nat -> nat -> bool) (x y : nat) (l : list nat) :
  sortedb r (x :: y :: l) = r x y && sortedb r (y :: l).
Proof. reflexivity. Qed.

Lemma sortedb_strong (r : nat -> nat -> bool) (l : list nat) :
  (forall x y z, r x y = true -> r y z = true -> r x z = true) ->
  sortedb r l = true ->
  StronglySorted (fun x y => r x y = true) l.
Proof.
  intros Htrans H. apply Sorted_StronglySorted.
  - intros x y z. apply Htrans.
  - induction l as [|x l IH]; [constructor|].
    destruct l as [|y l].
    + constructor; constructor.
    + rewrite sortedb_cons in H. apply andb_prop in H. destruct H as [Hxy Hl].
      constructor; [apply IH; exact Hl | constructor; exact Hxy].
Qed.

Lemma sorted_unique (l1 l2 : list nat) :
  StronglySorted le l1 -> StronglySorted le l2 -> Permutation l1 l2 -> l1 = l2.
Proof.
  revert l2. induction l1 as [|x l1 IH]; intros l2 H1 H2 HP.
  - apply Permutation_nil in HP. subst. reflexivity.
  - destruct l2 as [|y l2].
    + apply Permutation_sym, Permutation_nil in HP. discriminate.
    + inversion H1 as [|? ? H1' Hx]; subst. inversion H2 as [|? ? H2' Hy]; subst.
      assert (x = y).
      { assert (Hin1 : In x (y :: l2))
          by (apply (Permutation_in _ HP); simpl; auto).
        assert (Hin2 : In y (x :: l1))
          by (apply (Permutation_in _ (Permutation_sym HP)); simpl; auto).
        rewrite Forall_forall in Hx, Hy.
        destruct Hin1 as [->|Hin1]; [reflexivity|].
        destruct Hin2 as [->|Hin2]; [reflexivity|].
        specialize (Hx y Hin2). specialize (Hy x Hin1). lia. }
      subst y. f_equal. apply IH; try assumption.
      apply Permutation_cons_inv with (a := x). exact HP.
Qed.

Lemma seq_strongly_sorted (a n : nat) : StronglySorted le (seq a n).
Proof.
  revert a. induction n as [|n IH]; intros a; simpl; constructor.
  - apply IH.
  - apply Forall_forall. intros y Hy. apply in_seq in Hy. lia.
Qed.

(** Sorting a permutation of [0 .. n-1] in increasing order yields
    [0 .. n-1]. *)
Lemma sorted_perm_seq (l : list nat) (n : nat) :
  sortedb (order false) l = true -> Permutation l (seq 0 n) -> l = seq 0 n.
Proof.
  intros Hs HP. apply sorted_unique.
  - apply sortedb_strong in Hs.
    + eapply StronglySorted_ind with (P := StronglySorted le) in Hs.
      * exact Hs.
      * constructor.
      * intros a l' _ IH Ha. constructor; [exact IH|].
        eapply Forall_impl; [|exact Ha]. intros y Hy. apply Nat.leb_le. exact Hy.
    + intros x y z Hxy Hyz. simpl in *.
      apply Nat.leb_le in Hxy. apply Nat.leb_le in Hyz. apply Nat.leb_le. lia.
  - apply seq_strongly_sorted.
  - exact HP.
Qed.

Lemma map_nth_seq {T : Type} (l : list T) (d : T) :
  map (fun i => nth i l d) (seq 0 (length l)) = l.
Proof.
  induction l as [|x l IH]; simpl; [reflexivity|].
  f_equal. rewrite <- seq_shift, map_map. exact IH.
Qed.

(** The values a sort returns are a rearrangement of its argument. *)
Lemma sort_result_perm (descending : bool) (l : list nat) (r : list nat * list nat) :
  sort_result descending l r -> Permutation (fst r) l.
Proof.
  intros (Hp & Hv & _). rewrite Hv.
  eapply Permutation_trans; [apply Permutation_map; exact Hp|].
  rewrite map_nth_seq. reflexivity.
Qed.

(** Sorting the sort's index vector in increasing order inverts it:
    [sent_perm[original_perm[i]] = i]. *)
Lemma sort_inverse (sp : list nat) (n : nat) (r : list nat * list nat) :
  Permutation sp (seq 0 n) ->
  sort_result false sp r ->
  map (fun i => nth i sp 0) (snd r) = seq 0 n
  /\ Permutation (snd r) (seq 0 n).
Proof.
  intros Hsp Hr. pose proof (sort_result_perm Hr) as HP.
  destruct Hr as (Hp & Hv & Hs). split.
  - rewrite <- Hv. apply sorted_perm_seq; [exact Hs|].
    eapply Permutation_trans; [exact HP | exact Hsp].
  - rewrite (Permutation_length Hsp), length_seq in Hp. exact Hp.
Qed.

Lemma list_max_perm (l1 l2 : list nat) :
  Permutation l1 l2 -> list_max l1 = list_max l2.
Proof.
  induction 1; simpl; try lia.
Qed.

Lemma forallb_perm {T : Type} (f : T -> bool) (l1 l2 : list T) :
  Permutation l1 l2 -> forallb f l1 = forallb f l2.
Proof.
  induction 1; simpl; try congruence.
  destruct (f x), (f y); reflexivity.
Qed.

Lemma forallb_ext_in {T : Type} (f g : T -> bool) (l : list T) :
  (forall x, In x l -> f x = g x) -> forallb f l = forallb g l.
Proof.
  induction l as [|x l IH]; intros H; simpl; [reflexivity|].
  rewrite (H x), IH; simpl; auto.
  intros y Hy. apply H. simpl. auto.
Qed.

Lemma perm_seq_lt (p : list nat) (n : nat) :
  Permutation p (seq 0 n) -> forallb (fun i => i <? n) p = true.
Proof.
  intros H. apply forallb_forall. intros i Hi.
  apply (Permutation_in _ H) in Hi. apply in_seq in Hi. apply Nat.ltb_lt. lia.
Qed.

(** The stable insertion sort is one of the sorts the framework may
    implement. *)
Lemma insert_by_perm (r : nat -> nat -> bool) (x : nat * nat) (l : list (nat * nat)) :
  Permutation (insert_by r x l) (x :: l).
Proof.
  induction l as [|y l IH]; simpl; [reflexivity|].
  destruct (r (fst x) (fst y)); [reflexivity|].
  rewrite IH. apply perm_swap.
Qed.

Lemma insert_by_sorted (descending : bool) (x : nat * nat) (l : list (nat * nat)) :
  sortedb (order descending) (map fst l) = true ->
  sortedb (order descending) (map fst (insert_by (order descending) x l)) = true.
Proof.
  induction l as [|y l IH]; intros H; [reflexivity|].
  cbn [insert_by]. destruct (order descending (fst x) (fst y)) eqn:E.
  - cbn [map]. rewrite sortedb_cons. cbn [map] in H. rewrite E, H. reflexivity.
  - assert (E' : order descending (fst y) (fst x) = true).
    { destruct descending; simpl in *; solve_bool_in E. }
    destruct l as [|z l].
    + simpl. rewrite E'. reflexivity.
    + cbn [map] in H. rewrite sortedb_cons in H.
      apply andb_prop in H. destruct H as [Hyz Hl].
      specialize (IH Hl). cbn [insert_by] in *.
      destruct (order descending (fst x) (fst z)); cbn [map] in *;
        rewrite sortedb_cons.
      * rewrite E', IH. reflexivity.
      * rewrite Hyz, IH. reflexivity.
Qed.

Lemma fold_insert_perm (r : nat -> nat -> bool) (c : list (nat * nat)) :
  Permutation (fold_right (insert_by r) [] c) c.
Proof.
  induction c as [|x c IH]; simpl; [reflexivity|].
  rewrite insert_by_perm. apply perm_skip. exact IH.
Qed.

Lemma fold_insert_sorted (descending : bool) (c : list (nat * nat)) :
  sortedb (order descending)
    (map fst (fold_right (insert_by (order descending)) [] c)) = true.
Proof.
  induction c as [|x c IH]; simpl; [reflexivity|].
  apply insert_by_sorted. exact IH.
Qed.

Lemma combine_seq_nth (l : list nat) (n v i : nat) :
  In (v, i) (combine l (seq n (length l))) -> v = nth (i - n) l 0 /\ n <= i.
Proof.
  revert n. induction l as [|a l IH]; intros n Hin; simpl in Hin.
  - contradiction.
  - destruct Hin as [Hin|Hin].
    + injection Hin as <- <-. rewrite Nat.sub_diag. auto.
    + apply IH in Hin. destruct Hin as [-> Hle].
      replace (i - n) with (S (i - S n)) by lia. simpl. split; [reflexivity | lia].
Qed.

Lemma map_snd_combine_seq {T : Type} (l : list T) (n : nat) :
  map snd (combine l (seq n (length l))) = seq n (length l).
Proof.
  revert n. induction l as [|a l IH]; intros n; simpl; [reflexivity|].
  rewrite IH. reflexivity.
Qed.

Lemma stable_sort_spec (descending : bool) (l : list nat) :
  sort_result descending l (stable_sort descending l).
Proof.
  unfold stable_sort, sort_result. cbn [fst snd].
  pose proof (fold_insert_perm (order descending) (combine l (seq 0 (length l)))) as HP.
  split; [|split].
  - rewrite (Permutation_map snd HP), map_snd_combine_seq. reflexivity.
  - rewrite map_map. apply map_ext_in. intros [v i] Hin. cbn [fst snd].
    apply (Permutation_in _ HP) in Hin. apply combine_seq_nth in Hin.
    rewrite Nat.sub_0_r in Hin. tauto.
  - apply fold_insert_sorted.
Qed.

(** ** BiLSTMEmbedder: the derived lengths *)

Lemma flat_map_singleton {T U : Type} (g : T -> U) (l : list T) :
  flat_map (fun x => [g x]) l = map g l.
Proof.
  induction l as [|x l IH]; simpl; [reflexivity|]. rewrite IH. reflexivity.
Qed.

Lemma nth_map_seq {U : Type} (g : nat -> U) (n p : nat) (d : U) :
  p < n -> nth p (map g (seq 0 n)) d = g p.
Proof.
  intros H. rewrite nth_indep with (d' := g 0) by (rewrite length_map, length_seq; exact H).
  rewrite map_nth, seq_nth by exact H. reflexivity.
Qed.

Lemma list_sum_indicator {T : Type} (g : T -> bool) (l : list T) :
  list_sum (map (fun m => if g m then 1 else 0) l) = length (filter g l).
Proof.
  induction l as [|x l IH]; simpl; [reflexivity|].
  destruct (g x); simpl; rewrite IH; reflexivity.
Qed.

Lemma count_nonzero (pad : Z) (l : list Z) :
  negb (list_sum (map (fun e => if (e =? pad)%Z then 0 else 1) l) =? 0)
  = existsb (fun e => negb (e =? pad)%Z) l.
Proof.
  induction l as [|x l IH]; simpl; [reflexivity|].
  destruct (x =? pad)%Z; simpl; [exact IH | reflexivity].
Qed.

Lemma chunk_map {T U : Type} (g : T -> U) (k o : nat) (l : list T) :
  chunk k o (map g l) = map g (chunk k o l).
Proof.
  unfold chunk. rewrite skipn_map, firstn_map. reflexivity.
Qed.

(** The blocks of a list, read element by element. *)
Lemma map_nth_chunk {T : Type} (k o : nat) (l : list T) (d : T) :
  (o + 1) * k <= length l ->
  map (fun m => nth (o * k + m) l d) (seq 0 k) = chunk k o l.
Proof.
  intros H. rewrite <- (map_nth_seq (chunk k o l) d).
  rewrite length_chunk by exact H.
  apply map_ext_in. intros m Hm. apply in_seq in Hm.
  rewrite nth_chunk by lia. reflexivity.
Qed.

(** Summing the last axis of a tensor, block by block. *)
Lemma torch_sum_last (front : list nat) (n : nat) (d : list nat) :
  length d = numel front * n ->
  torch_sum (mkTensor (front ++ [n]) d) (-1)
  = Ok (mkTensor front
          (map (fun o => list_sum (chunk n o d)) (seq 0 (numel front)))).
Proof.
  intros Hlen. unfold torch_sum, dim. cbn [shape].
  rewrite norm_dim_last by (rewrite length_app; simpl; lia).
  replace (length (front ++ [n]) - 1) with (length front)
    by (rewrite length_app; simpl; lia).
  unfold reduce_axis. cbn [shape data].
  rewrite firstn_front.
  replace (skipn (S (length front)) (front ++ [n])) with (@nil nat)
    by (symmetry; apply skipn_all2; rewrite length_app; simpl; lia).
  rewrite app_nth2, Nat.sub_diag by lia. cbn [nth numel fold_right seq map].
  rewrite app_nil_r. f_equal. f_equal.
  rewrite flat_map_singleton. apply map_ext_in. intros o Ho. apply in_seq in Ho.
  f_equal. rewrite <- map_nth_chunk with (d := 0).
  - apply map_ext. intros m. f_equal. lia.
  - rewrite Hlen. apply row_bound. lia.
Qed.

Section BiLSTMLengths.
Variable pad : Z.
Variable inputs : list (Tensor Z).
Variables b T : nat.

(** The channels are tensors of [b] sequences of [T] time steps, of rank 2
    or 3. *)
Hypothesis Hne : inputs <> [].
Hypothesis Hin : forall i, In i inputs ->
  wf i /\ (shape i = [b; T] \/ exists k, shape i = [b; T; k]).

Local Abbreviation width := BiLSTMEmbedderTrace.width.
Local Abbreviation channels_at := (BiLSTMEmbedderTrace.channels_at inputs T).

(** A channel as a rank-3 tensor. *)
Local Abbreviation chan := (fun i : Tensor Z => mkTensor [b; T; width i] (data i)).

Lemma chan_eq (i : Tensor Z) :
  In i inputs ->
  (if dim i =? 2 then unsqueeze (-1) i else Ok i) = Ok (chan i).
Proof.
  intros Hi. destruct (Hin i Hi) as (_ & [Hs|(k & Hs)]);
    destruct i as [s d]; cbn [shape] in Hs; subst s; reflexivity.
Qed.

Lemma length_chan (i : Tensor Z) :
  In i inputs -> length (data i) = b * T * width i.
Proof.
  intros Hi. destruct (Hin i Hi) as (Hwf & [Hs|(k & Hs)]);
    unfold wf in Hwf; unfold BiLSTMEmbedderTrace.width;
    rewrite Hs in *; simpl in Hwf; lia.
Qed.

(** The number of values per time step over all channels. *)
Local Abbreviation total := (list_sum (map width inputs)).

Lemma length_channels (p : nat) :
  p < b * T ->
  length (flat_map (fun i => chunk (width i) p (data i)) inputs) = total.
Proof.
  intros Hp. rewrite length_flat_map. f_equal.
  apply map_ext_in. intros i Hi. apply length_chunk.
  rewrite (length_chan i Hi). apply row_bound. exact Hp.
Qed.

Lemma cat_eq :
  (chans <- mapM (fun i => if dim i =? 2 then unsqueeze (-1) i else Ok i) inputs ;;
   torch_cat chans (-1))
  = Ok (mkTensor [b; T; total]
          (flat_map (fun p => flat_map (fun i => chunk (width i) p (data i)) inputs)
                    (seq 0 (b * T)))).
Proof.
  rewrite mapM_ok with (g := chan) by (intros i Hi; apply chan_eq; exact Hi).
  cbn [bind]. rewrite torch_cat_last_eq with (front := [b; T]).
  - f_equal. f_equal.
    + cbn [app]. do 3 f_equal. rewrite map_map. reflexivity.
    + cbn [numel fold_right]. rewrite Nat.mul_1_r.
      apply flat_map_ext. intros p. rewrite flat_map_map. reflexivity.
  - destruct inputs; [congruence | discriminate].
  - intros t Ht. apply in_map_iff in Ht. destruct Ht as (i & <- & Hi). split.
    + unfold wf. cbn [shape data numel fold_right].
      rewrite (length_chan i Hi). lia.
    + exists (width i). reflexivity.
Qed.

Lemma seq_lengths_eq (A St : Type) (self : BiLSTMEmbedder.t A St) :
  BiLSTMEmbedder.padding_idx self = pad ->
  BiLSTMEmbedder.seq_lengths_of self inputs
  = Ok (mkTensor [b] (BiLSTMEmbedderTrace.true_lengths pad inputs b T)).
Proof.
  intros Hpad. unfold BiLSTMEmbedder.seq_lengths_of.
  set (cat := torch_cat (T := Z)).
  pose proof cat_eq as Hcat. cbv beta in Hcat. fold cat in Hcat.
  destruct (mapM _ inputs) as [chans|e]; cbn [bind] in *; [|discriminate].
  rewrite Hcat. cbn [bind]. rewrite Hpad.
  unfold BiLSTMEmbedder.ne_long. cbn [shape data].
  change [b; T; total] with ([b; T] ++ [total]).
  rewrite torch_sum_last.
  2:{ rewrite length_map, flat_map_constant_length with (c := total).
      - rewrite length_seq. cbn [numel fold_right]. lia.
      - intros p Hp. apply in_seq in Hp. apply length_channels. lia. }
  cbn [bind]. unfold BiLSTMEmbedder.long, BiLSTMEmbedder.nonzero. cbn [shape data].
  change (torch_sum ?t 1) with (torch_sum t (-1)).
  change [b; T] with ([b] ++ [T]) at 1.
  rewrite torch_sum_last by (rewrite !length_map, length_seq; simpl; lia).
  f_equal. f_equal. cbn [numel fold_right]. rewrite !Nat.mul_1_r.
  unfold BiLSTMEmbedderTrace.true_lengths.
  apply map_ext_in. intros o Ho. apply in_seq in Ho.
  unfold BiLSTMEmbedderTrace.true_length.
  rewrite <- list_sum_indicator. f_equal.
  rewrite <- map_nth_chunk with (d := 0)
    by (rewrite !length_map, length_seq; apply row_bound; lia).
  apply map_ext_in. intros m Hm. apply in_seq in Hm.
  assert (Hom : o * T + m < b * T) by (pose proof (@block_bound b T 1 o m); lia).
  rewrite map_map, map_map, nth_map_seq by exact Hom.
  unfold BiLSTMEmbedderTrace.is_real, BiLSTMEmbedderTrace.channels_at.
  rewrite <- count_nonzero. rewrite chunk_map.
  rewrite chunk_flat_map_seq
    with (f := fun p => flat_map (fun i => chunk (width i) p (data i)) inputs).
  - reflexivity.
  - intros p Hp. apply length_channels. exact Hp.
  - exact Hom.
Qed.

(** A derived length never exceeds the number of time steps. *)
Lemma true_length_le (o : nat) :
  BiLSTMEmbedderTrace.true_length pad inputs T o <= T.
Proof.
  unfold BiLSTMEmbedderTrace.true_length.
  eapply Nat.le_trans; [apply filter_length_le|].
  rewrite length_seq. apply Nat.le_refl.
Qed.

End BiLSTMLengths.

(** ** The recurrent layer keeps lengths and emits vectors of one size *)

Section RecurrentFacts.
Context {A St : Type}.
Variable net : LSTM A St.

Hypothesis Hcell : forall layer reverse s x,
  length (snd (cell net layer reverse s x)) = lstm_hidden_size net.

Lemma length_run (layer : nat) (reverse : bool) (s : St) (xs : list (list A)) :
  length (run net layer reverse s xs) = length xs.
Proof.
  revert s. induction xs as [|x xs IH]; intros s; simpl; [reflexivity|].
  destruct (cell net layer reverse s x) as [s' h]. simpl. rewrite IH. reflexivity.
Qed.

Lemma run_widths (layer : nat) (reverse : bool) (s : St) (xs : list (list A)) :
  Forall (fun v => length v = lstm_hidden_size net) (run net layer reverse s xs).
Proof.
  revert s. induction xs as [|x xs IH]; intros s; simpl; [constructor|].
  pose proof (Hcell layer reverse s x) as Hh.
  destruct (cell net layer reverse s x) as [s' h]. constructor; [exact Hh | apply IH].
Qed.

Lemma length_bidirectional (layer : nat) (xs : list (list A)) :
  length (bidirectional net layer xs) = length xs.
Proof.
  unfold bidirectional.
  rewrite length_map, length_combine, length_rev, !length_run, length_rev.
  apply Nat.min_id.
Qed.

Lemma bidirectional_widths (layer : nat) (xs : list (list A)) :
  Forall (fun v => length v = 2 * lstm_hidden_size net) (bidirectional net layer xs).
Proof.
  unfold bidirectional. apply Forall_forall. intros v Hv.
  apply in_map_iff in Hv. destruct Hv as ([f g] & <- & Hfg).
  pose proof (in_combine_l _ _ _ _ Hfg) as Hf.
  pose proof (in_combine_r _ _ _ _ Hfg) as Hg.
  apply in_rev in Hg.
  pose proof (run_widths layer false (initial net) xs) as Wf.
  pose proof (run_widths layer true (initial net) (rev xs)) as Wg.
  rewrite Forall_forall in Wf, Wg.
  cbn [fst snd]. rewrite length_app, (Wf f Hf), (Wg g Hg). lia.
Qed.

Lemma length_concat_const {T : Type} (k : nat) (l : list (list T)) :
  Forall (fun v => length v = k) l -> length (concat l) = length l * k.
Proof.
  induction 1 as [|v l Hv _ IH]; simpl; [reflexivity|].
  rewrite length_app, Hv, IH. reflexivity.
Qed.

Lemma length_encoded (e : list A) (E T o n : nat) :
  length (BiLSTMEmbedderTrace.encoded net e E T o n) = n.
Proof.
  unfold BiLSTMEmbedderTrace.encoded, BiLSTMEmbedderTrace.frames_of.
  rewrite !length_bidirectional, length_map, length_seq. reflexivity.
Qed.

Lemma length_row_out (zero : A) (e : list A) (E T M o n : nat) :
  n <= M ->
  length (BiLSTMEmbedderTrace.row_out zero net e E T M o n)
  = M * (2 * lstm_hidden_size net).
Proof.
  intros H. unfold BiLSTMEmbedderTrace.row_out.
  rewrite length_app, repeat_length.
  rewrite length_concat_const with (k := 2 * lstm_hidden_size net)
    by apply bidirectional_widths.
  rewrite length_encoded. nia.
Qed.

(** Beyond the length of its sequence an output row is zero. *)
Lemma row_out_zero (zero : A) (e : list A) (E T M o n j : nat) :
  n <= j -> j < M ->
  chunk (2 * lstm_hidden_size net) j (BiLSTMEmbedderTrace.row_out zero net e E T M o n)
  = repeat zero (2 * lstm_hidden_size net).
Proof.
  intros Hn Hj. unfold BiLSTMEmbedderTrace.row_out, chunk.
  set (k := 2 * lstm_hidden_size net).
  assert (Hlen : length (concat (BiLSTMEmbedderTrace.encoded net e E T o n)) = n * k).
  { rewrite length_concat_const with (k := k) by apply bidirectional_widths.
    rewrite length_encoded. reflexivity. }
  rewrite skipn_app, skipn_all2 by (rewrite Hlen; nia).
  rewrite Hlen. cbn [app].
  replace (j * k - n * k) with ((j - n) * k) by nia.
  apply (chunk_repeat zero k (j - n)). nia.
Qed.

End RecurrentFacts.

(** ** BiLSTMEmbedder: what [forward] computes *)

Lemma map_combine_seq {T U : Type} (G : nat -> T -> U) (d : T) (l : list T) (a : nat) :
  map (fun bn => G (fst bn) (snd bn)) (combine (seq a (length l)) l)
  = map (fun p => G p (nth (p - a) l d)) (seq a (length l)).
Proof.
  revert a. induction l as [|x l IH]; intros a; simpl; [reflexivity|].
  rewrite Nat.sub_diag. f_equal. rewrite IH.
  apply map_ext_in. intros p Hp. apply in_seq in Hp.
  replace (p - a) with (S (p - S a)) by lia. reflexivity.
Qed.

Lemma map_seq_nth {T U : Type} (F : T -> U) (d : T) (l : list T) :
  map (fun p => F (nth p l d)) (seq 0 (length l)) = map F l.
Proof.
  rewrite <- (map_map (fun p => nth p l d) F), map_nth_seq. reflexivity.
Qed.

Lemma index_rows_eq {T : Type} (b : nat) (rest : list nat) (d : list T) (idx : list nat) :
  Permutation idx (seq 0 b) ->
  index_rows (mkTensor (b :: rest) d) idx
  = Ok (mkTensor (b :: rest) (flat_map (fun i => chunk (numel rest) i d) idx)).
Proof.
  intros H. unfold index_rows. cbn [shape data].
  rewrite perm_seq_lt by exact H. cbn [require bind].
  rewrite (Permutation_length H), length_seq. reflexivity.
Qed.

Lemma length_lens (pad : Z) (inputs : list (Tensor Z)) (b T : nat) :
  length (BiLSTMEmbedderTrace.true_lengths pad inputs b T) = b.
Proof.
  unfold BiLSTMEmbedderTrace.true_lengths. rewrite length_map, length_seq. reflexivity.
Qed.

Lemma nth_lens (pad : Z) (inputs : list (Tensor Z)) (b T r : nat) :
  r < b ->
  nth r (BiLSTMEmbedderTrace.true_lengths pad inputs b T) 0
  = BiLSTMEmbedderTrace.true_length pad inputs T r.
Proof.
  intros H. unfold BiLSTMEmbedderTrace.true_lengths. apply nth_map_seq. exact H.
Qed.

Lemma len_le_max (pad : Z) (inputs : list (Tensor Z)) (b T r : nat) :
  r < b ->
  BiLSTMEmbedderTrace.true_length pad inputs T r
  <= list_max (BiLSTMEmbedderTrace.true_lengths pad inputs b T).
Proof.
  intros H.
  pose proof (proj1 (list_max_le (BiLSTMEmbedderTrace.true_lengths pad inputs b T)
                       (list_max (BiLSTMEmbedderTrace.true_lengths pad inputs b T)))
                (Nat.le_refl _)) as HF.
  rewrite Forall_forall in HF. apply HF.
  unfold BiLSTMEmbedderTrace.true_lengths. apply in_map. apply in_seq. lia.
Qed.

(** The frames of a sequence in a batch whose rows were selected by [sp]. *)
Lemma sorted_frame {U : Type} (e : list U) (b T E : nat) (sp : list nat) (p i : nat) :
  length e = b * T * E ->
  Permutation sp (seq 0 b) -> p < b -> i < T ->
  chunk E (p * T + i) (flat_map (fun r => chunk (T * E) r e) sp)
  = chunk E (nth p sp 0 * T + i) e.
Proof.
  intros Hwfe Hsp Hp Hi.
  rewrite <- chunk_chunk by exact Hi.
  rewrite chunk_flat_map with (d := 0).
  - apply chunk_chunk. exact Hi.
  - intros r Hr. apply (Permutation_in _ Hsp) in Hr. apply in_seq in Hr.
    apply length_chunk. rewrite Hwfe, <- Nat.mul_assoc. apply row_bound. lia.
  - rewrite (Permutation_length Hsp), length_seq. exact Hp.
Qed.

Section BiLSTMForward.
Context {A St : Type}.
Variable zero : A.
Variable tsort : bool -> list nat -> list nat * list nat.
Hypothesis tsort_spec : forall descending l, sort_result descending l (tsort descending l).

Variable self : BiLSTMEmbedder.t A St.
Local Abbreviation net := (BiLSTMEmbedder.lstm self).
Local Abbreviation pad := (BiLSTMEmbedder.padding_idx self).
Local Abbreviation hidden := (lstm_hidden_size (BiLSTMEmbedder.lstm self)).

Hypothesis Hcell : forall layer reverse s x,
  length (snd (cell net layer reverse s x)) = hidden.

Variable inputs : list (Tensor Z).
Variables b T E : nat.
Variable e : list A.

Hypothesis Hne : inputs <> [].
Hypothesis Hin : forall i, In i inputs ->
  wf i /\ (shape i = [b; T] \/ exists k, shape i = [b; T; k]).
(** The embedder returns [E] features per time step, as many as the layer
    reads. *)
Hypothesis Hemb : BiLSTMEmbedder.embedder self inputs = Ok (mkTensor [b; T; E] e).
Hypothesis Hwfe : length e = b * T * E.
Hypothesis HE : E = lstm_input_size net.

Local Abbreviation len := (BiLSTMEmbedderTrace.true_length pad inputs T).
Local Abbreviation lens := (BiLSTMEmbedderTrace.true_lengths pad inputs b T).
Local Abbreviation frames_of := (BiLSTMEmbedderTrace.frames_of e E T).
Local Abbreviation encoded := (BiLSTMEmbedderTrace.encoded net e E T).
Local Abbreviation row_out := (BiLSTMEmbedderTrace.row_out zero net e E T).

Lemma pack_eq (sl sp : list nat) :
  sort_result true lens (sl, sp) ->
  pack_padded_sequence
    (mkTensor [b; T; E] (flat_map (fun r => chunk (numel [T; E]) r e) sp)) sl
  = if (1 <=? b * T * E) && forallb (fun n => 1 <=? n) lens
    then Ok (mkPacked (map (fun r => frames_of r (len r)) sp) E)
    else Raise RuntimeError.
Proof.
  intros Hr. pose proof (sort_result_perm Hr) as Hperm.
  destruct Hr as (Hp & Hv & Hs). cbn [fst snd] in *.
  rewrite length_lens in Hp.
  assert (Hlsp : length sp = b) by (rewrite (Permutation_length Hp); apply length_seq).
  assert (Hlsl : length sl = b) by (rewrite Hv, length_map; exact Hlsp).
  unfold pack_padded_sequence. cbn [shape data numel fold_right].
  rewrite !Nat.mul_1_r. rewrite Hlsl, Nat.eqb_refl, Hs.
  replace (b * (T * E)) with (b * T * E) by lia.
  rewrite (forallb_perm _ Hperm).
  replace (forallb (fun n => (1 <=? n) && (n <=? T)) lens)
    with (forallb (fun n => 1 <=? n) lens).
  2:{ apply forallb_ext_in. intros n Hn.
      unfold BiLSTMEmbedderTrace.true_lengths in Hn.
      apply in_map_iff in Hn. destruct Hn as (o & <- & _).
      replace (len o <=? T) with true
        by (symmetry; apply Nat.leb_le; apply true_length_le).
      rewrite andb_true_r. reflexivity. }
  destruct (1 <=? b * T * E); cbn [require bind andb]; [|reflexivity].
  destruct (forallb (fun n => 1 <=? n) lens); cbn [require bind]; [|reflexivity].
  f_equal. f_equal.
  rewrite <- Hlsl at 1.
  rewrite (map_combine_seq
             (fun p n => map (fun i => chunk E (p * T + i)
                                        (flat_map (fun r => chunk (T * E) r e) sp))
                             (seq 0 n)) 0 sl 0).
  rewrite Hlsl, <- Hlsp at 1. rewrite <- (map_seq_nth (fun r => frames_of r (len r)) 0 sp).
  apply map_ext_in. intros p Hpin. apply in_seq in Hpin. rewrite Hlsp in Hpin.
  rewrite Nat.sub_0_r.
  assert (Hr : nth p sp 0 < b).
  { assert (Hi : In (nth p sp 0) sp) by (apply nth_In; lia).
    apply (Permutation_in _ Hp) in Hi. apply in_seq in Hi. lia. }
  assert (Hn : nth p sl 0 = len (nth p sp 0)).
  { rewrite Hv. rewrite nth_indep with (d' := nth 0 lens 0)
      by (rewrite length_map; lia).
    rewrite (map_nth (fun i => nth i lens 0) sp 0 p). apply nth_lens. exact Hr. }
  rewrite Hn. unfold BiLSTMEmbedderTrace.frames_of.
  apply map_ext_in. intros i Hi. apply in_seq in Hi.
  apply sorted_frame with (b := b); [exact Hwfe | exact Hp | lia |].
  pose proof (true_length_le pad inputs T (nth p sp 0)). lia.
Qed.

Lemma dims_ok : forallb (fun i => (dim i =? 2) || (dim i =? 3)) inputs = true.
Proof.
  apply forallb_forall. intros i Hi.
  destruct (Hin i Hi) as (_ & [Hs|(k & Hs)]); unfold dim; rewrite Hs; reflexivity.
Qed.

Lemma longest_eq (sp : list nat) :
  Permutation sp (seq 0 b) ->
  list_max (map (@length _) (map (fun r => encoded r (len r)) sp)) = list_max lens.
Proof.
  intros Hsp. rewrite map_map.
  rewrite map_ext with (g := len) by (intros r; apply length_encoded).
  apply list_max_perm. unfold BiLSTMEmbedderTrace.true_lengths.
  apply Permutation_map. exact Hsp.
Qed.

(** [forward] packs, encodes and pads every sequence on its own, in the
    order of the batch, or fails in the packing routine. *)
Lemma forward_eq_bilstm :
  BiLSTMEmbedder.forward zero tsort self inputs
  = if (1 <=? b * T * E) && forallb (fun n => 1 <=? n) lens
    then Ok (mkTensor [b; list_max lens; 2 * hidden]
               (flat_map (fun o => row_out (list_max lens) o (len o)) (seq 0 b)))
    else Raise RuntimeError.
Proof.
  unfold BiLSTMEmbedder.forward. rewrite dims_ok. cbn [py_assert bind].
  rewrite Hemb. cbn [bind].
  rewrite seq_lengths_eq with (pad := pad) (b := b) (T := T) by auto.
  cbn [bind data].
  pose proof (tsort_spec true lens) as Hr.
  destruct (tsort true lens) as [sl sp].
  assert (Hsp : Permutation sp (seq 0 b)).
  { destruct Hr as (Hp & _). cbn [snd] in Hp. rewrite length_lens in Hp. exact Hp. }
  rewrite index_rows_eq by exact Hsp. cbn [bind].
  rewrite pack_eq by exact Hr.
  destruct ((1 <=? b * T * E) && forallb (fun n => 1 <=? n) lens);
    cbn [bind]; [|reflexivity].
  unfold lstm_forward. cbn [features sequences].
  rewrite <- HE, Nat.eqb_refl. cbn [require bind].
  pose proof (tsort_spec false sp) as Ho.
  destruct (tsort false sp) as [v op].
  destruct (@sort_inverse sp b (v, op) Hsp Ho) as (Hinv & Hop). cbn [snd] in Hinv, Hop.
  unfold pad_packed_sequence. cbn [sequences features].
  rewrite map_map.
  change (map (fun x => bidirectional net 1 (bidirectional net 0 (frames_of x (len x)))) sp)
    with (map (fun r => encoded r (len r)) sp).
  rewrite longest_eq by exact Hsp.
  rewrite length_map, (Permutation_length Hsp), length_seq.
  rewrite index_rows_eq by exact Hop. cbn [bind].
  f_equal. f_equal.
  cbn [numel fold_right]. rewrite Nat.mul_1_r.
  rewrite flat_map_map.
  rewrite <- Hinv, flat_map_map.
  apply flat_map_ext_in. intros i Hi.
  apply (Permutation_in _ Hop) in Hi. apply in_seq in Hi.
  rewrite flat_map_ext with (g := fun r => row_out (list_max lens) r (len r)).
  2:{ intros r. unfold BiLSTMEmbedderTrace.row_out.
      rewrite length_encoded. reflexivity. }
  rewrite chunk_flat_map with (d := 0).
  - reflexivity.
  - intros r Hr'. apply (Permutation_in _ Hsp) in Hr'. apply in_seq in Hr'.
    apply length_row_out; [exact Hcell|]. apply len_le_max. lia.
  - rewrite (Permutation_length Hsp), length_seq. lia.
Qed.

End BiLSTMForward.

(** ** BiLSTMEmbedder: the time axis of the output *)

Lemma true_length_padded_end (pad : Z) (inputs : list (Tensor Z)) (T o : nat) :
  1 <= T ->
  BiLSTMEmbedderTrace.is_real pad inputs T o (T - 1) = false ->
  BiLSTMEmbedderTrace.true_length pad inputs T o <= T - 1.
Proof.
  intros HT Hpad. unfold BiLSTMEmbedderTrace.true_length.
  replace T with (T - 1 + 1) at 2 by lia.
  rewrite seq_app, filter_app. cbn [seq filter Nat.add].
  rewrite Hpad, app_nil_r.
  eapply Nat.le_trans; [apply filter_length_le|].
  rewrite length_seq. apply Nat.le_refl.
Qed.

(** C10: the derived lengths are the counts of real time steps; when
    [forward] returns, the time axis of its output is the largest of them,
    and it returns whenever no derived length is 0 and the embedded batch is
    not empty; that largest length is smaller than the input's number of
    time steps when every sequence ends with a padding position. *)
Theorem BiLSTMEmbedder_output_time (A St : Type) (zero : A)
    (tsort : bool -> list nat -> list nat * list nat)
    (self : BiLSTMEmbedder.t A St) (inputs : list (Tensor Z)) (b T E : nat)
    (e : list A) :
  BiLSTMEmbedderTrace.sort_ok tsort ->
  BiLSTMEmbedderTrace.cell_ok (BiLSTMEmbedder.lstm self) ->
  BiLSTMEmbedderTrace.channels_ok inputs b T ->
  BiLSTMEmbedder.embedder self inputs = Ok (mkTensor [b; T; E] e) ->
  length e = b * T * E ->
  E = lstm_input_size (BiLSTMEmbedder.lstm self) ->
  let lens := BiLSTMEmbedderTrace.true_lengths
                (BiLSTMEmbedder.padding_idx self) inputs b T in
  BiLSTMEmbedder.seq_lengths_of self inputs = Ok (mkTensor [b] lens)
  /\ (forall out,
        BiLSTMEmbedder.forward zero tsort self inputs = Ok out ->
        size out 1 = Ok (list_max lens))
  /\ (1 <= b * T * E -> Forall (fun n => 1 <= n) lens ->
      exists out, BiLSTMEmbedder.forward zero tsort self inputs = Ok out)
  /\ (1 <= T ->
      (forall o, o < b ->
         BiLSTMEmbedderTrace.is_real (BiLSTMEmbedder.padding_idx self) inputs T o (T - 1)
         = false) ->
      list_max lens < T).
Proof.
  intros Hsort Hcell (Hne & Hin) Hemb Hwfe HE lens.
  pose proof (@forward_eq_bilstm A St zero tsort Hsort self Hcell inputs b T E e
                Hne Hin Hemb Hwfe HE) as Hf.
  fold lens in Hf.
  split; [|split; [|split]].
  - apply seq_lengths_eq with (T := T); auto.
  - intros out Hout. rewrite Hf in Hout.
    destruct ((1 <=? b * T * E) && forallb (fun n => 1 <=? n) lens); [|discriminate].
    injection Hout as <-. apply size_1.
  - intros Hnum Hpos. rewrite Hf.
    replace (1 <=? b * T * E) with true by (symmetry; apply Nat.leb_le; exact Hnum).
    replace (forallb (fun n => 1 <=? n) lens) with true.
    + eexists. reflexivity.
    + symmetry. apply forallb_forall. intros n Hn.
      rewrite Forall_forall in Hpos. apply Nat.leb_le. apply Hpos. exact Hn.
  - intros HT Hend.
    assert (Hle : list_max lens <= T - 1).
    { apply list_max_le. apply Forall_forall. intros n Hn.
      unfold lens, BiLSTMEmbedderTrace.true_lengths in Hn.
      apply in_map_iff in Hn. destruct Hn as (o & <- & Ho). apply in_seq in Ho.
      apply true_length_padded_end; [exact HT | apply Hend; lia]. }
    lia.
Qed.

Lemma BiLSTMEmbedder_output_time_witness :
  let lens := BiLSTMEmbedderTrace.true_lengths
                (BiLSTMEmbedder.padding_idx Examples.embedder) Examples.batch 2 3 in
  BiLSTMEmbedder.seq_lengths_of Examples.embedder Examples.batch = Ok (mkTensor [2] lens)
  /\ (forall out,
        BiLSTMEmbedder.forward 0%Z stable_sort Examples.embedder Examples.batch = Ok out ->
        size out 1 = Ok (list_max lens))
  /\ (1 <= 2 * 3 * 1 -> Forall (fun n => 1 <= n) lens ->
      exists out,
        BiLSTMEmbedder.forward 0%Z stable_sort Examples.embedder Examples.batch = Ok out)
  /\ (1 <= 3 ->
      (forall o, o < 2 ->
         BiLSTMEmbedderTrace.is_real (BiLSTMEmbedder.padding_idx Examples.embedder)
           Examples.batch 3 o (3 - 1) = false) ->
      list_max lens < 3).
Proof.
  apply (@BiLSTMEmbedder_output_time Z Z 0%Z stable_sort Examples.embedder
           Examples.batch 2 3 1 [5; 6; 0; 7; 0; 0]%Z).
  - exact stable_sort_spec.
  - intros layer reverse s x. reflexivity.
  - split; [discriminate|].
    intros i [<-|[]]. split; [reflexivity | left; reflexivity].
  - reflexivity.
  - reflexivity.
  - reflexivity.
Defined.

(** X12: when [forward] returns, its output has the shape (batch, longest
    derived length, [2 * hidden_size]), and in it every frame from the
    derived length of a sequence up to the end of the time axis is zero. *)
Lemma BiLSTMEmbedder_zero_beyond_length (A St : Type) (zero : A)
    (tsort : bool -> list nat -> list nat * list nat)
    (self : BiLSTMEmbedder.t A St) (inputs : list (Tensor Z)) (b T E : nat)
    (e : list A) (out : Tensor A) :
  BiLSTMEmbedderTrace.sort_ok tsort ->
  BiLSTMEmbedderTrace.cell_ok (BiLSTMEmbedder.lstm self) ->
  BiLSTMEmbedderTrace.channels_ok inputs b T ->
  BiLSTMEmbedder.embedder self inputs = Ok (mkTensor [b; T; E] e) ->
  length e = b * T * E ->
  E = lstm_input_size (BiLSTMEmbedder.lstm self) ->
  BiLSTMEmbedder.forward zero tsort self inputs = Ok out ->
  let lens := BiLSTMEmbedderTrace.true_lengths
                (BiLSTMEmbedder.padding_idx self) inputs b T in
  shape out = [b; list_max lens; 2 * lstm_hidden_size (BiLSTMEmbedder.lstm self)]
  /\ forall o j,
       o < b ->
       BiLSTMEmbedderTrace.true_length (BiLSTMEmbedder.padding_idx self) inputs T o <= j ->
       j < list_max lens ->
       chunk (2 * lstm_hidden_size (BiLSTMEmbedder.lstm self))
         (o * list_max lens + j) (data out)
       = repeat zero (2 * lstm_hidden_size (BiLSTMEmbedder.lstm self)).
Proof.
  intros Hsort Hcell (Hne & Hin) Hemb Hwfe HE Hout lens.
  rewrite (@forward_eq_bilstm A St zero tsort Hsort self Hcell inputs b T E e
             Hne Hin Hemb Hwfe HE) in Hout.
  fold lens in Hout.
  destruct ((1 <=? b * T * E) && forallb (fun n => 1 <=? n) lens); [|discriminate].
  injection Hout as <-. split; [reflexivity|]. cbn [data].
  intros o j Ho Hlen Hj.
  rewrite <- chunk_chunk by exact Hj.
  rewrite chunk_flat_map_seq
    with (f := fun r => BiLSTMEmbedderTrace.row_out zero (BiLSTMEmbedder.lstm self)
                          e E T (list_max lens) r
                          (BiLSTMEmbedderTrace.true_length
                             (BiLSTMEmbedder.padding_idx self) inputs T r)).
  - apply row_out_zero; assumption.
  - intros r Hr. apply length_row_out; [exact Hcell|].
    apply len_le_max. exact Hr.
  - exact Ho.
Qed.

(** C3 at a batch whose only sequence ends with padding: the output has one
    time step, the input has two. *)
Lemma BiLSTMEmbedder_padded_batch_shape :
  BiLSTMEmbedder.embedder Examples.embedder Examples.padded_batch
  = Ok (mkTensor [1; 2; 1] [5; 0]%Z)
  /\ BiLSTMEmbedder.forward 0%Z stable_sort Examples.embedder Examples.padded_batch
     = Ok (mkTensor [1; 1; 2] [13; 13]%Z).
Proof.
  split; reflexivity.
Qed.

(** ** BiLSTMEmbedder: the order of the batch *)

Section PermutedBatch.
Variable pad : Z.
Variable inputs : list (Tensor Z).
Variables b T : nat.
Variable p : list nat.

Hypothesis Hok : BiLSTMEmbedderTrace.channels_ok inputs b T.
Hypothesis Hp : Permutation p (seq 0 b).

Local Abbreviation permute_rows := (BiLSTMEmbedderTrace.permute_rows p).
Local Abbreviation width := BiLSTMEmbedderTrace.width.

Lemma length_perm : length p = b.
Proof. rewrite (Permutation_length Hp). apply length_seq. Qed.

Lemma nth_perm_lt (o : nat) : o < b -> nth o p 0 < b.
Proof.
  intros Ho. assert (Hi : In (nth o p 0) p) by (apply nth_In; rewrite length_perm; exact Ho).
  apply (Permutation_in _ Hp) in Hi. apply in_seq in Hi. lia.
Qed.

Lemma permuted_channel (i : Tensor Z) :
  In i inputs ->
  shape (permute_rows i) = shape i
  /\ width (permute_rows i) = width i
  /\ numel (tl (shape i)) = T * width i
  /\ length (data i) = b * T * width i.
Proof.
  intros Hi. destruct Hok as (_ & Hin).
  destruct (Hin i Hi) as (Hwf & [Hs|(k & Hs)]);
    unfold wf in Hwf; unfold BiLSTMEmbedderTrace.permute_rows, BiLSTMEmbedderTrace.width;
    cbn [shape]; rewrite Hs in *; cbn [tl numel fold_right] in *;
    rewrite length_perm; repeat split; lia.
Qed.

Lemma permuted_chunk (i : Tensor Z) (o j : nat) :
  In i inputs -> o < b -> j < T ->
  chunk (width (permute_rows i)) (o * T + j) (data (permute_rows i))
  = chunk (width i) (nth o p 0 * T + j) (data i).
Proof.
  intros Hi Ho Hj. destruct (permuted_channel i Hi) as (_ & Hw & Hn & Hlen).
  rewrite Hw. unfold BiLSTMEmbedderTrace.permute_rows. cbn [data]. rewrite Hn.
  apply sorted_frame with (b := b); assumption.
Qed.

Lemma permuted_channels_ok :
  BiLSTMEmbedderTrace.channels_ok (map permute_rows inputs) b T.
Proof.
  destruct Hok as (Hne & Hin). split.
  - destruct inputs; [congruence | discriminate].
  - intros i' Hi'. apply in_map_iff in Hi'. destruct Hi' as (i & <- & Hi).
    destruct (permuted_channel i Hi) as (Hs & _ & Hn & Hlen). split.
    + unfold wf. rewrite Hs. destruct (Hin i Hi) as (Hwf & _). unfold wf in Hwf.
      rewrite <- Hwf, Hlen.
      unfold BiLSTMEmbedderTrace.permute_rows. cbn [data].
      rewrite flat_map_constant_length with (c := T * width i).
      * rewrite length_perm. lia.
      * intros r Hr. apply (Permutation_in _ Hp) in Hr. apply in_seq in Hr.
        rewrite Hn. apply length_chunk. rewrite Hlen, <- Nat.mul_assoc.
        apply row_bound. lia.
    + rewrite Hs. apply Hin. exact Hi.
Qed.

(** The derived length of a row of the permuted batch is that of the row it
    came from. *)
Lemma permuted_length (o : nat) :
  o < b ->
  BiLSTMEmbedderTrace.true_length pad (map permute_rows inputs) T o
  = BiLSTMEmbedderTrace.true_length pad inputs T (nth o p 0).
Proof.
  intros Ho. unfold BiLSTMEmbedderTrace.true_length. f_equal.
  apply filter_ext_in. intros j Hj. apply in_seq in Hj.
  unfold BiLSTMEmbedderTrace.is_real, BiLSTMEmbedderTrace.channels_at. f_equal.
  rewrite flat_map_map. apply flat_map_ext_in. intros i Hi.
  apply permuted_chunk; [exact Hi | exact Ho | lia].
Qed.

Lemma permuted_lengths :
  BiLSTMEmbedderTrace.true_lengths pad (map permute_rows inputs) b T
  = map (BiLSTMEmbedderTrace.true_length pad inputs T) p.
Proof.
  unfold BiLSTMEmbedderTrace.true_lengths.
  rewrite <- (map_seq_nth (BiLSTMEmbedderTrace.true_length pad inputs T) 0 p).
  rewrite length_perm. apply map_ext_in. intros o Ho. apply in_seq in Ho.
  apply permuted_length. lia.
Qed.

Lemma permuted_lengths_perm :
  Permutation (BiLSTMEmbedderTrace.true_lengths pad (map permute_rows inputs) b T)
              (BiLSTMEmbedderTrace.true_lengths pad inputs b T).
Proof.
  rewrite permuted_lengths. unfold BiLSTMEmbedderTrace.true_lengths.
  apply Permutation_map. exact Hp.
Qed.

End PermutedBatch.

Lemma permuted_frames {A : Type} (e : list A) (b T E : nat) (p : list nat) (o n : nat) :
  length e = b * T * E ->
  Permutation p (seq 0 b) -> o < b -> n <= T ->
  BiLSTMEmbedderTrace.frames_of (flat_map (fun r => chunk (T * E) r e) p) E T o n
  = BiLSTMEmbedderTrace.frames_of e E T (nth o p 0) n.
Proof.
  intros Hwfe Hp Ho Hn. unfold BiLSTMEmbedderTrace.frames_of.
  apply map_ext_in. intros i Hi. apply in_seq in Hi.
  apply sorted_frame with (b := b); [assumption | assumption | assumption | lia].
Qed.

Lemma length_permuted {A : Type} (e : list A) (b k : nat) (p : list nat) :
  length e = b * k ->
  Permutation p (seq 0 b) ->
  length (flat_map (fun r => chunk k r e) p) = b * k.
Proof.
  intros Hwfe Hp. rewrite flat_map_constant_length with (c := k).
  - rewrite (Permutation_length Hp), length_seq. reflexivity.
  - intros r Hr. apply (Permutation_in _ Hp) in Hr. apply in_seq in Hr.
    apply length_chunk. rewrite Hwfe. apply row_bound. lia.
Qed.

(** Selecting rows by the sort's index vector and then by the index vector
    of its increasing sort gives the tensor back. *)
Lemma index_rows_inverse {U : Type} (tsort : bool -> list nat -> list nat * list nat)
    (lens : list nat) (rest : list nat) (d : list U) :
  BiLSTMEmbedderTrace.sort_ok tsort ->
  length d = length lens * numel rest ->
  let sent_perm := snd (tsort true lens) in
  let original_perm := snd (tsort false sent_perm) in
  (y <- index_rows (mkTensor (length lens :: rest) d) sent_perm ;;
   index_rows y original_perm)
  = Ok (mkTensor (length lens :: rest) d).
Proof.
  intros Hsort Hwf sent_perm original_perm.
  destruct (Hsort true lens) as (Hsp & _). fold sent_perm in Hsp.
  pose proof (Hsort false sent_perm) as Ho.
  destruct (@sort_inverse sent_perm (length lens) (tsort false sent_perm) Hsp Ho)
    as (Hinv & Hop).
  fold original_perm in Hinv, Hop.
  rewrite index_rows_eq by exact Hsp. cbn [bind].
  rewrite index_rows_eq by exact Hop. f_equal. f_equal.
  rewrite flat_map_ext_in
    with (g := fun i => chunk (numel rest) (nth i sent_perm 0) d).
  - rewrite <- (flat_map_map (fun i => nth i sent_perm 0)
                  (fun r => chunk (numel rest) r d)).
    rewrite Hinv. apply flat_map_chunk. exact Hwf.
  - intros i Hi. apply (Permutation_in _ Hop) in Hi. apply in_seq in Hi.
    apply chunk_flat_map with (f := fun r => chunk (numel rest) r d) (d := 0).
    + intros r Hr. apply (Permutation_in _ Hsp) in Hr. apply in_seq in Hr.
      apply length_chunk. rewrite Hwf. apply row_bound. lia.
    + rewrite (Permutation_length Hsp), length_seq. lia.
Qed.

Lemma chunk_app_l {T : Type} (k j : nat) (l r : list T) :
  (j + 1) * k <= length l -> chunk k j (l ++ r) = chunk k j l.
Proof.
  intros H. unfold chunk.
  rewrite skipn_app, firstn_app, length_skipn.
  replace (k - (length l - j * k)) with 0 by lia.
  rewrite firstn_O, app_nil_r. reflexivity.
Qed.

Lemma chunk_concat {T : Type} (k j : nat) (l : list (list T)) :
  Forall (fun v => length v = k) l -> j < length l ->
  chunk k j (concat l) = nth j l [].
Proof.
  intros Hl Hj.
  replace (concat l) with (flat_map (fun v : list T => v) l)
    by (rewrite flat_map_concat_map, map_id; reflexivity).
  apply chunk_flat_map with (f := fun v : list T => v) (d := @nil T).
  - intros v Hv. rewrite Forall_forall in Hl. apply Hl. exact Hv.
  - exact Hj.
Qed.

(** A frame of the output before the derived length of its sequence is
    the frame the recurrent layer emits there for that sequence alone. *)
Lemma forward_frame_encoded (A St : Type) (zero : A)
    (tsort : bool -> list nat -> list nat * list nat)
    (self : BiLSTMEmbedder.t A St) (inputs : list (Tensor Z)) (b T E : nat)
    (e : list A) (out : Tensor A) (o j : nat) :
  BiLSTMEmbedderTrace.sort_ok tsort ->
  BiLSTMEmbedderTrace.cell_ok (BiLSTMEmbedder.lstm self) ->
  BiLSTMEmbedderTrace.channels_ok inputs b T ->
  BiLSTMEmbedder.embedder self inputs = Ok (mkTensor [b; T; E] e) ->
  length e = b * T * E ->
  E = lstm_input_size (BiLSTMEmbedder.lstm self) ->
  BiLSTMEmbedder.forward zero tsort self inputs = Ok out ->
  o < b ->
  j < BiLSTMEmbedderTrace.true_length (BiLSTMEmbedder.padding_idx self) inputs T o ->
  chunk (2 * lstm_hidden_size (BiLSTMEmbedder.lstm self))
    (o * list_max (BiLSTMEmbedderTrace.true_lengths
                     (BiLSTMEmbedder.padding_idx self) inputs b T) + j)
    (data out)
  = nth j (BiLSTMEmbedderTrace.encoded (BiLSTMEmbedder.lstm self) e E T o
             (BiLSTMEmbedderTrace.true_length
                (BiLSTMEmbedder.padding_idx self) inputs T o)) [].
Proof.
  intros Hsort Hcell (Hne & Hin) Hemb Hwfe HE Hout Ho Hj.
  rewrite (@forward_eq_bilstm A St zero tsort Hsort self Hcell inputs b T E e
             Hne Hin Hemb Hwfe HE) in Hout.
  set (lens := BiLSTMEmbedderTrace.true_lengths (BiLSTMEmbedder.padding_idx self)
                 inputs b T) in *.
  set (len := BiLSTMEmbedderTrace.true_length (BiLSTMEmbedder.padding_idx self)
                inputs T) in *.
  destruct ((1 <=? b * T * E) && forallb (fun n => 1 <=? n) lens); [|discriminate].
  injection Hout as <-. cbn [data].
  assert (Hmax : len o <= list_max lens) by (apply len_le_max; exact Ho).
  rewrite <- chunk_chunk by lia.
  rewrite chunk_flat_map_seq
    with (f := fun r => BiLSTMEmbedderTrace.row_out zero (BiLSTMEmbedder.lstm self)
                          e E T (list_max lens) r (len r)).
  - unfold BiLSTMEmbedderTrace.row_out.
    assert (Hw : Forall (fun v => length v = 2 * lstm_hidden_size (BiLSTMEmbedder.lstm self))
                   (BiLSTMEmbedderTrace.encoded (BiLSTMEmbedder.lstm self) e E T o (len o)))
      by (apply bidirectional_widths; exact Hcell).
    rewrite chunk_app_l.
    + apply chunk_concat; [exact Hw|]. rewrite length_encoded. exact Hj.
    + rewrite length_concat_const with (k := 2 * lstm_hidden_size (BiLSTMEmbedder.lstm self))
        by exact Hw.
      rewrite length_encoded. apply Nat.mul_le_mono_r. lia.
  - intros r Hr. apply length_row_out; [exact Hcell|]. apply len_le_max. exact Hr.
  - exact Ho.
Qed.




(** * Further properties *)

(** ** ContextWindow: assertions, padding and the contents of a window *)

(** X1: [ContextWindow.forward] raises [AssertionError] exactly on inputs whose
    rank is not 3, whatever the window is; on a rank-3 input every failure
    is the framework's. *)
Theorem ContextWindow_assertion_iff_rank (A : Type) (zero : A) (w : nat)
    (x : Tensor A) :
  ContextWindow.forward zero w x = Raise AssertionError <-> dim x <> 3.
Proof.
  split.
  - intros H Hd. destruct x as [s d]. unfold dim in Hd. cbn [shape] in Hd.
    destruct s as [|b [|l [|f [|? ?]]]]; try discriminate.
    destruct (Nat.eq_dec w 0) as [->|Hw].
    + discriminate.
    + rewrite forward_eq in H by lia.
      destruct ((0 <? b) && (0 <? l)); discriminate.
  - intros H. unfold ContextWindow.forward.
    destruct (Nat.eqb_spec (dim x) 3); [contradiction | reflexivity].
Qed.

(** X2: [_pad] puts [window] zero frames in front of every sequence
    ([pad_first]) or behind it, leaves the frames of the sequence as they
    are, and never fails on a rank-3 input; on any other rank its assertion
    fails. *)
Theorem ContextWindow_pad_frames (A : Type) (zero : A) (w b n f : nat)
    (e : list A) (pad_first : bool) :
  ContextWindow._pad zero w (mkTensor [b; n; f] e) pad_first
  = Ok (mkTensor [b; n + w; f]
          (flat_map
             (fun o => if pad_first
                       then repeat zero (w * f) ++ chunk (n * f) o e
                       else chunk (n * f) o e ++ repeat zero (w * f))
             (seq 0 b)))
  /\ forall x : Tensor A,
       dim x <> 3 -> ContextWindow._pad zero w x pad_first = Raise AssertionError.
Proof.
  split.
  - rewrite pad_eq. f_equal. f_equal.
    apply flat_map_ext_in. intros o Ho. apply in_seq in Ho.
    rewrite chunk_repeat by (apply row_bound; lia). reflexivity.
  - intros x Hx. unfold ContextWindow._pad.
    destruct (Nat.eqb_spec (dim x) 3); [contradiction | reflexivity].
Qed.

Lemma flat_map_seq_shift {U : Type} (g : nat -> list U) (a n : nat) :
  flat_map g (seq a n) = flat_map (fun k => g (a + k)) (seq 0 n).
Proof.
  rewrite (seq_shift_add a n), flat_map_map. reflexivity.
Qed.

(** X3: away from the ends of a sequence a window holds no padding: the output
    vector at time step [i], with [w <= i] and [i + w < l], is the
    [(2w+1) * f] consecutive elements of the input that start at frame
    [i - w] of the sequence. *)
Theorem ContextWindow_interior_window (A : Type) (zero : A) (w b l f : nat)
    (d : list A) (o i : nat) :
  length d = b * l * f -> 1 <= w -> o < b -> w <= i -> i + w < l ->
  exists out,
    ContextWindow.forward zero w (mkTensor [b; l; f] d) = Ok out
    /\ chunk ((2 * w + 1) * f) (o * l + i) (data out)
       = firstn ((2 * w + 1) * f) (skipn ((o * l + (i - w)) * f) d).
Proof.
  intros Hwf Hw Ho Hi Hiw. eexists. split.
  - rewrite forward_eq by exact Hw.
    replace (0 <? b) with true by (symmetry; solve_bool).
    replace (0 <? l) with true by (symmetry; solve_bool).
    reflexivity.
  - cbn [data]. rewrite (stacked_frame zero w f d Hwf) by lia.
    unfold ContextWindowTrace.context.
    assert (Hd : flat_map (fun q => chunk f q d) (seq 0 (b * l)) = d)
      by (apply flat_map_chunk; rewrite Hwf; reflexivity).
    symmetry. rewrite <- Hd at 1. rewrite firstn_skipn_blocks.
    + rewrite flat_map_seq_shift. apply flat_map_ext_in. intros k Hk.
      apply in_seq in Hk. unfold ContextWindowTrace.frame_or_zero.
      replace ((0 <=? Z.of_nat i + Z.of_nat k - Z.of_nat w)%Z
               && (Z.of_nat i + Z.of_nat k - Z.of_nat w <? Z.of_nat l)%Z) with true
        by (symmetry; solve_bool).
      unfold ContextWindowTrace.frame. f_equal. lia.
    + intros q Hq. apply length_chunk. rewrite Hwf.
      replace (b * l * f) with ((b * l) * f) by lia. apply row_bound. exact Hq.
    + assert (o * l + l <= b * l) by nia. lia.
Qed.

Lemma ContextWindow_interior_window_witness :
  exists out,
    ContextWindow.forward 0%Z 1 (mkTensor [1; 3; 1] [7; 8; 9]%Z) = Ok out
    /\ chunk ((2 * 1 + 1) * 1) (0 * 3 + 1) (data out)
       = firstn ((2 * 1 + 1) * 1) (skipn ((0 * 3 + (1 - 1)) * 1) [7; 8; 9]%Z).
Proof.
  apply (@ContextWindow_interior_window Z 0%Z 1 1 3 1 [7; 8; 9]%Z 0 1);
    simpl; lia.
Defined.

(** X4: at every time step, also at the ends of a sequence, the middle frame of
    the output vector is the input frame of that time step. *)
Theorem ContextWindow_centre_frame (A : Type) (zero : A) (w b l f : nat)
    (d : list A) (o i : nat) :
  length d = b * l * f -> 1 <= w -> o < b -> i < l ->
  exists out,
    ContextWindow.forward zero w (mkTensor [b; l; f] d) = Ok out
    /\ chunk f w (chunk ((2 * w + 1) * f) (o * l + i) (data out))
       = chunk f (o * l + i) d.
Proof.
  intros Hwf Hw Ho Hi. eexists. split.
  - rewrite forward_eq by exact Hw.
    replace (0 <? b) with true by (symmetry; solve_bool).
    replace (0 <? l) with true by (symmetry; solve_bool).
    reflexivity.
  - cbn [data]. rewrite (stacked_frame zero w f d Hwf) by lia.
    unfold ContextWindowTrace.context.
    rewrite chunk_flat_map_seq
      with (f := fun k => ContextWindowTrace.frame_or_zero zero l f d o
                            (Z.of_nat i + Z.of_nat k - Z.of_nat w)%Z).
    + unfold ContextWindowTrace.frame_or_zero.
      replace ((0 <=? Z.of_nat i + Z.of_nat w - Z.of_nat w)%Z
               && (Z.of_nat i + Z.of_nat w - Z.of_nat w <? Z.of_nat l)%Z) with true
        by (symmetry; solve_bool).
      unfold ContextWindowTrace.frame. f_equal. lia.
    + intros k _. apply (length_frame_or_zero zero l f d Hwf). exact Ho.
    + lia.
Qed.

Lemma ContextWindow_centre_frame_witness :
  exists out,
    ContextWindow.forward 0%Z 1 (mkTensor [1; 2; 1] [7; 8]%Z) = Ok out
    /\ chunk 1 1 (chunk ((2 * 1 + 1) * 1) (0 * 2 + 0) (data out))
       = chunk 1 (0 * 2 + 0) [7; 8]%Z.
Proof.
  apply (@ContextWindow_centre_frame Z 0%Z 1 1 2 1 [7; 8]%Z 0 0); simpl; lia.
Defined.

(** X5: two context windows in a row: the second reads the output of the first,
    and the features multiply. *)
Theorem ContextWindow_twice_shape (A : Type) (zero : A) (w1 w2 b l f : nat)
    (d : list A) :
  1 <= w1 -> 1 <= w2 -> 1 <= b -> 1 <= l ->
  exists out,
    (y <- ContextWindow.forward zero w1 (mkTensor [b; l; f] d) ;;
     ContextWindow.forward zero w2 y) = Ok out
    /\ shape out = [b; l; (2 * w2 + 1) * ((2 * w1 + 1) * f)].
Proof.
  intros H1 H2 Hb Hl.
  rewrite forward_eq by exact H1.
  replace (0 <? b) with true by (symmetry; solve_bool).
  replace (0 <? l) with true by (symmetry; solve_bool).
  cbn [andb bind]. rewrite forward_eq by exact H2.
  replace (0 <? b) with true by (symmetry; solve_bool).
  replace (0 <? l) with true by (symmetry; solve_bool).
  eexists. split; reflexivity.
Qed.

Lemma ContextWindow_twice_shape_witness :
  exists out,
    (y <- ContextWindow.forward 0%Z 1 (mkTensor [1; 2; 1] [7; 8]%Z) ;;
     ContextWindow.forward 0%Z 2 y) = Ok out
    /\ shape out = [1; 2; (2 * 2 + 1) * ((2 * 1 + 1) * 1)].
Proof.
  apply (@ContextWindow_twice_shape Z 0%Z 1 2 1 2 1 [7; 8]%Z); lia.
Defined.

(** ** TimeDistributed around any module *)

(** X6: on an input whose trailing axes are not empty and whose first two
    axes can be merged, the wrapped module is given the [(b * t, ...)] view
    of the input; when it returns a tensor of [b * t] rows,
    [TimeDistributed.forward] returns the same elements with the first axis
    split back into [b] and [t], the other axes of the module's output
    kept. *)
Theorem TimeDistributed_forward_reshape (A B : Type)
    (module : Strided A -> result (Strided B)) (b t k : nat) (rest : list nat)
    (d : list A) (s0 s1 : nat) (srest : list nat) :
  length srest = S (length rest) ->
  numel (k :: rest) <> 0 ->
  TimeDistributedTrace.mergeable
    (mkStrided (mkTensor (b :: t :: k :: rest) d) (s0 :: s1 :: srest)) = true ->
  exists v,
    TimeDistributedTrace.flattened
      (mkStrided (mkTensor (b :: t :: k :: rest) d) (s0 :: s1 :: srest)) = Ok v
    /\ logical v = mkTensor (b * t :: k :: rest) d
    /\ forall out r',
         module v = Ok out ->
         shape (logical out) = b * t :: r' ->
         length (strides out) = S (length r') ->
         exists y,
           TimeDistributed.forward module
             (mkStrided (mkTensor (b :: t :: k :: rest) d) (s0 :: s1 :: srest)) = Ok y
           /\ logical y = mkTensor (b :: t :: r') (data (logical out)).
Proof.
  intros Hlayout Hn Hm.
  destruct (@flattened_ok A b t k rest d s0 s1 srest Hlayout Hn Hm) as (st & Hv & _).
  exists (mkStrided (mkTensor (b * t :: k :: rest) d) st).
  split; [exact Hv | split; [reflexivity|]].
  intros out r' Ho Hs Hl.
  destruct (@TimeDistributed_outcomes A B module b t k rest d (s0 :: s1 :: srest) _ Hv)
    as (_ & _ & _ & H).
  exact (H out r' Ho Hs Hl).
Qed.

Lemma TimeDistributed_forward_reshape_witness :
  exists y,
    TimeDistributed.forward Examples.row_sums
      (contiguous (mkTensor [2; 3; 2] [1; 2; 3; 4; 5; 6; 7; 8; 9; 10; 11; 12]%Z)) = Ok y
    /\ logical y = mkTensor [2; 3; 1] [3; 7; 11; 15; 19; 23]%Z.
Proof.
  destruct (@TimeDistributed_forward_reshape Z Z Examples.row_sums 2 3 2 []
              [1; 2; 3; 4; 5; 6; 7; 8; 9; 10; 11; 12]%Z 6 2 [1])
    as (v & Hv & _ & H).
  - reflexivity.
  - simpl. lia.
  - reflexivity.
  - vm_compute in Hv. injection Hv as <-.
    apply (H (contiguous (mkTensor [6; 1] [3; 7; 11; 15; 19; 23]%Z)) [1]);
      reflexivity.
Defined.

(** X7: every outcome of [TimeDistributed.forward].  An input of rank 2 or
    less fails the first assertion.  On an input of rank 3 or more the
    first [view] raises when a trailing axis is empty or the first two axes
    cannot be merged; otherwise the module is called on the view, and then
    an exception of the module comes out unchanged, an output of rank 0
    makes [size(0)] raise, an output whose first axis is not [b * t] fails
    the second assertion, and every other output is returned reshaped. *)
Theorem TimeDistributed_failures (A B : Type)
    (module : Strided A -> result (Strided B)) :
  (forall x : Strided A,
     dim (logical x) <= 2 -> TimeDistributed.forward module x = Raise AssertionError)
  /\ (forall b t k rest d s0 s1 srest,
        length srest = S (length rest) ->
        let x := mkStrided (mkTensor (b :: t :: k :: rest) d) (s0 :: s1 :: srest) in
        (numel (k :: rest) = 0 \/ TimeDistributedTrace.mergeable x = false ->
         TimeDistributed.forward module x = Raise RuntimeError)
        /\ (numel (k :: rest) <> 0 -> TimeDistributedTrace.mergeable x = true ->
            exists v,
              TimeDistributedTrace.flattened x = Ok v
              /\ (forall e, module v = Raise e ->
                    TimeDistributed.forward module x = Raise e)
              /\ (forall out, module v = Ok out -> dim (logical out) = 0 ->
                    TimeDistributed.forward module x = Raise IndexError)
              /\ (forall out n r',
                    module v = Ok out -> shape (logical out) = n :: r' -> n <> b * t ->
                    TimeDistributed.forward module x = Raise AssertionError)
              /\ (forall out r',
                    module v = Ok out -> shape (logical out) = b * t :: r' ->
                    length (strides out) = S (length r') ->
                    is_ok (TimeDistributed.forward module x) = true))).
Proof.
  split; [apply TimeDistributed_rank|].
  intros b t k rest d s0 s1 srest Hlayout x. split.
  - intros H. unfold x. rewrite TimeDistributed_forward_eq.
    destruct (Nat.eq_dec (numel (k :: rest)) 0) as [Z|Z].
    + rewrite flattened_empty by exact Z. reflexivity.
    + destruct H as [H|H]; [contradiction|].
      rewrite flattened_fail by assumption. reflexivity.
  - intros Hn Hm.
    destruct (@flattened_ok A b t k rest d s0 s1 srest Hlayout Hn Hm) as (st & Hv & _).
    exists (mkStrided (mkTensor (b * t :: k :: rest) d) st).
    destruct (@TimeDistributed_outcomes A B module b t k rest d (s0 :: s1 :: srest) _ Hv)
      as (H1 & H2 & H3 & H4).
    split; [exact Hv|]. split; [exact H1|]. split; [exact H2|]. split; [exact H3|].
    intros out r' Ho Hs Hl. destruct (H4 out r' Ho Hs Hl) as (y & Hy & _).
    unfold x. rewrite Hy. reflexivity.
Qed.

Lemma TimeDistributed_failures_witness :
  TimeDistributed.forward Examples.row_sums (contiguous (mkTensor [2; 2] [1; 2; 3; 4]%Z))
  = Raise AssertionError
  /\ TimeDistributed.forward Examples.row_sums Examples.transposed
     = Raise RuntimeError
  /\ TimeDistributed.forward
       (fun _ : Strided Z => Ok (contiguous (mkTensor [3; 1] [0; 0; 0]%Z)))
       (contiguous (mkTensor [2; 1; 2] [1; 2; 3; 4]%Z))
     = Raise AssertionError.
Proof.
  split; [|split].
  - destruct (@TimeDistributed_failures Z Z Examples.row_sums) as (H & _).
    apply H. unfold dim. simpl. lia.
  - destruct (@TimeDistributed_failures Z Z Examples.row_sums) as (_ & H).
    destruct (H 2 2 2 [] [0; 1; 4; 5; 2; 3; 6; 7]%Z 2 4 [1] eq_refl) as (H1 & _).
    apply H1. right. reflexivity.
  - destruct (@TimeDistributed_failures Z Z
                (fun _ : Strided Z => Ok (contiguous (mkTensor [3; 1] [0; 0; 0]%Z))))
      as (_ & H).
    destruct (H 2 1 2 [] [1; 2; 3; 4]%Z 2 2 [1] eq_refl) as (_ & H2).
    destruct H2 as (v & Hv & _ & _ & H3 & _); [simpl; lia | reflexivity |].
    apply (H3 (contiguous (mkTensor [3; 1] [0; 0; 0]%Z)) 3 [1]);
      [reflexivity | reflexivity | lia].
Defined.

(** ** Concatenate: one sub-module, and the first failure *)

Lemma torch_cat_single {T : Type} (t : Tensor T) :
  wf t -> 1 <= dim t -> torch_cat [t] (-1) = Ok t.
Proof.
  intros Hwf Hd. destruct t as [s d]. unfold wf, dim in *. cbn [shape data] in *.
  assert (Hs : s = removelast s ++ [last s 0])
    by (apply app_removelast_last; destruct s; [simpl in Hd; lia | discriminate]).
  rewrite torch_cat_last_eq with (front := removelast s).
  - unfold last_size. cbn [map list_sum fold_right shape data flat_map].
    rewrite Nat.add_0_r, <- Hs. f_equal. f_equal.
    rewrite flat_map_ext with (g := fun o => chunk (last s 0) o d)
      by (intros o; apply app_nil_r).
    apply flat_map_chunk. rewrite Hwf. rewrite Hs at 1.
    rewrite numel_app. simpl. lia.
  - discriminate.
  - intros t [<-|[]]. split; [exact Hwf|]. exists (last s 0). exact Hs.
Qed.

(** X8: with a single sub-module, [Concatenate.forward] returns that
    sub-module's output as it is (a well-formed tensor of rank 1 or
    more). *)
Theorem Concatenate_single (A B : Type) (m : Tensor A -> result (Tensor B))
    (x : Tensor A) (t : Tensor B) :
  m x = Ok t -> wf t -> 1 <= dim t ->
  Concatenate.forward [m] [x] = Ok t.
Proof.
  intros Hm Hwf Hd. unfold Concatenate.forward.
  cbn [length Nat.eqb py_assert bind combine mapM fst snd].
  rewrite Hm. cbn [bind]. rewrite torch_cat_single by assumption. reflexivity.
Qed.

Lemma Concatenate_single_witness :
  Concatenate.forward [fun y : Tensor Z => Ok y] [mkTensor [1; 2] [1; 2]%Z]
  = Ok (mkTensor [1; 2] [1; 2]%Z).
Proof.
  apply (@Concatenate_single Z Z (fun y : Tensor Z => Ok y)
           (mkTensor [1; 2] [1; 2]%Z) (mkTensor [1; 2] [1; 2]%Z)).
  - reflexivity.
  - reflexivity.
  - unfold dim. simpl. lia.
Defined.

Lemma mapM_first_raise {T U : Type} (f : T -> result U) (l : list T) (k : nat)
    (d : T) (e : exn) :
  k < length l ->
  (forall j, j < k -> is_ok (f (nth j l d)) = true) ->
  f (nth k l d) = Raise e ->
  mapM f l = Raise e.
Proof.
  revert k. induction l as [|x l IH]; intros k Hk Hok Hf; simpl in Hk; [lia|].
  destruct k as [|k].
  - simpl in Hf. simpl. rewrite Hf. reflexivity.
  - simpl. pose proof (Hok 0 (Nat.lt_0_succ k)) as H0. simpl in H0.
    destruct (f x) as [y|e0]; [|discriminate]. cbn [bind].
    rewrite (IH k).
    + reflexivity.
    + lia.
    + intros j Hj. apply (Hok (S j)). lia.
    + exact Hf.
Qed.

(** X9: the sub-modules run in order and the first exception one of them
    raises comes out of [Concatenate.forward] unchanged. *)
Theorem Concatenate_first_failure (A B : Type)
    (modules : list (Tensor A -> result (Tensor B))) (inputs : list (Tensor A))
    (k : nat) (dm : Tensor A -> result (Tensor B)) (dx : Tensor A) (e : exn) :
  length inputs = length modules ->
  k < length modules ->
  (forall j, j < k -> is_ok (nth j modules dm (nth j inputs dx)) = true) ->
  nth k modules dm (nth k inputs dx) = Raise e ->
  Concatenate.forward modules inputs = Raise e.
Proof.
  intros Hlen Hk Hok Hf. unfold Concatenate.forward.
  rewrite Hlen, Nat.eqb_refl. cbn [py_assert bind].
  rewrite mapM_first_raise with (k := k) (d := (dm, dx)) (e := e).
  - reflexivity.
  - rewrite length_combine. lia.
  - intros j Hj. rewrite combine_nth by (symmetry; exact Hlen).
    cbn [fst snd]. apply Hok. exact Hj.
  - rewrite combine_nth by (symmetry; exact Hlen). exact Hf.
Qed.

Lemma Concatenate_first_failure_witness :
  Concatenate.forward
    [fun y : Tensor Z => Ok y; fun _ : Tensor Z => Raise ValueError;
     fun _ : Tensor Z => Raise IndexError]
    [mkTensor [1] [1%Z]; mkTensor [1] [2%Z]; mkTensor [1] [3%Z]]
  = Raise ValueError.
Proof.
  apply (@Concatenate_first_failure Z Z
           [fun y : Tensor Z => Ok y; fun _ : Tensor Z => Raise ValueError;
            fun _ : Tensor Z => Raise IndexError]
           [mkTensor [1] [1%Z]; mkTensor [1] [2%Z]; mkTensor [1] [3%Z]]
           1 (fun y : Tensor Z => Ok y) (mkTensor [1] [1%Z]) ValueError).
  - reflexivity.
  - simpl. lia.
  - intros j Hj. assert (j = 0) by lia. subst j. reflexivity.
  - reflexivity.
Defined.

(** ** CNNEncoder: assertions and max-over-time pooling *)

(** X10: [CNNEncoder.forward] fails its first assertion on an input whose rank
    is not 3 and its second on a rank-3 input whose last axis is not the
    configured input size, before the layer is applied. *)
Theorem CNNEncoder_assertions (A : Type) (zero : A) (add mul maxA : A -> A -> A)
    (self : CNNEncoder.t A) :
  (forall x : Tensor A,
     dim x <> 3 ->
     CNNEncoder.forward zero add mul maxA self x = Raise AssertionError)
  /\ (forall b t i d,
        i <> CNNEncoder.input_size self ->
        CNNEncoder.forward zero add mul maxA self (mkTensor [b; t; i] d)
        = Raise AssertionError).
Proof.
  split.
  - intros x Hx. unfold CNNEncoder.forward, CNNEncoder.convolve.
    destruct (Nat.eqb_spec (dim x) 3); [contradiction | reflexivity].
  - intros b t i d Hi. unfold CNNEncoder.forward, CNNEncoder.convolve.
    cbn [dim shape length Nat.eqb py_assert bind].
    unfold size. rewrite norm_dim_last by (unfold dim; simpl; lia).
    cbn [dim shape length Nat.sub nth bind].
    replace (i =? CNNEncoder.input_size self) with false
      by (symmetry; apply Nat.eqb_neq; exact Hi).
    reflexivity.
Qed.

Lemma CNNEncoder_assertions_witness :
  CNNEncoder.forward 0%Z Z.add Z.mul Z.max Examples.encoder
    (mkTensor [1; 1; 2] [1; 2]%Z)
  = Raise AssertionError.
Proof.
  destruct (@CNNEncoder_assertions Z 0%Z Z.add Z.mul Z.max Examples.encoder)
    as (_ & H).
  apply (H 1 1 2 [1; 2]%Z). simpl. lia.
Defined.

Lemma map_seq_blocks {U : Type} (F : nat -> U) (b m : nat) :
  map F (seq 0 (b * m))
  = flat_map (fun o => map (fun k => F (o * m + k)) (seq 0 m)) (seq 0 b).
Proof.
  induction b as [|b IH]; [reflexivity|].
  replace (S b * m) with (b * m + m) by lia.
  rewrite seq_app, map_app, IH, seq_S, flat_map_app. cbn [flat_map Nat.add].
  rewrite app_nil_r. f_equal.
  rewrite (seq_shift_add (b * m) m), map_map. reflexivity.
Qed.

(** X11: every output value is the maximum, over the [t + filter_width - 1]
    time steps of the convolved tensor (those over the padding included),
    of the activations of one filter on one sequence. *)
Theorem CNNEncoder_forward_max (A : Type) (zero : A) (add mul maxA : A -> A -> A)
    (input_size num_filters filter_width : nat)
    (weight : nat -> nat -> nat -> nat -> A) (bias : nat -> A)
    (b t : nat) (d : list A) :
  1 <= filter_width -> 1 <= input_size -> 1 <= num_filters -> 1 <= t ->
  let self := CNNEncoder.__init__ input_size num_filters filter_width weight bias in
  CNNEncoder.forward zero add mul maxA self (mkTensor [b; t; input_size] d)
  = Ok (mkTensor [b; num_filters]
          (flat_map
             (fun o => map
                         (fun k => max_list zero maxA
                                     (map (fun i => conv_at zero add mul (CNNEncoder.conv self)
                                                      1 t input_size (filter_width - 1) 0
                                                      d o k i 0)
                                          (seq 0 (t + (filter_width - 1)))))
                         (seq 0 num_filters))
             (seq 0 b))).
Proof.
  intros Hw Hs Hf Ht self.
  unfold CNNEncoder.forward. unfold self. rewrite convolve_eq by assumption.
  fold self. cbn [bind].
  unfold size. rewrite norm_dim_last by (unfold dim; simpl; lia).
  cbn [dim shape length Nat.sub nth bind Nat.eqb py_assert].
  unfold squeeze. rewrite norm_dim_last by (unfold dim; simpl; lia).
  cbn [dim shape data length Nat.sub nth bind Nat.eqb firstn skipn app].
  unfold torch_max. rewrite norm_dim_last by (unfold dim; simpl; lia).
  cbn [dim shape data length Nat.sub nth].
  replace (1 <=? t + (filter_width - 1)) with true by (symmetry; solve_bool).
  cbn [require bind]. f_equal. unfold reduce_axis.
  cbn [shape data firstn skipn app numel fold_right nth seq map].
  f_equal.
  set (n := t + (filter_width - 1)).
  set (v := fun o k i => conv_at zero add mul (CNNEncoder.conv self)
                           1 t input_size (filter_width - 1) 0 d o k i 0).
  rewrite flat_map_singleton, Nat.mul_1_r.
  rewrite map_seq_blocks.
  apply flat_map_ext_in. intros o Ho. apply in_seq in Ho.
  apply map_ext_in. intros k Hk. apply in_seq in Hk.
  f_equal. apply map_ext_in. intros m Hm. apply in_seq in Hm.
  change (nth (((o * num_filters + k) * n + m) * 1 + 0)
            (flat_map
               (fun o' => flat_map (fun k' => flat_map (fun i => [v o' k' i]) (seq 0 n))
                            (seq 0 num_filters))
               (seq 0 b)) zero
          = v o k m).
  replace (((o * num_filters + k) * n + m) * 1 + 0)
    with (o * (num_filters * n) + (k * n + m)) by lia.
  assert (Hrow : forall o' k', length (flat_map (fun i => [v o' k' i]) (seq 0 n)) = n).
  { intros o' k'. rewrite flat_map_singleton, length_map, length_seq. reflexivity. }
  rewrite nth_blocks
    with (g := fun o' => flat_map (fun k' => flat_map (fun i => [v o' k' i]) (seq 0 n))
                           (seq 0 num_filters))
         (k := num_filters * n).
  - rewrite nth_blocks with (g := fun k' => flat_map (fun i => [v o k' i]) (seq 0 n))
                            (k := n).
    + rewrite flat_map_singleton. apply nth_map_seq. lia.
    + intros k' _. apply Hrow.
    + lia.
    + lia.
  - intros o' _. rewrite flat_map_constant_length with (c := n).
    + rewrite length_seq. reflexivity.
    + intros k' _. apply Hrow.
  - lia.
  - assert (k * n + n <= num_filters * n) by nia. lia.
Qed.

Lemma CNNEncoder_forward_max_witness :
  CNNEncoder.forward 0%Z Z.add Z.mul Z.max Examples.encoder Examples.one_frame
  = Ok (mkTensor [1; 1]
          (flat_map
             (fun o => map
                         (fun k => max_list 0%Z Z.max
                                     (map (fun i => conv_at 0%Z Z.add Z.mul
                                                      (CNNEncoder.conv Examples.encoder)
                                                      1 1 1 (2 - 1) 0 [1%Z] o k i 0)
                                          (seq 0 (1 + (2 - 1)))))
                         (seq 0 1))
             (seq 0 1))).
Proof.
  apply (@CNNEncoder_forward_max Z 0%Z Z.add Z.mul Z.max 1 1 2
           (fun _ _ _ _ => 1%Z) (fun _ => 0%Z) 1 1 [1%Z]); lia.
Defined.

(** ** BiLSTMEmbedder: checks, failures and the contents of the output *)

Lemma BiLSTMEmbedder_zero_beyond_length_witness :
  shape (mkTensor [2; 2; 2] [20; 41; 41; 21; 17; 17; 0; 0]%Z) = [2; 2; 2]
  /\ chunk 2 (1 * 2 + 1) (data (mkTensor [2; 2; 2] [20; 41; 41; 21; 17; 17; 0; 0]%Z))
     = [0; 0]%Z.
Proof.
  destruct (@BiLSTMEmbedder_zero_beyond_length Z Z 0%Z stable_sort Examples.embedder
              Examples.batch 2 3 1 [5; 6; 0; 7; 0; 0]%Z
              (mkTensor [2; 2; 2] [20; 41; 41; 21; 17; 17; 0; 0]%Z)) as (Hs & Hz).
  - exact stable_sort_spec.
  - intros layer reverse s x. reflexivity.
  - split; [discriminate|].
    intros i [<-|[]]. split; [reflexivity | left; reflexivity].
  - reflexivity.
  - reflexivity.
  - reflexivity.
  - reflexivity.
  - split; [exact Hs|].
    apply (Hz 1 1); [lia | vm_compute; lia | vm_compute; lia].
Defined.

(** X13: the checks on the channels.  A channel of rank other than 2 or 3
    fails the assertion, before the embedder is called; once the assertion
    has passed an exception of the embedder comes out unchanged; with no
    channel at all the assertion passes and, when the embedder returns, the
    call still fails, in [torch.cat] of an empty list and so not with an
    [AssertionError]. *)
Theorem BiLSTMEmbedder_input_checks (A St : Type) (zero : A)
    (tsort : bool -> list nat -> list nat * list nat)
    (self : BiLSTMEmbedder.t A St) :
  (forall inputs i,
     In i inputs -> dim i <> 2 -> dim i <> 3 ->
     BiLSTMEmbedder.forward zero tsort self inputs = Raise AssertionError)
  /\ (forall inputs x,
        (forall i, In i inputs -> dim i = 2 \/ dim i = 3) ->
        BiLSTMEmbedder.embedder self inputs = Raise x ->
        BiLSTMEmbedder.forward zero tsort self inputs = Raise x)
  /\ (forall e,
        BiLSTMEmbedder.embedder self [] = Ok e ->
        is_ok (BiLSTMEmbedder.forward zero tsort self []) = false
        /\ BiLSTMEmbedder.forward zero tsort self [] <> Raise AssertionError).
Proof.
  split; [|split].
  - intros inputs i Hi H2 H3. unfold BiLSTMEmbedder.forward.
    replace (forallb _ inputs) with false; [reflexivity|].
    symmetry. destruct (forallb _ inputs) eqn:E; [|reflexivity].
    rewrite forallb_forall in E. specialize (E i Hi).
    apply orb_prop in E. destruct E as [E|E]; apply Nat.eqb_eq in E; contradiction.
  - intros inputs x Hd Hx. unfold BiLSTMEmbedder.forward.
    replace (forallb _ inputs) with true.
    + cbn [py_assert bind]. rewrite Hx. reflexivity.
    + symmetry. apply forallb_forall. intros i Hi.
      apply orb_true_iff. destruct (Hd i Hi) as [H|H]; rewrite H; auto.
  - intros e He. unfold BiLSTMEmbedder.forward.
    cbn [forallb py_assert bind]. rewrite He.
    split; [reflexivity | discriminate].
Qed.

Lemma BiLSTMEmbedder_input_checks_witness :
  BiLSTMEmbedder.forward 0%Z stable_sort Examples.embedder [mkTensor [2] [5; 6]%Z]
  = Raise AssertionError
  /\ BiLSTMEmbedder.forward 0%Z stable_sort
       (BiLSTMEmbedder.__init__ (fun _ => Raise ValueError) 1 1 0%Z 0%Z
          Examples.counting_cell)
       Examples.batch
     = Raise ValueError.
Proof.
  split.
  - destruct (@BiLSTMEmbedder_input_checks Z Z 0%Z stable_sort Examples.embedder)
      as (H & _).
    apply (H [mkTensor [2] [5; 6]%Z] (mkTensor [2] [5; 6]%Z)).
    + simpl. auto.
    + unfold dim. simpl. lia.
    + unfold dim. simpl. lia.
  - destruct (@BiLSTMEmbedder_input_checks Z Z 0%Z stable_sort
                (BiLSTMEmbedder.__init__ (fun _ => Raise ValueError) 1 1 0%Z 0%Z
                   Examples.counting_cell)) as (_ & H & _).
    apply H; [|reflexivity].
    intros i [<-|[]]. left. reflexivity.
Defined.

Lemma forallb_false_exists {T : Type} (f : T -> bool) (l : list T) :
  forallb f l = false -> exists x, In x l /\ f x = false.
Proof.
  induction l as [|x l IH]; simpl; [discriminate|].
  destruct (f x) eqn:E; simpl.
  - intros H. destruct (IH H) as (y & Hy & Hf). exists y. auto.
  - intros _. exists x. auto.
Qed.



(** X15: before the derived length of a sequence the output holds what the
    recurrent layer emits for the first frames, as many as that length, of
    that sequence alone. *)
Theorem BiLSTMEmbedder_real_positions (A St : Type) (zero : A)
    (tsort : bool -> list nat -> list nat * list nat)
    (self : BiLSTMEmbedder.t A St) (inputs : list (Tensor Z)) (b T E : nat)
    (e : list A) (out : Tensor A) (o j : nat) :
  BiLSTMEmbedderTrace.sort_ok tsort ->
  BiLSTMEmbedderTrace.cell_ok (BiLSTMEmbedder.lstm self) ->
  BiLSTMEmbedderTrace.channels_ok inputs b T ->
  BiLSTMEmbedder.embedder self inputs = Ok (mkTensor [b; T; E] e) ->
  length e = b * T * E ->
  E = lstm_input_size (BiLSTMEmbedder.lstm self) ->
  BiLSTMEmbedder.forward zero tsort self inputs = Ok out ->
  o < b ->
  j < BiLSTMEmbedderTrace.true_length (BiLSTMEmbedder.padding_idx self) inputs T o ->
  chunk (2 * lstm_hidden_size (BiLSTMEmbedder.lstm self))
    (o * list_max (BiLSTMEmbedderTrace.true_lengths
                     (BiLSTMEmbedder.padding_idx self) inputs b T) + j)
    (data out)
  = nth j (BiLSTMEmbedderTrace.encoded (BiLSTMEmbedder.lstm self) e E T o
             (BiLSTMEmbedderTrace.true_length
                (BiLSTMEmbedder.padding_idx self) inputs T o)) [].
Proof.
  intros Hsort Hcell (Hne & Hin) Hemb Hwfe HE Hout Ho Hj.
  rewrite (@forward_eq_bilstm A St zero tsort Hsort self Hcell inputs b T E e
             Hne Hin Hemb Hwfe HE) in Hout.
  set (lens := BiLSTMEmbedderTrace.true_lengths (BiLSTMEmbedder.padding_idx self)
                 inputs b T) in *.
  set (len := BiLSTMEmbedderTrace.true_length (BiLSTMEmbedder.padding_idx self)
                inputs T) in *.
  destruct ((1 <=? b * T * E) && forallb (fun n => 1 <=? n) lens); [|discriminate].
  injection Hout as <-. cbn [data].
  assert (Hmax : len o <= list_max lens) by (apply len_le_max; exact Ho).
  rewrite <- chunk_chunk by lia.
  rewrite chunk_flat_map_seq
    with (f := fun r => BiLSTMEmbedderTrace.row_out zero (BiLSTMEmbedder.lstm self)
                          e E T (list_max lens) r (len r)).
  - unfold BiLSTMEmbedderTrace.row_out.
    assert (Hw : Forall (fun v => length v = 2 * lstm_hidden_size (BiLSTMEmbedder.lstm self))
                   (BiLSTMEmbedderTrace.encoded (BiLSTMEmbedder.lstm self) e E T o (len o)))
      by (apply bidirectional_widths; exact Hcell).
    rewrite chunk_app_l.
    + apply chunk_concat; [exact Hw|]. rewrite length_encoded. exact Hj.
    + rewrite length_concat_const with (k := 2 * lstm_hidden_size (BiLSTMEmbedder.lstm self))
        by exact Hw.
      rewrite length_encoded. apply Nat.mul_le_mono_r. lia.
  - intros r Hr. apply length_row_out; [exact Hcell|]. apply len_le_max. exact Hr.
  - exact Ho.
Qed.

Lemma BiLSTMEmbedder_real_positions_witness :
  chunk (2 * lstm_hidden_size (BiLSTMEmbedder.lstm Examples.embedder))
    (0 * list_max (BiLSTMEmbedderTrace.true_lengths
                     (BiLSTMEmbedder.padding_idx Examples.embedder)
                     Examples.batch 2 3) + 1)
    (data (mkTensor [2; 2; 2] [20; 41; 41; 21; 17; 17; 0; 0]%Z))
  = nth 1 (BiLSTMEmbedderTrace.encoded (BiLSTMEmbedder.lstm Examples.embedder)
             [5; 6; 0; 7; 0; 0]%Z 1 3 0
             (BiLSTMEmbedderTrace.true_length
                (BiLSTMEmbedder.padding_idx Examples.embedder) Examples.batch 3 0)) [].
Proof.
  apply (@BiLSTMEmbedder_real_positions Z Z 0%Z stable_sort Examples.embedder
           Examples.batch 2 3 1 [5; 6; 0; 7; 0; 0]%Z
           (mkTensor [2; 2; 2] [20; 41; 41; 21; 17; 17; 0; 0]%Z) 0 1).
  - exact stable_sort_spec.
  - intros layer reverse s x. reflexivity.
  - split; [discriminate|].
    intros i [<-|[]]. split; [reflexivity | left; reflexivity].
  - reflexivity.
  - reflexivity.
  - reflexivity.
  - reflexivity.
  - lia.
  - vm_compute. lia.
Defined.

(** X16: the result does not depend on how the framework's sort orders sequences
    of equal length. *)
Theorem BiLSTMEmbedder_sort_independent (A St : Type) (zero : A)
    (tsort1 tsort2 : bool -> list nat -> list nat * list nat)
    (self : BiLSTMEmbedder.t A St) (inputs : list (Tensor Z)) (b T E : nat)
    (e : list A) :
  BiLSTMEmbedderTrace.sort_ok tsort1 ->
  BiLSTMEmbedderTrace.sort_ok tsort2 ->
  BiLSTMEmbedderTrace.cell_ok (BiLSTMEmbedder.lstm self) ->
  BiLSTMEmbedderTrace.channels_ok inputs b T ->
  BiLSTMEmbedder.embedder self inputs = Ok (mkTensor [b; T; E] e) ->
  length e = b * T * E ->
  E = lstm_input_size (BiLSTMEmbedder.lstm self) ->
  BiLSTMEmbedder.forward zero tsort1 self inputs
  = BiLSTMEmbedder.forward zero tsort2 self inputs.
Proof.
  intros Hs1 Hs2 Hcell (Hne & Hin) Hemb Hwfe HE.
  rewrite (@forward_eq_bilstm A St zero tsort1 Hs1 self Hcell inputs b T E e
             Hne Hin Hemb Hwfe HE).
  rewrite (@forward_eq_bilstm A St zero tsort2 Hs2 self Hcell inputs b T E e
             Hne Hin Hemb Hwfe HE).
  reflexivity.
Qed.

Lemma sortedb_snoc (r : nat -> nat -> bool) (l : list nat) (x y : nat) :
  sortedb r (l ++ [y]) = true -> r y x = true ->
  sortedb r (l ++ [y; x]) = true.
Proof.
  intros Hs Hyx. induction l as [|z l IH].
  - cbn. rewrite Hyx. reflexivity.
  - destruct l as [|z' l].
    + cbn [app] in *. rewrite sortedb_cons in Hs. rewrite !sortedb_cons.
      apply andb_prop in Hs. destruct Hs as [Hzy _].
      rewrite Hzy, Hyx. reflexivity.
    + cbn [app] in *. rewrite sortedb_cons in Hs. rewrite sortedb_cons.
      apply andb_prop in Hs. destruct Hs as [Hzz Hs].
      rewrite Hzz. apply IH. exact Hs.
Qed.

Lemma sortedb_rev (r : nat -> nat -> bool) (l : list nat) :
  sortedb r l = true -> sortedb (fun x y => r y x) (rev l) = true.
Proof.
  induction l as [|x l IH]; intros Hs; [reflexivity|].
  destruct l as [|y l]; [reflexivity|].
  rewrite sortedb_cons in Hs. apply andb_prop in Hs. destruct Hs as [Hxy Hs].
  specialize (IH Hs). cbn [rev] in *. rewrite <- app_assoc. cbn [app].
  apply sortedb_snoc; assumption.
Qed.

(** A sort that puts equal lengths in the opposite order of the stable
    one. *)
Lemma reversing_sort_spec :
  BiLSTMEmbedderTrace.sort_ok Examples.reversing_sort.
Proof.
  intros descending l. unfold Examples.reversing_sort.
  destruct (stable_sort_spec (negb descending) l) as (Hp & Hv & Hs).
  unfold sort_result. cbn [fst snd]. split; [|split].
  - rewrite <- Hp. symmetry. apply Permutation_rev.
  - rewrite Hv. symmetry. apply map_rev.
  - apply sortedb_rev in Hs.
    destruct descending; exact Hs.
Qed.

Lemma BiLSTMEmbedder_sort_independent_witness :
  BiLSTMEmbedder.forward 0%Z stable_sort Examples.embedder Examples.tied_batch
  = BiLSTMEmbedder.forward 0%Z Examples.reversing_sort Examples.embedder Examples.tied_batch.
Proof.
  apply (@BiLSTMEmbedder_sort_independent Z Z 0%Z stable_sort Examples.reversing_sort
           Examples.embedder Examples.tied_batch 2 2 1 [5; 6; 7; 8]%Z).
  - exact stable_sort_spec.
  - exact reversing_sort_spec.
  - intros layer reverse s x. reflexivity.
  - split; [discriminate|].
    intros i [<-|[]]. split; [reflexivity | left; reflexivity].
  - reflexivity.
  - reflexivity.
  - reflexivity.
Defined.

(** X17: what the embedder returns at or after the derived length of a sequence
    never reaches the output: two embedders that agree on the first
    [true_length] frames of every sequence give the same result. *)
Theorem BiLSTMEmbedder_ignores_frames_beyond_length (A St : Type) (zero : A)
    (tsort : bool -> list nat -> list nat * list nat)
    (emb1 emb2 : list (Tensor Z) -> result (Tensor A)) (net : LSTM A St)
    (pad : Z) (inputs : list (Tensor Z)) (b T E : nat) (e1 e2 : list A) :
  BiLSTMEmbedderTrace.sort_ok tsort ->
  BiLSTMEmbedderTrace.cell_ok net ->
  BiLSTMEmbedderTrace.channels_ok inputs b T ->
  emb1 inputs = Ok (mkTensor [b; T; E] e1) ->
  emb2 inputs = Ok (mkTensor [b; T; E] e2) ->
  length e1 = b * T * E ->
  length e2 = b * T * E ->
  E = lstm_input_size net ->
  (forall o j, o < b -> j < BiLSTMEmbedderTrace.true_length pad inputs T o ->
     chunk E (o * T + j) e1 = chunk E (o * T + j) e2) ->
  BiLSTMEmbedder.forward zero tsort (BiLSTMEmbedder.mk emb1 net pad) inputs
  = BiLSTMEmbedder.forward zero tsort (BiLSTMEmbedder.mk emb2 net pad) inputs.
Proof.
  intros Hs Hcell (Hne & Hin) Hemb1 Hemb2 Hwf1 Hwf2 HE Hagree.
  rewrite (@forward_eq_bilstm A St zero tsort Hs (BiLSTMEmbedder.mk emb1 net pad)
             Hcell inputs b T E e1 Hne Hin Hemb1 Hwf1 HE).
  rewrite (@forward_eq_bilstm A St zero tsort Hs (BiLSTMEmbedder.mk emb2 net pad)
             Hcell inputs b T E e2 Hne Hin Hemb2 Hwf2 HE).
  cbn [BiLSTMEmbedder.lstm BiLSTMEmbedder.padding_idx].
  destruct ((1 <=? b * T * E)
            && forallb (fun n => 1 <=? n)
                 (BiLSTMEmbedderTrace.true_lengths pad inputs b T));
    [|reflexivity].
  f_equal. f_equal. apply flat_map_ext_in. intros o Ho.
  apply in_seq in Ho.
  unfold BiLSTMEmbedderTrace.row_out, BiLSTMEmbedderTrace.encoded,
    BiLSTMEmbedderTrace.frames_of.
  do 4 f_equal.
  apply map_ext_in. intros j Hj. apply in_seq in Hj.
  apply Hagree; lia.
Qed.

Lemma BiLSTMEmbedder_ignores_frames_beyond_length_witness :
  BiLSTMEmbedder.forward 0%Z stable_sort
    (BiLSTMEmbedder.mk Examples.embed (BiLSTMEmbedder.lstm Examples.embedder) 0%Z)
    Examples.batch
  = BiLSTMEmbedder.forward 0%Z stable_sort
      (BiLSTMEmbedder.mk Examples.embed_pad9 (BiLSTMEmbedder.lstm Examples.embedder) 0%Z)
      Examples.batch.
Proof.
  apply (@BiLSTMEmbedder_ignores_frames_beyond_length Z Z 0%Z stable_sort
           Examples.embed Examples.embed_pad9 (BiLSTMEmbedder.lstm Examples.embedder)
           0%Z Examples.batch 2 3 1
           [5; 6; 0; 7; 0; 0]%Z [5; 6; 9; 7; 9; 9]%Z).
  - exact stable_sort_spec.
  - intros layer reverse s x. reflexivity.
  - split; [discriminate|].
    intros i [<-|[]]. split; [reflexivity | left; reflexivity].
  - reflexivity.
  - reflexivity.
  - reflexivity.
  - reflexivity.
  - reflexivity.
  - intros o j Ho Hj.
    destruct o as [|[|o]]; [| |lia].
    + change (BiLSTMEmbedderTrace.true_length 0 Examples.batch 3 0) with 2 in Hj.
      destruct j as [|[|j]]; [reflexivity|reflexivity|lia].
    + change (BiLSTMEmbedderTrace.true_length 0 Examples.batch 3 1) with 1 in Hj.
      destruct j as [|j]; [reflexivity|lia].
Defined.

(** X18: an embedder whose vectors do not have the size the constructor was
    given never gets through the recurrent layer: on well-formed channels
    [forward] raises the framework's [RuntimeError]. *)
Theorem BiLSTMEmbedder_size_mismatch (A St : Type) (zero : A)
    (tsort : bool -> list nat -> list nat * list nat)
    (emb : list (Tensor Z) -> result (Tensor A))
    (embedder_size hidden_size : nat) (pad : Z) (initial : St)
    (cell : nat -> bool -> St -> list A -> St * list A)
    (inputs : list (Tensor Z)) (b T E : nat) (e : list A) :
  BiLSTMEmbedderTrace.sort_ok tsort ->
  BiLSTMEmbedderTrace.channels_ok inputs b T ->
  emb inputs = Ok (mkTensor [b; T; E] e) ->
  length e = b * T * E ->
  E <> embedder_size ->
  BiLSTMEmbedder.forward zero tsort
    (BiLSTMEmbedder.__init__ emb embedder_size hidden_size pad initial cell) inputs
  = Raise RuntimeError.
Proof.
  intros Hs (Hne & Hin) Hemb Hwfe HE.
  unfold BiLSTMEmbedder.forward, BiLSTMEmbedder.__init__.
  cbn [BiLSTMEmbedder.embedder BiLSTMEmbedder.lstm].
  rewrite (dims_ok inputs Hin). cbn [py_assert bind].
  rewrite Hemb. cbn [bind].
  rewrite (@seq_lengths_eq pad inputs b T Hne Hin A St
             (BiLSTMEmbedder.mk emb
                (mkLSTM embedder_size hidden_size initial cell) pad) eq_refl).
  cbn [bind data].
  pose proof (Hs true (BiLSTMEmbedderTrace.true_lengths pad inputs b T)) as Hr.
  destruct (tsort true (BiLSTMEmbedderTrace.true_lengths pad inputs b T)) as [sl sp].
  assert (Hsp : Permutation sp (seq 0 b)).
  { destruct Hr as (Hp & _). cbn [snd] in Hp. rewrite length_lens in Hp. exact Hp. }
  rewrite index_rows_eq by exact Hsp. cbn [bind].
  rewrite (@pack_eq A St
             (BiLSTMEmbedder.mk emb (mkLSTM E hidden_size initial cell) pad)
             inputs b T E e Hwfe eq_refl sl sp Hr).
  cbn [BiLSTMEmbedder.padding_idx].
  destruct ((1 <=? b * T * E)
            && forallb (fun n => 1 <=? n)
                 (BiLSTMEmbedderTrace.true_lengths pad inputs b T));
    cbn [bind]; [|reflexivity].
  unfold lstm_forward. cbn [features lstm_input_size].
  apply Nat.eqb_neq in HE. rewrite HE. reflexivity.
Qed.

Lemma BiLSTMEmbedder_size_mismatch_witness :
  BiLSTMEmbedder.forward 0%Z stable_sort
    (BiLSTMEmbedder.__init__ Examples.embed 3 1 0%Z 0%Z Examples.counting_cell)
    Examples.batch
  = Raise RuntimeError.
Proof.
  apply (@BiLSTMEmbedder_size_mismatch Z Z 0%Z stable_sort Examples.embed 3 1 0%Z 0%Z
           Examples.counting_cell Examples.batch 2 3 1 [5; 6; 0; 7; 0; 0]%Z).
  - exact stable_sort_spec.
  - split; [discriminate|].
    intros i [<-|[]]. split; [reflexivity | left; reflexivity].
  - reflexivity.
  - reflexivity.
  - lia.
Defined.

(** ** The printed form *)

Lemma append_inj_l (s a b : String.string) :
  String.append s a = String.append s b -> a = b.
Proof.
  induction s as [|c s IH]; cbn; intros H; [exact H|].
  injection H as H. apply IH. exact H.
Qed.

Lemma append_last_inj (a b : String.string) (c : Ascii.ascii) :
  String.append a (String.String c String.EmptyString)
  = String.append b (String.String c String.EmptyString) -> a = b.
Proof.
  revert b. induction a as [|x a IH]; intros [|y b]; cbn; intros H.
  - reflexivity.
  - injection H as _ H. destruct b; discriminate H.
  - injection H as _ H. destruct a; discriminate H.
  - injection H as Hxy H. f_equal; [exact Hxy | apply IH; exact H].
Qed.

Lemma str_inj (m n : nat) :
  ContextWindowRepr.str m = ContextWindowRepr.str n -> m = n.
Proof.
  unfold ContextWindowRepr.str. intros H.
  assert (Hu : Some (Nat.to_uint m) = Some (Nat.to_uint n)).
  { rewrite <- (DecimalString.NilEmpty.usu (Nat.to_uint m)),
      <- (DecimalString.NilEmpty.usu (Nat.to_uint n)), H. reflexivity. }
  injection Hu as Hu.
  rewrite <- (DecimalNat.Unsigned.of_to m), <- (DecimalNat.Unsigned.of_to n), Hu.
  reflexivity.
Qed.

(** X19: the printed form tells the window: two instances of one class print
    alike only when they were built with the same window. *)
Theorem ContextWindow_repr_injective (class_name : String.string) (w1 w2 : nat) :
  ContextWindowRepr.__repr__ class_name w1 = ContextWindowRepr.__repr__ class_name w2
  <-> w1 = w2.
Proof.
  split; [|intros ->; reflexivity].
  unfold ContextWindowRepr.__repr__. intros H.
  apply append_inj_l in H. apply append_inj_l in H.
  apply append_last_inj in H. apply str_inj. exact H.
Qed.
